(** * emlite-js: the handle table and the value-marshaling bridge

    A shallow embedding of [src/emlite.js] (protocol version 1037): the
    reference-counted [HandleTable], the numeric constructors and
    extractors, the string transcoding through guest memory, and the
    invocation bridge with its error normalisation.  The older copy of the
    bridge kept in the repository (protocol version 1024) is embedded in
    [Module Legacy] where it differs on an operation studied here.

    Conventions of the embedding:
    - handles, reference counts and the allocation counter are integers
      (the JavaScript numbers holding them stay below 2^53, where their
      arithmetic is exact);
    - a host object is a location in a heap, equal to itself only;
    - code that can throw returns a [completion];
    - what the engine or the host decides (printing and parsing numbers,
      converting objects, running a dispatched call) is a parameter of the
      operation that needs it. *)

From Stdlib Require Import ZArith Lia List Bool.
From Stdlib Require Import Floats.SpecFloat.
From stdpp Require Import gmap list strings.

Local Open Scope Z_scope.

(** ** Host values

    A JavaScript value as the bridge sees it.  Numbers are IEEE-754 doubles
    ([spec_float]); strings are sequences of 16-bit code units; objects,
    arrays and functions are references into the host heap and compare by
    identity; symbols are identified by a stamp. *)

Inductive JsValue : Type :=
| JNull
| JUndefined
| JBool (b : bool)
| JNumber (d : spec_float)
| JBigInt (z : Z)
| JString (s : list Z)
| JSymbol (id : positive)
| JObject (l : positive).

(** What a [throw] carries: an engine-raised [TypeError] or [RangeError],
    an [Error] the bridge itself constructs with a fixed message, or an
    arbitrary host value. *)
Inductive Exception : Type :=
| ExcTypeError
| ExcRangeError
| ExcError (msg : list Z)
| ExcValue (v : JsValue).

(** The outcome of running a piece of JavaScript: a value or a throw. *)
Inductive completion (A : Type) : Type :=
| Normal (a : A)
| Throw (e : Exception).
Arguments Normal {A} a.
Arguments Throw {A} e.

Definition completion_bind {A B} (c : completion A) (f : A -> completion B)
  : completion B :=
  match c with
  | Normal a => f a
  | Throw e => Throw e
  end.

Notation "'let*' x := c 'in' k" := (completion_bind c (fun x => k))
  (at level 10, x name, c at level 100, k at level 200).

#[global] Instance spec_float_eq_dec : EqDecision spec_float.
Proof. solve_decision. Defined.

#[global] Instance spec_float_countable : Countable spec_float.
Proof.
  refine (inj_countable'
    (fun d => match d with
              | S754_zero s => inl s
              | S754_infinity s => inr (inl s)
              | S754_nan => inr (inr (inl tt))
              | S754_finite s m e => inr (inr (inr (s, m, e)))
              end)
    (fun x => match x with
              | inl s => S754_zero s
              | inr (inl s) => S754_infinity s
              | inr (inr (inl _)) => S754_nan
              | inr (inr (inr (s, m, e))) => S754_finite s m e
              end) _).
  intros []; reflexivity.
Defined.

#[global] Instance JsValue_eq_dec : EqDecision JsValue.
Proof. solve_decision. Defined.

#[global] Instance JsValue_countable : Countable JsValue.
Proof.
  refine (inj_countable'
    (fun v => match v with
              | JNull => inl (inl tt)
              | JUndefined => inl (inr tt)
              | JBool b => inr (inl (inl b))
              | JNumber d => inr (inl (inr d))
              | JBigInt z => inr (inr (inl (inl z)))
              | JString s => inr (inr (inl (inr s)))
              | JSymbol i => inr (inr (inr (inl i)))
              | JObject l => inr (inr (inr (inr l)))
              end)
    (fun x => match x with
              | inl (inl _) => JNull
              | inl (inr _) => JUndefined
              | inr (inl (inl b)) => JBool b
              | inr (inl (inr d)) => JNumber d
              | inr (inr (inl (inl z))) => JBigInt z
              | inr (inr (inl (inr s))) => JString s
              | inr (inr (inr (inl i))) => JSymbol i
              | inr (inr (inr (inr l))) => JObject l
              end) _).
  intros []; reflexivity.
Defined.

(** ** Map keys

    A JavaScript [Map] compares keys with SameValueZero: [NaN] equals [NaN],
    and [-0] is stored as [+0].  [key] is that canonicalisation; every other
    value is its own key. *)

Definition key (v : JsValue) : JsValue :=
  match v with
  | JNumber (S754_zero true) => JNumber (S754_zero false)
  | _ => v
  end.

Definition SameValueZero (v1 v2 : JsValue) : Prop := key v1 = key v2.

(** ** The handle table ([class HandleTable])

    [_h2e] maps a handle to its entry [{ value, refs }], [_v2h] maps a value
    back to its handle, [_next] is the allocation counter.  Handles and
    reference counts are JavaScript numbers holding integers; they are
    integers here (the counters stay far below 2^53, where number
    arithmetic is exact). *)

Record Entry : Type := mkEntry { value : JsValue; refs : Z }.

Record HandleTable : Type := mkTable {
  _h2e : gmap Z Entry;
  _v2h : gmap JsValue Z;
  _next : Z
}.

(** [constructor()] *)
Definition new_HandleTable : HandleTable :=
  {| _h2e := ∅; _v2h := ∅; _next := 0 |}.

(** [_newEntry(value)]: allocate the handle [_next++] with one reference. *)
Definition _newEntry (t : HandleTable) (v : JsValue) : Z * HandleTable :=
  let h := _next t in
  (h, {| _h2e := <[h := mkEntry v 1]> (_h2e t);
         _v2h := <[key v := h]> (_v2h t);
         _next := h + 1 |}).

(** [add(value)]: when the reverse index has the value, bump the entry's
    count and return its handle; otherwise allocate.  [++this._h2e.get(h).refs]
    raises a [TypeError] when the forward entry is missing. *)
Definition add (t : HandleTable) (v : JsValue) : completion (Z * HandleTable) :=
  match _v2h t !! key v with
  | Some h =>
      match _h2e t !! h with
      | Some e =>
          Normal (h, {| _h2e := <[h := mkEntry (value e) (refs e + 1)]> (_h2e t);
                        _v2h := _v2h t;
                        _next := _next t |})
      | None => Throw ExcTypeError
      end
  | None => Normal (_newEntry t v)
  end.

(** [decRef(h)]: [false] on a missing entry; otherwise decrement, and on
    reaching zero delete both mappings. *)
Definition decRef (t : HandleTable) (h : Z) : bool * HandleTable :=
  match _h2e t !! h with
  | None => (false, t)
  | Some e =>
      let r := refs e - 1 in
      if r =? 0
      then (true, {| _h2e := delete h (_h2e t);
                     _v2h := delete (key (value e)) (_v2h t);
                     _next := _next t |})
      else (true, {| _h2e := <[h := mkEntry (value e) r]> (_h2e t);
                     _v2h := _v2h t;
                     _next := _next t |})
  end.

(** [incRef(h)] *)
Definition incRef (t : HandleTable) (h : Z) : HandleTable :=
  match _h2e t !! h with
  | Some e => {| _h2e := <[h := mkEntry (value e) (refs e + 1)]> (_h2e t);
                 _v2h := _v2h t;
                 _next := _next t |}
  | None => t
  end.

(** [get(h)]: [this._h2e.get(h)?.value], which is [undefined] when the
    handle has no entry. *)
Definition get (t : HandleTable) (h : Z) : JsValue :=
  match _h2e t !! h with
  | Some e => value e
  | None => JUndefined
  end.

(** [toHandle(value)] and [toValue(h)] *)
Definition toHandle (t : HandleTable) (v : JsValue) := add t v.
Definition toValue (t : HandleTable) (h : Z) : JsValue := get t h.

(** [has(value)] and [size] *)
Definition has (t : HandleTable) (v : JsValue) : bool :=
  bool_decide (is_Some (_v2h t !! key v)).

Definition table_size (t : HandleTable) : nat := size (_h2e t).

(** ** The reserved singletons ([emlite_init_handle_table])

    [globalThis] and [console] are host objects, the reserved marker is a
    fresh symbol. *)

Definition globalThis : JsValue := JObject 1%positive.
Definition console : JsValue := JObject 2%positive.
Definition EMLITE_RESERVED : JsValue := JSymbol 1%positive.

Definition reserved_values : list JsValue :=
  [JNull; JUndefined; JBool false; JBool true; globalThis; console; EMLITE_RESERVED].

(** A run of [add] calls, handles dropped. *)
Definition add_all (t : HandleTable) (l : list JsValue) : completion HandleTable :=
  foldl (fun c v => let* t := c in let* r := add t v in Normal (snd r))
        (Normal t) l.

(** The seven [EMLITE_VALMAP.add(...)] calls on a new table, in order. *)
Definition emlite_init_handle_table : completion HandleTable :=
  add_all new_HandleTable reserved_values.

Definition EMLITE_VALMAP0 : HandleTable :=
  match emlite_init_handle_table with
  | Normal t => t
  | Throw _ => new_HandleTable
  end.

(** ** Reference counting and housekeeping at the bridge *)

(** [emlite_val_inc_ref: (h) => EMLITE_VALMAP.incRef(h)] *)
Definition emlite_val_inc_ref (t : HandleTable) (h : Z) : HandleTable :=
  incRef t h.

(** [emlite_val_dec_ref: (h) => { if (h > 6) EMLITE_VALMAP.decRef(h); }] *)
Definition emlite_val_dec_ref (t : HandleTable) (h : Z) : HandleTable :=
  if 6 <? h then snd (decRef t h) else t.

(** One iteration of the sweep: for a key above [bound], read the entry's
    value, delete the handle and delete the value from the reverse index.
    Reading [.value] of a missing entry raises a [TypeError]. *)
Definition reset_step (bound : Z) (t : HandleTable) (h : Z) : completion HandleTable :=
  if bound <? h then
    match _h2e t !! h with
    | Some e => Normal {| _h2e := delete h (_h2e t);
                          _v2h := delete (key (value e)) (_v2h t);
                          _next := _next t |}
    | None => Throw ExcTypeError
    end
  else Normal t.

(** The sweep over the snapshot [[...EMLITE_VALMAP._h2e.keys()]]; the
    deletions commute, so the order of the keys does not show in the
    result. *)
Definition reset_above (bound : Z) (t : HandleTable) : completion HandleTable :=
  foldl (fun c h => let* t' := c in reset_step bound t' h)
        (Normal t) (map fst (map_to_list (_h2e t))).

(** [emlite_reset_object_map]: the sweep with the guard [h > 6]. *)
Definition emlite_reset_object_map (t : HandleTable) : completion HandleTable :=
  reset_above 6 t.

(** ** Well-formed and reachable tables *)

(** The two indices mirror each other, live handles lie below the counter,
    and every live entry holds at least one reference. *)
Record wf (t : HandleTable) : Prop := mk_wf {
  wf_fwd : forall h e, _h2e t !! h = Some e -> _v2h t !! key (value e) = Some h;
  wf_bwd : forall k h, _v2h t !! k = Some h ->
             exists e, _h2e t !! h = Some e /\ key (value e) = k;
  wf_next : forall h e, _h2e t !! h = Some e -> 0 <= h < _next t;
  wf_next0 : 0 <= _next t;
  wf_refs : forall h e, _h2e t !! h = Some e -> 1 <= refs e
}.

(** Handle [i] of the reserved range holds the [i]-th singleton. *)
Definition reserved_ok (t : HandleTable) : Prop :=
  forall (i : nat) v, reserved_values !! i = Some v -> get t (Z.of_nat i) = v /\
    is_Some (_h2e t !! Z.of_nat i).

(** The tables the guest can produce: the initial table, then any sequence
    of registrations (every constructor and every call result goes through
    [add]), reference-count calls and resets. *)
Inductive reachable : HandleTable -> Prop :=
| reach_init : reachable EMLITE_VALMAP0
| reach_add t v h t' :
    reachable t -> add t v = Normal (h, t') -> reachable t'
| reach_inc_ref t h :
    reachable t -> reachable (emlite_val_inc_ref t h)
| reach_dec_ref t h :
    reachable t -> reachable (emlite_val_dec_ref t h)
| reach_reset t t' :
    reachable t -> emlite_reset_object_map t = Normal t' -> reachable t'.


(** ** Numbers

    The integer conversions of the language on doubles.  [truncate] drops
    the fractional part of a finite double; [NaN], the infinities and the
    zeros go to 0. *)

Definition truncate (d : spec_float) : Z :=
  match d with
  | S754_finite s m e =>
      let mag := if 0 <=? e then Z.pos m * 2 ^ e else Z.pos m / 2 ^ (- e) in
      if s then - mag else mag
  | _ => 0
  end.

(** [ToInt32]: truncate, reduce modulo 2^32, read as two's complement. *)
Definition ToInt32 (d : spec_float) : Z :=
  let int32bit := truncate d mod 2 ^ 32 in
  if 2 ^ 31 <=? int32bit then int32bit - 2 ^ 32 else int32bit.

(** [ToUint32]: truncate, reduce modulo 2^32. *)
Definition ToUint32 (d : spec_float) : Z := truncate d mod 2 ^ 32.

(** [BigInt.asIntN(bits, z)] and [BigInt.asUintN(bits, z)] *)
Definition asIntN (bits z : Z) : Z :=
  let m := z mod 2 ^ bits in
  if 2 ^ (bits - 1) <=? m then m - 2 ^ bits else m.

Definition asUintN (bits z : Z) : Z := z mod 2 ^ bits.

(** The double holding the integer [z]: the mantissa is shifted up to 53
    bits.  Exact for [|z| < 2^53], which covers every 32-bit result. *)
Definition double_of_Z (z : Z) : spec_float :=
  match z with
  | Z0 => S754_zero false
  | Zpos p =>
      let k := Z.max 0 (53 - Z.pos (digits2_pos p)) in
      S754_finite false (Z.to_pos (Z.pos p * 2 ^ k)) (- k)
  | Zneg p =>
      let k := Z.max 0 (53 - Z.pos (digits2_pos p)) in
      S754_finite true (Z.to_pos (Z.pos p * 2 ^ k)) (- k)
  end.

(** The integer a double holds, when it holds one. *)
Definition Z_of_double (d : spec_float) : option Z :=
  match d with
  | S754_zero _ => Some 0
  | S754_finite s m e =>
      if 0 <=? e then Some (truncate d)
      else if Z.pos m mod 2 ^ (- e) =? 0 then Some (truncate d) else None
  | _ => None
  end.

(** [!!value] on a number: false for the zeros and [NaN]. *)
Definition number_truthy (d : spec_float) : bool :=
  match d with
  | S754_zero _ | S754_nan => false
  | _ => true
  end.

(** ** Value construction at the bridge

    The guest passes 32-bit integers and doubles as numbers and 64-bit
    integers as BigInts; each constructor registers the converted value. *)

(** [emlite_val_make_bool: (value) => EMLITE_VALMAP.add(!!value)] *)
Definition emlite_val_make_bool (t : HandleTable) (value : spec_float) :=
  add t (JBool (number_truthy value)).

(** [emlite_val_make_int: (value) => EMLITE_VALMAP.add(value | 0)] *)
Definition emlite_val_make_int (t : HandleTable) (value : spec_float) :=
  add t (JNumber (double_of_Z (ToInt32 value))).

(** [emlite_val_make_uint: (value) => EMLITE_VALMAP.add(value >>> 0)] *)
Definition emlite_val_make_uint (t : HandleTable) (value : spec_float) :=
  add t (JNumber (double_of_Z (ToUint32 value))).

(** [emlite_val_make_bigint: (value) => EMLITE_VALMAP.add(BigInt(value))] *)
Definition emlite_val_make_bigint (t : HandleTable) (value : Z) :=
  add t (JBigInt value).

(** [emlite_val_make_biguint]: [let x = BigInt(value); if (x < 0n) x += 1n << 64n;] *)
Definition biguint_normalize (value : Z) : Z :=
  let x := value in
  if x <? 0 then x + Z.shiftl 1 64 else x.

Definition emlite_val_make_biguint (t : HandleTable) (value : Z) :=
  add t (JBigInt (biguint_normalize value)).

(** [emlite_val_make_double: (n) => EMLITE_VALMAP.add(n)] *)
Definition emlite_val_make_double (t : HandleTable) (n : spec_float) :=
  add t (JNumber n).

(** ** The host heap

    What the bridge observes of a host object: its class (which decides
    [typeof] and the [instanceof] tests the bridge makes), the properties
    visible on it (own or inherited; reading one yields a value, or throws
    when it is an accessor that throws), and the elements when it is an
    array. *)

Inductive ObjClass : Type :=
| ClsObject | ClsArray | ClsFunction | ClsError | ClsString | ClsNumber | ClsBoolean.

#[global] Instance ObjClass_eq_dec : EqDecision ObjClass.
Proof. solve_decision. Defined.

Record JsObject : Type := mkObject {
  obj_class : ObjClass;
  obj_props : gmap (list Z) (completion JsValue);
  obj_elems : list JsValue
}.

Abbreviation Heap := (gmap positive JsObject).

(** A string literal of the source as code units. *)
Definition lit (s : string) : list Z :=
  map (fun a => Z.of_nat (Ascii.nat_of_ascii a)) (String.list_ascii_of_string s).

(** The conversions the engine performs and the bridge does not define:
    parsing a string as a number, printing a number, a BigInt or a symbol,
    and converting an object to a number or to a string, which runs the
    object's own code and may throw. *)
Record HostPrims : Type := mkHostPrims {
  StringToNumber : list Z -> spec_float;
  NumberToString : spec_float -> list Z;
  BigIntToString : Z -> list Z;
  SymbolDescriptiveString : positive -> list Z;
  ObjectToNumber : Heap -> positive -> completion spec_float;
  ObjectToString : Heap -> positive -> completion (list Z)
}.

Definition class_of (hp : Heap) (v : JsValue) : option ObjClass :=
  match v with
  | JObject l => obj_class <$> hp !! l
  | _ => None
  end.

(** [v instanceof C] for the built-in classes the bridge tests. *)
Definition instanceof (hp : Heap) (v : JsValue) (c : ObjClass) : bool :=
  bool_decide (class_of hp v = Some c).

(** [typeof v] *)
Definition typeof (hp : Heap) (v : JsValue) : list Z :=
  match v with
  | JUndefined => lit "undefined"
  | JNull => lit "object"
  | JBool _ => lit "boolean"
  | JNumber _ => lit "number"
  | JBigInt _ => lit "bigint"
  | JString _ => lit "string"
  | JSymbol _ => lit "symbol"
  | JObject _ =>
      if instanceof hp v ClsFunction then lit "function" else lit "object"
  end.

(** Truthiness ([ToBoolean]). *)
Definition truthy (v : JsValue) : bool :=
  match v with
  | JUndefined | JNull => false
  | JBool b => b
  | JNumber d => number_truthy d
  | JBigInt z => negb (z =? 0)
  | JString s => negb (bool_decide (s = []))
  | JSymbol _ | JObject _ => true
  end.

(** [ToNumber], as the operators [|] and [>>>] apply it to a non-BigInt
    operand; a BigInt or a symbol operand is a [TypeError]. *)
Definition ToNumber (P : HostPrims) (hp : Heap) (v : JsValue) : completion spec_float :=
  match v with
  | JUndefined => Normal S754_nan
  | JNull => Normal (S754_zero false)
  | JBool b => Normal (double_of_Z (if b then 1 else 0))
  | JNumber d => Normal d
  | JBigInt _ => Throw ExcTypeError
  | JString s => Normal (StringToNumber P s)
  | JSymbol _ => Throw ExcTypeError
  | JObject l => ObjectToNumber P hp l
  end.

(** [String(v)]: total on primitives (a symbol prints its description),
    the object's own conversion otherwise. *)
Definition JsString (P : HostPrims) (hp : Heap) (v : JsValue) : completion (list Z) :=
  match v with
  | JUndefined => Normal (lit "undefined")
  | JNull => Normal (lit "null")
  | JBool b => Normal (if b then lit "true" else lit "false")
  | JNumber d => Normal (NumberToString P d)
  | JBigInt z => Normal (BigIntToString P z)
  | JString s => Normal s
  | JSymbol i => Normal (SymbolDescriptiveString P i)
  | JObject l => ObjectToString P hp l
  end.

(** ** Value extraction at the bridge *)

(** [emlite_val_get_value_int]: a BigInt gives its low 32 bits, signed;
    anything else goes through [val | 0]. *)
Definition emlite_val_get_value_int (P : HostPrims) (hp : Heap)
    (t : HandleTable) (n : Z) : completion Z :=
  let val := get t n in
  match val with
  | JBigInt z => Normal (asIntN 32 z)
  | _ => let* d := ToNumber P hp val in Normal (ToInt32 d)
  end.

(** [emlite_val_get_value_uint]: a BigInt gives its low 32 bits, unsigned;
    anything else goes through [val >>> 0]. *)
Definition emlite_val_get_value_uint (P : HostPrims) (hp : Heap)
    (t : HandleTable) (n : Z) : completion Z :=
  let val := get t n in
  match val with
  | JBigInt z => Normal (asUintN 32 z)
  | _ => let* d := ToNumber P hp val in Normal (ToUint32 d)
  end.

(** [BigInt(Math.trunc(Number(v)))]: a [RangeError] on [NaN] and the
    infinities. *)
Definition BigInt_of_trunc (d : spec_float) : completion Z :=
  match d with
  | S754_nan | S754_infinity _ => Throw ExcRangeError
  | _ => Normal (truncate d)
  end.

(** [emlite_val_get_value_bigint] *)
Definition emlite_val_get_value_bigint (P : HostPrims) (hp : Heap)
    (t : HandleTable) (h : Z) : completion Z :=
  let v := get t h in
  match v with
  | JBigInt z => Normal z
  | _ => let* d := ToNumber P hp v in BigInt_of_trunc d
  end.

(** [emlite_val_get_value_biguint]: negative values are clamped to zero;
    [n >= 0] is false for [NaN], which so gives zero as well, and
    [BigInt(Infinity)] is a [RangeError]. *)
Definition emlite_val_get_value_biguint (P : HostPrims) (hp : Heap)
    (t : HandleTable) (h : Z) : completion Z :=
  let v := get t h in
  match v with
  | JBigInt z => Normal (if 0 <=? z then z else 0)
  | _ =>
      let* d := ToNumber P hp v in
      match d with
      | S754_nan => Normal 0
      | S754_infinity s => if s then Normal 0 else Throw ExcRangeError
      | _ => let n := truncate d in Normal (if 0 <=? n then n else 0)
      end
  end.

(** [emlite_val_get_value_bool: (h) => (EMLITE_VALMAP.get(h) ? 1 : 0)] *)
Definition emlite_val_get_value_bool (t : HandleTable) (h : Z) : Z :=
  if truthy (get t h) then 1 else 0.

(** [emlite_val_not: (arg) => !EMLITE_VALMAP.get(arg)] *)
Definition emlite_val_not (t : HandleTable) (arg : Z) : bool :=
  negb (truthy (get t arg)).

(** [typeof obj === "string" || obj instanceof String] *)
Definition emlite_val_is_string (hp : Heap) (t : HandleTable) (arg : Z) : bool :=
  let obj := get t arg in
  bool_decide (typeof hp obj = lit "string") || instanceof hp obj ClsString.

(** [typeof obj === "number" || obj instanceof Number] *)
Definition emlite_val_is_number (hp : Heap) (t : HandleTable) (arg : Z) : bool :=
  let obj := get t arg in
  bool_decide (typeof hp obj = lit "number") || instanceof hp obj ClsNumber.

(** [(typeof v === "boolean" || v instanceof Boolean) | 0] *)
Definition emlite_val_is_bool (hp : Heap) (t : HandleTable) (h : Z) : Z :=
  let v := get t h in
  if bool_decide (typeof hp v = lit "boolean") || instanceof hp v ClsBoolean
  then 1 else 0.

(** [emlite_val_strictly_equals: (a, b) => get(a) === get(b)]: strict
    equality differs from the map's key comparison on [NaN] only. *)
Definition strict_equals (v1 v2 : JsValue) : bool :=
  match v1, v2 with
  | JNumber S754_nan, _ | _, JNumber S754_nan => false
  | _, _ => bool_decide (key v1 = key v2)
  end.

Definition emlite_val_strictly_equals (t : HandleTable) (a b : Z) : bool :=
  strict_equals (get t a) (get t b).

(** [emlite_val_get_value_double: (n) => Number(EMLITE_VALMAP.get(n))]:
    [Number] rounds a BigInt to the nearest double. *)
Definition emlite_val_get_value_double (P : HostPrims) (hp : Heap)
    (t : HandleTable) (n : Z) : completion spec_float :=
  match get t n with
  | JBigInt z => Normal (binary_normalize 53 1024 z 0 false)
  | v => ToNumber P hp v
  end.

(** ** Text encodings

    The platform's [TextEncoder] and [TextDecoder] (WHATWG Encoding), on
    strings as sequences of 16-bit code units and on code points. *)

Definition is_lead (c : Z) : bool := (0xD800 <=? c) && (c <=? 0xDBFF).
Definition is_trail (c : Z) : bool := (0xDC00 <=? c) && (c <=? 0xDFFF).

(** The code point of a surrogate pair. *)
Definition pair_cp (ls cu : Z) : Z :=
  0x10000 + Z.shiftl (ls - 0xD800) 10 + (cu - 0xDC00).

(** A code unit met with no lead surrogate pending: a lead surrogate is
    kept, a lone trail surrogate is replaced by U+FFFD, anything else is
    itself. *)
Definition utf16_start (cu : Z) : option Z * list Z :=
  if is_lead cu then (Some cu, [])
  else if is_trail cu then (None, [0xFFFD])
  else (None, [cu]).

(** One code unit: a pending lead surrogate pairs with a trail surrogate;
    before anything else it is replaced by U+FFFD and the unit is looked
    at again. *)
Definition utf16_step (lead : option Z) (cu : Z) : option Z * list Z :=
  match lead with
  | Some ls =>
      if is_trail cu then (None, [pair_cp ls cu])
      else let '(l, out) := utf16_start cu in (l, 0xFFFD :: out)
  | None => utf16_start cu
  end.

(** Code units to code points; at the end a pending lead surrogate or a
    left-over byte is one U+FFFD. *)
Fixpoint utf16_decode_units (lead : option Z) (units : list Z) (leftover : bool)
  : list Z :=
  match units with
  | [] => if leftover || bool_decide (is_Some lead) then [0xFFFD] else []
  | cu :: rest =>
      let '(l, out) := utf16_step lead cu in
      out ++ utf16_decode_units l rest leftover
  end.

(** The scalar values of a string, as [TextEncoder] reads it. *)
Definition to_scalars (s : list Z) : list Z := utf16_decode_units None s false.

(** The code units of a code point. *)
Definition units_of_cp (cp : Z) : list Z :=
  if cp <? 0x10000 then [cp]
  else [0xD800 + Z.shiftr (cp - 0x10000) 10; 0xDC00 + Z.land (cp - 0x10000) 0x3FF].

Definition units_of_cps (cps : list Z) : list Z := concat (map units_of_cp cps).

(** A decoder without [ignoreBOM] drops a leading U+FEFF. *)
Definition strip_bom (cps : list Z) : list Z :=
  match cps with
  | cp :: rest => if cp =? 0xFEFF then rest else cps
  | [] => []
  end.

(** UTF-8 encoder: one to four bytes per scalar value. *)
Definition utf8_encode_cp (cp : Z) : list Z :=
  if cp <=? 0x7F then [cp]
  else if cp <=? 0x7FF then
    [Z.shiftr cp 6 + 0xC0; Z.lor 0x80 (Z.land cp 0x3F)]
  else if cp <=? 0xFFFF then
    [Z.shiftr cp 12 + 0xE0; Z.lor 0x80 (Z.land (Z.shiftr cp 6) 0x3F);
     Z.lor 0x80 (Z.land cp 0x3F)]
  else
    [Z.shiftr cp 18 + 0xF0; Z.lor 0x80 (Z.land (Z.shiftr cp 12) 0x3F);
     Z.lor 0x80 (Z.land (Z.shiftr cp 6) 0x3F); Z.lor 0x80 (Z.land cp 0x3F)].

Definition utf8_encode (cps : list Z) : list Z := concat (map utf8_encode_cp cps).

(** [enc.encode(s)] *)
Definition TextEncoder_encode (s : list Z) : list Z := utf8_encode (to_scalars s).

(** UTF-8 decoder state: the code point under construction, the bytes seen
    and needed, and the bounds of the next continuation byte. *)
Record Utf8State : Type := mkUtf8 {
  u_cp : Z; u_seen : Z; u_needed : Z; u_lower : Z; u_upper : Z
}.

Definition utf8_init : Utf8State := mkUtf8 0 0 0 0x80 0xBF.

(** A byte met with no sequence open. *)
Definition utf8_start (b : Z) : Utf8State * list Z :=
  if (0 <=? b) && (b <=? 0x7F) then (utf8_init, [b])
  else if (0xC2 <=? b) && (b <=? 0xDF) then
    (mkUtf8 (Z.land b 0x1F) 0 1 0x80 0xBF, [])
  else if (0xE0 <=? b) && (b <=? 0xEF) then
    (mkUtf8 (Z.land b 0xF) 0 2
            (if b =? 0xE0 then 0xA0 else 0x80)
            (if b =? 0xED then 0x9F else 0xBF), [])
  else if (0xF0 <=? b) && (b <=? 0xF4) then
    (mkUtf8 (Z.land b 0x7) 0 3
            (if b =? 0xF0 then 0x90 else 0x80)
            (if b =? 0xF4 then 0x8F else 0xBF), [])
  else (utf8_init, [0xFFFD]).

(** One byte: a byte outside the bounds of an open sequence ends it with
    U+FFFD and is looked at again. *)
Definition utf8_step (st : Utf8State) (b : Z) : Utf8State * list Z :=
  if u_needed st =? 0 then utf8_start b
  else if negb ((u_lower st <=? b) && (b <=? u_upper st)) then
    let '(st', out) := utf8_start b in (st', 0xFFFD :: out)
  else
    let cp := Z.lor (Z.shiftl (u_cp st) 6) (Z.land b 0x3F) in
    let seen := u_seen st + 1 in
    if seen =? u_needed st then (utf8_init, [cp])
    else (mkUtf8 cp seen (u_needed st) 0x80 0xBF, []).

Fixpoint utf8_decode_from (st : Utf8State) (bytes : list Z) : list Z :=
  match bytes with
  | [] => if u_needed st =? 0 then [] else [0xFFFD]
  | b :: rest =>
      let '(st', out) := utf8_step st b in
      out ++ utf8_decode_from st' rest
  end.

(** [dec.decode(bytes)] for [new TextDecoder("utf-8")] *)
Definition TextDecoder_utf8 (bytes : list Z) : list Z :=
  units_of_cps (strip_bom (utf8_decode_from utf8_init bytes)).

(** Bytes to little-endian code units, and whether a byte is left over. *)
Fixpoint utf16le_units (bytes : list Z) : list Z * bool :=
  match bytes with
  | b0 :: b1 :: rest =>
      let '(us, odd) := utf16le_units rest in (Z.shiftl b1 8 + b0 :: us, odd)
  | [_] => ([], true)
  | [] => ([], false)
  end.

(** [dec_16.decode(bytes)] for [new TextDecoder("utf-16le")] *)
Definition TextDecoder_utf16le (bytes : list Z) : list Z :=
  let '(us, odd) := utf16le_units bytes in
  units_of_cps (strip_bom (utf16_decode_units None us odd)).

(** A string of 16-bit code units with every surrogate paired. *)
Definition code_units (s : list Z) : bool :=
  forallb (fun c => (0 <=? c) && (c <=? 0xFFFF)) s.

Fixpoint isWellFormed_from (lead : bool) (s : list Z) : bool :=
  match s with
  | [] => negb lead
  | c :: rest =>
      if lead then is_trail c && isWellFormed_from false rest
      else if is_lead c then isWellFormed_from true rest
      else negb (is_trail c) && isWellFormed_from false rest
  end.

Definition isWellFormed (s : list Z) : bool := isWellFormed_from false s.

(** ** Guest memory

    The linear memory as its bytes; [_u8] and [_u16] are views of the same
    buffer, little-endian, and are taken to be current (the guest runtime
    reports growth through [emscripten_notify_memory_growth]).  This is
    the model on bytes; the exports and the views as state of the bridge
    object, with what the routines do while the exports are not set or
    the views are over a detached buffer, are modelled further down
    ([Viewed]). *)

(** A relative index of [subarray]: negative counts from the end, and the
    result is clamped to the array. *)
Definition rel_index (len i : Z) : Z :=
  if i <? 0 then Z.max (len + i) 0 else Z.min i len.

(** [this._u8.subarray(b, e)] *)
Definition subarray (mem : list Z) (b e : Z) : list Z :=
  let len := Z.of_nat (length mem) in
  let from := rel_index len b in
  let to := rel_index len e in
  take (Z.to_nat (to - from)) (drop (Z.to_nat from) mem).

(** [this._u8.set(src, offset)]: a [RangeError] when the source does not
    fit at the offset. *)
Definition u8_set (mem src : list Z) (offset : Z) : completion (list Z) :=
  if (offset <? 0) || (Z.of_nat (length mem) <? Z.of_nat (length src) + offset)
  then Throw ExcRangeError
  else Normal (take (Z.to_nat offset) mem ++ src
                 ++ drop (Z.to_nat offset + length src) mem).

(** [this._u16[idx] = v]: the value modulo 2^16, low byte first; an index
    outside the view is ignored. *)
Definition u16_store (mem : list Z) (idx v : Z) : list Z :=
  if (0 <=? idx) && (idx <? Z.of_nat (length mem) / 2) then
    <[Z.to_nat (2 * idx + 1) := Z.shiftr (v mod 65536) 8]>
      (<[Z.to_nat (2 * idx) := Z.land v 0xFF]> mem)
  else mem.

(** The copy loop [for (i = 0; i < str.length; i++) _u16[startIdx + i] = str.charCodeAt(i)]. *)
Fixpoint u16_copy (mem : list Z) (idx : Z) (s : list Z) : list Z :=
  match s with
  | [] => mem
  | c :: rest => u16_copy (u16_store mem idx c) (idx + 1) rest
  end.

(** The guest's exports the bridge calls, once [setExports] was called:
    the allocator, when exported, takes the memory and a size and returns
    a pointer and the memory it leaves. *)
Record Exports : Type := mkExports {
  emlite_malloc : option (list Z -> Z -> Z * list Z)
}.

(** [cStr(ptr, len)] *)
Definition cStr (mem : list Z) (ptr len : Z) : list Z :=
  TextDecoder_utf8 (subarray mem ptr (ptr + len)).

(** [cStrUtf16(ptr, len)] *)
Definition cStrUtf16 (mem : list Z) (ptr len : Z) : list Z :=
  TextDecoder_utf16le (subarray mem ptr (ptr + len * 2)).

(** [!str || !(typeof str === "string" || str instanceof String)] *)
Definition not_a_string (hp : Heap) (str : JsValue) : bool :=
  negb (truthy str)
  || negb (bool_decide (typeof hp str = lit "string") || instanceof hp str ClsString).

(** [copyStringToWasm(str)]: the pointer returned and the memory left. *)
Definition copyStringToWasm (P : HostPrims) (hp : Heap) (ex : Exports)
    (mem : list Z) (str : JsValue) : completion (Z * list Z) :=
  if not_a_string hp str then Normal (0, mem)
  else
    match emlite_malloc ex with
    | Some malloc =>
        let* s := JsString P hp str in
        let utf8 := TextEncoder_encode (s ++ [0]) in
        let '(ptr, mem1) := malloc mem (Z.of_nat (length utf8)) in
        if ptr =? 0 then Throw (ExcError (lit "malloc failed in copyStringToWasm"))
        else
          let* mem2 := u8_set mem1 utf8 ptr in
          Normal (ptr, mem2)
    | None => Normal (0, mem)
    end.

(** [copyStringToWasmUtf16(str)] *)
Definition copyStringToWasmUtf16 (P : HostPrims) (hp : Heap) (ex : Exports)
    (mem : list Z) (str : JsValue) : completion (Z * list Z) :=
  if not_a_string hp str then Normal (0, mem)
  else
    match emlite_malloc ex with
    | Some malloc =>
        let* s := JsString P hp str in
        let byteLength := (Z.of_nat (length s) + 1) * 2 in
        let '(ptr, mem1) := malloc mem byteLength in
        if ptr =? 0 then Throw (ExcError (lit "malloc failed in copyStringToWasmUtf16"))
        else if negb (Z.rem ptr 2 =? 0)
        then Throw (ExcError (lit "UTF-16 string not properly aligned"))
        else
          let startIdx := Z.shiftr (ptr mod 2 ^ 32) 1 in
          let mem2 := u16_copy mem1 startIdx s in
          let mem3 := u16_store mem2 (startIdx + Z.of_nat (length s)) 0 in
          Normal (ptr, mem3)
    | None => Normal (0, mem)
    end.

(** [emlite_val_get_value_string], [emlite_val_get_value_string_utf16] and
    [emlite_val_typeof] *)
Definition emlite_val_get_value_string (P : HostPrims) (hp : Heap) (ex : Exports)
    (mem : list Z) (t : HandleTable) (n : Z) :=
  copyStringToWasm P hp ex mem (get t n).

Definition emlite_val_get_value_string_utf16 (P : HostPrims) (hp : Heap)
    (ex : Exports) (mem : list Z) (t : HandleTable) (n : Z) :=
  copyStringToWasmUtf16 P hp ex mem (get t n).

Definition emlite_val_typeof (P : HostPrims) (hp : Heap) (ex : Exports)
    (mem : list Z) (t : HandleTable) (n : Z) :=
  copyStringToWasm P hp ex mem (JString (typeof hp (get t n))).

(** [emlite_val_make_str] and [emlite_val_make_str_utf16] *)
Definition emlite_val_make_str (mem : list Z) (t : HandleTable) (ptr len : Z) :=
  add t (JString (cStr mem ptr len)).

Definition emlite_val_make_str_utf16 (mem : list Z) (t : HandleTable) (ptr len : Z) :=
  add t (JString (cStrUtf16 mem ptr len)).

(** ** The invocation bridge *)

(** Reading a host value through a handle held as a host value (an element
    of an argument array): only a number holding an integer is a key of
    [_h2e]. *)
Definition get_by_value (t : HandleTable) (h : JsValue) : JsValue :=
  match h with
  | JNumber d =>
      match Z_of_double d with
      | Some z => get t z
      | None => JUndefined
      end
  | _ => JUndefined
  end.

(** [EMLITE_VALMAP.get(argvRef).map((h) => EMLITE_VALMAP.get(h))]: the
    argument array unmarshalled one level deep.  A value that is no array
    has no [map] to call, which is a [TypeError]. *)
Definition resolve_args (t : HandleTable) (hp : Heap) (argvRef : Z)
  : completion (list JsValue) :=
  match get t argvRef with
  | JObject l =>
      match hp !! l with
      | Some o =>
          if bool_decide (obj_class o = ClsArray)
          then Normal (map (get_by_value t) (obj_elems o))
          else Throw ExcTypeError
      | None => Throw ExcTypeError
      end
  | _ => Throw ExcTypeError
  end.

(** What a host dispatch comes to: a result or a thrown value.  The host
    code it runs may re-enter the bridge, so it also leaves a table and a
    heap. *)
Inductive HostOutcome : Type :=
| Returned (v : JsValue)
| Threw (e : JsValue).

Definition HostCall : Type := HandleTable -> Heap -> HostOutcome * HandleTable * Heap.

(** The three dispatches the bridge makes:
    [Reflect.apply(target[method], target, args)],
    [Reflect.construct(target, args)] and
    [Reflect.apply(target, undefined, args)]. *)
Record Dispatch : Type := mkDispatch {
  host_apply_method : JsValue -> list Z -> list JsValue -> HostCall;
  host_construct : JsValue -> list JsValue -> HostCall;
  host_apply : JsValue -> list JsValue -> HostCall
}.

(** [new Error(msg)]: an error object with its message; [name] is the
    inherited "Error". *)
Definition new_Error (msg : list Z) : JsObject :=
  {| obj_class := ClsError;
     obj_props := {[ lit "message" := Normal (JString msg);
                     lit "name" := Normal (JString (lit "Error")) ]};
     obj_elems := [] |}.

Definition set_prop (o : JsObject) (k : list Z) (v : JsValue) : JsObject :=
  {| obj_class := obj_class o;
     obj_props := <[k := Normal v]> (obj_props o);
     obj_elems := obj_elems o |}.

(** [k in e] and [e[k]] on an object. *)
Definition props_of (hp : Heap) (e : JsValue) : gmap (list Z) (completion JsValue) :=
  match e with
  | JObject l => match hp !! l with Some o => obj_props o | None => ∅ end
  | _ => ∅
  end.

(** [if (k in e) err[k] = e[k];] *)
Definition copy_prop (hp : Heap) (e : JsValue) (k : list Z) (err : JsObject)
  : completion JsObject :=
  match props_of hp e !! k with
  | Some c => let* v := c in Normal (set_prop err k v)
  | None => Normal err
  end.

(** The [try] block of [normalizeThrown]: the error object it builds, or
    the throw of [String(e)] or of a property read. *)
Definition normalize_try (P : HostPrims) (hp : Heap) (e : JsValue)
  : completion JsObject :=
  let* msg := JsString P hp e in
  let err := new_Error msg in
  let* err :=
    if truthy e && bool_decide (typeof hp e = lit "object") then
      let* err := copy_prop hp e (lit "name") err in
      copy_prop hp e (lit "code") err
    else Normal err in
  Normal (set_prop err (lit "cause") e).

(** A new object at a location the heap does not use. *)
Definition alloc (hp : Heap) (o : JsObject) : JsValue * Heap :=
  let l := fresh (dom hp) in (JObject l, <[l := o]> hp).

(** [normalizeThrown(e)] *)
Definition normalizeThrown (P : HostPrims) (hp : Heap) (e : JsValue) : JsValue * Heap :=
  if instanceof hp e ClsError then (e, hp)
  else
    match normalize_try P hp e with
    | Normal err => alloc hp err
    | Throw _ => alloc hp (new_Error (lit "Unknown JS exception"))
    end.

(** [try { ret = dispatch } catch (e) { ret = normalizeThrown(e) }] followed
    by [return EMLITE_VALMAP.add(ret)]. *)
Definition finish_call (P : HostPrims) (call : HostCall) (t : HandleTable) (hp : Heap)
  : completion (Z * HandleTable * Heap) :=
  let '(out, t1, hp1) := call t hp in
  let '(ret, hp2) :=
    match out with
    | Returned v => (v, hp1)
    | Threw e => normalizeThrown P hp1 e
    end in
  let* r := add t1 ret in
  Normal (fst r, snd r, hp2).

(** [emlite_val_obj_call(objRef, mPtr, mLen, argvRef)] *)
Definition emlite_val_obj_call (P : HostPrims) (D : Dispatch) (mem : list Z)
    (t : HandleTable) (hp : Heap) (objRef mPtr mLen argvRef : Z)
  : completion (Z * HandleTable * Heap) :=
  let target := get t objRef in
  let method := cStr mem mPtr mLen in
  let* args := resolve_args t hp argvRef in
  finish_call P (host_apply_method D target method args) t hp.

(** [emlite_val_construct_new(objRef, argvRef)] *)
Definition emlite_val_construct_new (P : HostPrims) (D : Dispatch)
    (t : HandleTable) (hp : Heap) (objRef argvRef : Z)
  : completion (Z * HandleTable * Heap) :=
  let target := get t objRef in
  let* args := resolve_args t hp argvRef in
  finish_call P (host_construct D target args) t hp.

(** [emlite_val_func_call(objRef, argvRef)] *)
Definition emlite_val_func_call (P : HostPrims) (D : Dispatch)
    (t : HandleTable) (hp : Heap) (objRef argvRef : Z)
  : completion (Z * HandleTable * Heap) :=
  let target := get t objRef in
  let* args := resolve_args t hp argvRef in
  finish_call P (host_apply D target args) t hp.

(** [emlite_val_throw: (n) => { throw EMLITE_VALMAP.get(n); }] *)
Definition emlite_val_throw (t : HandleTable) (n : Z) : completion unit :=
  Throw (ExcValue (get t n)).

(** The property [k] that [normalizeThrown] copies from a thrown value:
    read only when the value is truthy and [typeof] gives "object". *)
Definition prop_read (hp : Heap) (e : JsValue) (k : list Z)
  : option (completion JsValue) :=
  if truthy e && bool_decide (typeof hp e = lit "object")
  then props_of hp e !! k else None.

(** What the bridge registers for a thrown value [e], in words of the
    result: an [Error] instance is registered as it is; any other value
    is wrapped in a new [Error] whose message is [String(e)], whose [name]
    and [code] are those of [e] when [e] is an object that has them, and
    whose [cause] is [e]; when [String(e)] or one of these reads throws,
    the new [Error] says "Unknown JS exception" and has no cause. *)
Inductive Normalized (P : HostPrims) (hp : Heap) (e : JsValue)
  : JsValue -> Heap -> Prop :=
| N_error :
    instanceof hp e ClsError = true ->
    Normalized P hp e e hp
| N_wrapped msg l o :
    instanceof hp e ClsError = false ->
    JsString P hp e = Normal msg ->
    (forall exc, prop_read hp e (lit "name") <> Some (Throw exc)) ->
    (forall exc, prop_read hp e (lit "code") <> Some (Throw exc)) ->
    hp !! l = None ->
    obj_class o = ClsError ->
    obj_props o !! lit "message" = Some (Normal (JString msg)) ->
    obj_props o !! lit "cause" = Some (Normal e) ->
    obj_props o !! lit "name"
      = Some (Normal (match prop_read hp e (lit "name") with
                      | Some (Normal x) => x
                      | _ => JString (lit "Error")
                      end)) ->
    obj_props o !! lit "code"
      = match prop_read hp e (lit "code") with
        | Some (Normal x) => Some (Normal x)
        | _ => None
        end ->
    Normalized P hp e (JObject l) (<[l := o]> hp)
| N_unknown l o :
    instanceof hp e ClsError = false ->
    ((exists exc, JsString P hp e = Throw exc)
     \/ (exists exc, prop_read hp e (lit "name") = Some (Throw exc))
     \/ (exists exc, prop_read hp e (lit "code") = Some (Throw exc))) ->
    hp !! l = None ->
    obj_class o = ClsError ->
    obj_props o !! lit "message"
      = Some (Normal (JString (lit "Unknown JS exception"))) ->
    obj_props o !! lit "cause" = None ->
    Normalized P hp e (JObject l) (<[l := o]> hp).

(** ** The older copy of the bridge

    The repository keeps an older copy of the bridge (protocol version
    1024) with the same table and the same seven singletons.  It differs
    on two points studied here: its sweep is guarded by [h > 5], and its
    calls have no [try] around the dispatch, as in
    [return HANDLE_MAP.add(Reflect.apply(target, undefined, args))], so a
    throw of the host leaves the operation as a throw. *)
Module Legacy.
Definition emlite_reset_object_map (t : HandleTable) : completion HandleTable :=
  reset_above 5 t.

Definition finish_call (call : HostCall) (t : HandleTable) (hp : Heap)
  : completion (Z * HandleTable * Heap) :=
  let '(out, t1, hp1) := call t hp in
  match out with
  | Returned v => let* r := add t1 v in Normal (fst r, snd r, hp1)
  | Threw e => Throw (ExcValue e)
  end.

Definition emlite_val_obj_call (D : Dispatch) (mem : list Z)
    (t : HandleTable) (hp : Heap) (objRef mPtr mLen argvRef : Z)
  : completion (Z * HandleTable * Heap) :=
  let target := get t objRef in
  let method := cStr mem mPtr mLen in
  let* args := resolve_args t hp argvRef in
  finish_call (host_apply_method D target method args) t hp.

Definition emlite_val_construct_new (D : Dispatch)
    (t : HandleTable) (hp : Heap) (objRef argvRef : Z)
  : completion (Z * HandleTable * Heap) :=
  let target := get t objRef in
  let* args := resolve_args t hp argvRef in
  finish_call (host_construct D target args) t hp.

Definition emlite_val_func_call (D : Dispatch)
    (t : HandleTable) (hp : Heap) (objRef argvRef : Z)
  : completion (Z * HandleTable * Heap) :=
  let target := get t objRef in
  let* args := resolve_args t hp argvRef in
  finish_call (host_apply D target args) t hp.
End Legacy.

(** ** Auxiliary definitions

    Notions the proofs about the encodings use: scalar values, the decoder
    run over a block of bytes, exhaustive checks over small ranges, and the
    bytes of a string in the 16-bit view. *)

(** A scalar value: a code point that is not a surrogate. *)
Definition is_scalar (cp : Z) : bool :=
  (0 <=? cp) && (cp <=? 0x10FFFF) && negb ((0xD800 <=? cp) && (cp <=? 0xDFFF)).

(** The decoder run over some bytes: the state reached and the output. *)
Fixpoint utf8_run (st : Utf8State) (bytes : list Z) : Utf8State * list Z :=
  match bytes with
  | [] => (st, [])
  | b :: rest =>
      let '(st1, o1) := utf8_step st b in
      let '(st2, o2) := utf8_run st1 rest in
      (st2, o1 ++ o2)
  end.

#[global] Instance Utf8State_eq_dec : EqDecision Utf8State.
Proof. solve_decision. Defined.

(** [f] on every integer whose binary expansion is [base] followed by [n]
    more bits. *)
Fixpoint forall_bits (n : nat) (f : Z -> bool) (base : Z) : bool :=
  match n with
  | O => f base
  | S n' => forall_bits n' f (2 * base) && forall_bits n' f (2 * base + 1)
  end.

(** The bytes before the last one, from the code point without its low six
    bits, and the state they leave the decoder in. *)
Definition prefix2_ok (hi : Z) : bool :=
  negb ((0x2 <=? hi) && (hi <=? 0x1F))
  || bool_decide (utf8_run utf8_init [hi + 0xC0] = (mkUtf8 hi 0 1 0x80 0xBF, [])).

Definition prefix3_ok (hi : Z) : bool :=
  negb ((0x20 <=? hi) && (hi <=? 0x3FF) && negb ((0x360 <=? hi) && (hi <=? 0x37F)))
  || bool_decide (utf8_run utf8_init
                    [Z.shiftr hi 6 + 0xE0; Z.lor 0x80 (Z.land hi 0x3F)]
                  = (mkUtf8 hi 1 2 0x80 0xBF, [])).

Definition prefix4_ok (hi : Z) : bool :=
  negb ((0x400 <=? hi) && (hi <=? 0x43FF))
  || bool_decide (utf8_run utf8_init
                    [Z.shiftr hi 12 + 0xF0; Z.lor 0x80 (Z.land (Z.shiftr hi 6) 0x3F);
                     Z.lor 0x80 (Z.land hi 0x3F)]
                  = (mkUtf8 hi 2 3 0x80 0xBF, [])).

(** A continuation byte lies in [0x80, 0xBF] and gives its six bits back. *)
Definition cont_ok (y : Z) : bool :=
  (0x80 <=? Z.lor 0x80 y) && (Z.lor 0x80 y <=? 0xBF)
  && (Z.land (Z.lor 0x80 y) 0x3F =? y).

(** The bytes of a string in a 16-bit view, low byte first. *)
Definition le_bytes (s : list Z) : list Z :=
  flat_map (fun c => [Z.land c 0xFF; Z.shiftr (c mod 65536) 8]) s.

(** ** Example data *)

(** Forty-four further values on the initial table: handles [7..50]. *)
Definition scenario_table : HandleTable :=
  match add_all EMLITE_VALMAP0 (map (fun i => JBigInt (Z.of_nat i)) (seq 7 44)) with
  | Normal t => t
  | Throw _ => EMLITE_VALMAP0
  end.

(** Host conversions that never run on the numeric paths. *)
Definition no_prims : HostPrims :=
  {| StringToNumber := fun _ => S754_nan;
     NumberToString := fun _ => [];
     BigIntToString := fun _ => [];
     SymbolDescriptiveString := fun _ => [];
     ObjectToNumber := fun _ _ => Normal S754_nan;
     ObjectToString := fun _ _ => Normal [] |}.

(** An allocator that always answers with offset 8, and 64 bytes of zeroed
    memory. *)
Definition example_exports : Exports :=
  mkExports (Some (fun mem _ => (8, mem))).

Definition example_memory : list Z := replicate 64 0.

(** An allocator that always fails. *)
Definition null_exports : Exports :=
  mkExports (Some (fun mem _ => (0, mem))).

(** "hé" followed by U+1F600 as a surrogate pair. *)
Definition example_string : list Z := [0x68; 0xE9; 0xD83D; 0xDE00].

(** A heap with an [Error] instance at 10, a plain object at 11 and an
    empty argument array at 20, registered under handle 7. *)
Definition example_heap : Heap :=
  {[ 10%positive := new_Error (lit "boom");
     11%positive := mkObject ClsObject ∅ [];
     20%positive := mkObject ClsArray ∅ [] ]}.

Definition example_table : HandleTable :=
  match add EMLITE_VALMAP0 (JObject 20%positive) with
  | Normal (_, t) => t
  | Throw _ => EMLITE_VALMAP0
  end.

(** A host whose every dispatch throws [e], and conversions under which
    an object cannot be printed. *)
Definition throwing_dispatch (e : JsValue) : Dispatch :=
  {| host_apply_method := fun _ _ _ t hp => (Threw e, t, hp);
     host_construct := fun _ _ t hp => (Threw e, t, hp);
     host_apply := fun _ _ t hp => (Threw e, t, hp) |}.

Definition unprintable_prims : HostPrims :=
  {| StringToNumber := fun _ => S754_nan;
     NumberToString := fun _ => [];
     BigIntToString := fun _ => [];
     SymbolDescriptiveString := fun _ => [];
     ObjectToNumber := fun _ _ => Throw ExcTypeError;
     ObjectToString := fun _ _ => Throw ExcTypeError |}.

(** ** Further notions for the table *)

(** The two zeros, the only values that share a map key without being
    equal. *)
Definition is_zero_number (v : JsValue) : bool :=
  match v with
  | JNumber (S754_zero _) => true
  | _ => false
  end.

(** [NaN], the one value not strictly equal to itself. *)
Definition is_NaN (v : JsValue) : bool :=
  match v with
  | JNumber S754_nan => true
  | _ => false
  end.

(** One step of the table's life as the bridge drives it: a registration,
    a reference-count call, or a reset.  [rtc table_step] is any run. *)
Inductive table_step : HandleTable -> HandleTable -> Prop :=
| step_add t v h t' : add t v = Normal (h, t') -> table_step t t'
| step_inc_ref t h : table_step t (emlite_val_inc_ref t h)
| step_dec_ref t h : table_step t (emlite_val_dec_ref t h)
| step_reset t t' : emlite_reset_object_map t = Normal t' -> table_step t t'.

(** ** Further notions for strings *)

(** A string of ASCII characters, as C identifiers and most method names
    are. *)
Definition is_ascii (s : list Z) : bool :=
  forallb (fun c => (0 <=? c) && (c <=? 0x7F)) s.

(** ** Arrays and objects made by the guest *)

(** [emlite_val_new_array: () => EMLITE_VALMAP.add([])] and
    [emlite_val_new_object: () => EMLITE_VALMAP.add({})]: a new host
    object, registered. *)
Definition emlite_val_new_array (t : HandleTable) (hp : Heap)
  : completion (Z * HandleTable * Heap) :=
  let '(v, hp') := alloc hp (mkObject ClsArray ∅ []) in
  let* r := add t v in
  Normal (fst r, snd r, hp').

Definition emlite_val_new_object (t : HandleTable) (hp : Heap)
  : completion (Z * HandleTable * Heap) :=
  let '(v, hp') := alloc hp (mkObject ClsObject ∅ []) in
  let* r := add t v in
  Normal (fst r, snd r, hp').

Definition push_elem (o : JsObject) (v : JsValue) : JsObject :=
  {| obj_class := obj_class o;
     obj_props := obj_props o;
     obj_elems := obj_elems o ++ [v] |}.

(** [emlite_val_push(arrRef, valRef)]:
    [try { EMLITE_VALMAP.get(arrRef).push(valRef) } catch {}].  What is
    pushed is the handle, a number, not the value it names.  On an array
    (taken to be extensible) the element is appended; on another object
    [push] is whatever the object has under that name, run by the host;
    on anything else the call fails and the failure is dropped. *)
Definition emlite_val_push (D : Dispatch) (t : HandleTable) (hp : Heap)
    (arrRef valRef : Z) : HandleTable * Heap :=
  match get t arrRef with
  | JObject l =>
      match hp !! l with
      | Some o =>
          if bool_decide (obj_class o = ClsArray)
          then (t, <[l := push_elem o (JNumber (double_of_Z valRef))]> hp)
          else
            let '(_, t1, hp1) :=
              host_apply_method D (JObject l) (lit "push")
                [JNumber (double_of_Z valRef)] t hp in
            (t1, hp1)
      | None => (t, hp)
      end
  | _ => (t, hp)
  end.

(** A run of [emlite_val_push] calls on one array handle. *)
Definition push_all (D : Dispatch) (t : HandleTable) (hp : Heap)
    (arrRef : Z) (hs : list Z) : HandleTable * Heap :=
  foldl (fun s h => emlite_val_push D (fst s) (snd s) arrRef h) (t, hp) hs.

(** A host whose dispatches return [v] and touch nothing. *)
Definition returning_dispatch (v : JsValue) : Dispatch :=
  {| host_apply_method := fun _ _ _ t hp => (Returned v, t, hp);
     host_construct := fun _ _ t hp => (Returned v, t, hp);
     host_apply := fun _ _ t hp => (Returned v, t, hp) |}.

(** ** The component adapter ([adapter.js], [wasip2adapter.js])

    The adapters pass strings as strings and as lists of 16-bit numbers,
    with no guest memory in between. *)

(** [s.charCodeAt(i)] for an index inside the string. *)
Definition charCodeAt (s : list Z) (i : nat) : Z := nth i s 0.

(** [stringToU16Array(s)]: [out[i] = s.charCodeAt(i)] for [i < s.length]. *)
Definition stringToU16Array (s : list Z) : list Z :=
  map (charCodeAt s) (seq 0 (length s)).

(** [String.fromCharCode(x)]: one code unit, [x] modulo 2^16. *)
Definition fromCharCode (x : Z) : list Z := [x mod 65536].

(** [u16ArrayToString(arr)]: [s += String.fromCharCode(arr[i] & 0xffff)]. *)
Definition u16ArrayToString (arr : list Z) : list Z :=
  foldl (fun s x => s ++ fromCharCode (Z.land x 0xFFFF)) [] arr.

(** [emliteValMakeStr(s)] is [VAL.add(String(s))] on a string, and
    [emliteValMakeStrUtf16(u16)] is [VAL.add(u16ArrayToString(u16))]. *)
Definition emliteValMakeStr (t : HandleTable) (s : list Z) :=
  add t (JString s).

Definition emliteValMakeStrUtf16 (t : HandleTable) (u16 : list Z) :=
  add t (JString (u16ArrayToString u16)).

(** [emliteValGetValueString(h)] is [String(VAL.get(h))], and
    [emliteValGetValueStringUtf16(h)] is
    [stringToU16Array(String(VAL.get(h)))]. *)
Definition emliteValGetValueString (P : HostPrims) (hp : Heap)
    (t : HandleTable) (h : Z) : completion (list Z) :=
  JsString P hp (get t h).

Definition emliteValGetValueStringUtf16 (P : HostPrims) (hp : Heap)
    (t : HandleTable) (h : Z) : completion (list Z) :=
  let* s := JsString P hp (get t h) in
  Normal (stringToU16Array s).

(** [emliteValTypeof(h)] is [typeof VAL.get(h)] *)
Definition emliteValTypeof (hp : Heap) (t : HandleTable) (h : Z) : list Z :=
  typeof hp (get t h).

(** ** The bridge object: exports and views

    Above the memory is its bytes, the views are taken to be current and
    the exports are there.  Here they are part of the state, as the
    methods of the bridge object see them: [this.exports] is [undefined]
    until [setExports] is called; [this._memory] has a current buffer,
    which a growth of the memory replaces by a new one (the old one is
    detached); and the typed arrays [_u8], [_u16], ... are all made over
    one buffer by [_updateViews]. *)

Record Memory : Type := mkMemory {
  buffer : positive;      (* the identity of [this._memory.buffer] *)
  contents : list Z       (* its bytes *)
}.

Record Views : Type := mkViews {
  _u8 : positive          (* the buffer the views were made over *)
}.

(** [_updateViews()]: new views over the current buffer. *)
Definition _updateViews (m : Memory) : Views := mkViews (buffer m).

(** [_ensureViewsFresh()]:
    [if (this._u8.buffer !== this._memory.buffer) this._updateViews();] *)
Definition _ensureViewsFresh (vw : Views) (m : Memory) : Views :=
  if bool_decide (_u8 vw <> buffer m) then _updateViews m else vw.

(** The bytes a view gives access to: those of the memory when the view
    is over its current buffer, none when its buffer is detached. *)
Definition view (vw : Views) (m : Memory) : option (list Z) :=
  if bool_decide (_u8 vw = buffer m) then Some (contents m) else None.

(** The guest allocator at this level: the pointer, the memory it leaves
    (with a new buffer when it grew the memory), and whether the guest
    runtime reported the growth through [emscripten_notify_memory_growth],
    which is [_updateViews]. *)
Definition GuestMalloc : Type := Memory -> Z -> Z * Memory * bool.

Module Viewed.

(** The exports of the guest instance, of which the copy routines use the
    allocator, when there is one. *)
Record Exports : Type := mkExports {
  emlite_malloc : option GuestMalloc
}.

(** [setExports(exports)]: [this.exports = exports] (the version check
    before it only warns).  [this.exports] is an [option Exports] below:
    [None] is the [undefined] it is until [setExports] is called. *)
Definition setExports (exports : Exports) : option Exports := Some exports.

(** [cStr(ptr, len)] and [cStrUtf16(ptr, len)]: the views left and the
    string read. *)
Definition cStr (vw : Views) (m : Memory) (ptr len : Z) : Views * list Z :=
  let vw := _ensureViewsFresh vw m in
  (vw, TextDecoder_utf8 (subarray (default [] (view vw m)) ptr (ptr + len))).

Definition cStrUtf16 (vw : Views) (m : Memory) (ptr len : Z) : Views * list Z :=
  let vw := _ensureViewsFresh vw m in
  (vw, TextDecoder_utf16le (subarray (default [] (view vw m)) ptr (ptr + len * 2))).

(** [this._u8.set(utf8, ptr)]: a negative offset is a [RangeError], a
    detached target a [TypeError], a source that does not fit a
    [RangeError]. *)
Definition u8_set (vw : Views) (m : Memory) (src : list Z) (offset : Z)
  : completion Memory :=
  if offset <? 0 then Throw ExcRangeError
  else
    match view vw m with
    | None => Throw ExcTypeError
    | Some b =>
        let* b' := u8_set b src offset in
        Normal (mkMemory (buffer m) b')
    end.

(** [copyStringToWasm(str)]: after the guard, the views are refreshed;
    then [this.exports.emlite_malloc] is read, which is a [TypeError]
    while [this.exports] is [undefined]; the allocator runs, and the
    string is written through the views as they are then. *)
Definition copyStringToWasm (P : HostPrims) (hp : Heap) (exports : option Exports)
    (vw : Views) (m : Memory) (str : JsValue) : completion (Z * Memory * Views) :=
  if not_a_string hp str then Normal (0, m, vw)
  else
    let vw := _ensureViewsFresh vw m in
    match exports with
    | None => Throw ExcTypeError
    | Some exports =>
        match emlite_malloc exports with
        | Some malloc =>
            let* s := JsString P hp str in
            let utf8 := TextEncoder_encode (s ++ [0]) in
            let '(ptr, m1, notified) := malloc m (Z.of_nat (length utf8)) in
            let vw := if notified then _updateViews m1 else vw in
            if ptr =? 0 then Throw (ExcError (lit "malloc failed in copyStringToWasm"))
            else
              let* m2 := u8_set vw m1 utf8 ptr in
              Normal (ptr, m2, vw)
        | None => Normal (0, m, vw)
        end
    end.

(** [copyStringToWasmUtf16(str)]: a store through a detached view is
    dropped. *)
Definition copyStringToWasmUtf16 (P : HostPrims) (hp : Heap)
    (exports : option Exports) (vw : Views) (m : Memory) (str : JsValue)
  : completion (Z * Memory * Views) :=
  if not_a_string hp str then Normal (0, m, vw)
  else
    let vw := _ensureViewsFresh vw m in
    match exports with
    | None => Throw ExcTypeError
    | Some exports =>
        match emlite_malloc exports with
        | Some malloc =>
            let* s := JsString P hp str in
            let byteLength := (Z.of_nat (length s) + 1) * 2 in
            let '(ptr, m1, notified) := malloc m byteLength in
            let vw := if notified then _updateViews m1 else vw in
            if ptr =? 0
            then Throw (ExcError (lit "malloc failed in copyStringToWasmUtf16"))
            else if negb (Z.rem ptr 2 =? 0)
            then Throw (ExcError (lit "UTF-16 string not properly aligned"))
            else
              let startIdx := Z.shiftr (ptr mod 2 ^ 32) 1 in
              match view vw m1 with
              | Some b =>
                  let b2 := u16_copy b startIdx s in
                  let b3 := u16_store b2 (startIdx + Z.of_nat (length s)) 0 in
                  Normal (ptr, mkMemory (buffer m1) b3, vw)
              | None => Normal (ptr, m1, vw)
              end
        | None => Normal (0, m, vw)
        end
    end.

(** [emlite_val_get_value_string], [emlite_val_get_value_string_utf16]
    and [emlite_val_typeof] *)
Definition emlite_val_get_value_string (P : HostPrims) (hp : Heap)
    (exports : option Exports) (vw : Views) (m : Memory) (t : HandleTable) (n : Z) :=
  copyStringToWasm P hp exports vw m (get t n).

Definition emlite_val_get_value_string_utf16 (P : HostPrims) (hp : Heap)
    (exports : option Exports) (vw : Views) (m : Memory) (t : HandleTable) (n : Z) :=
  copyStringToWasmUtf16 P hp exports vw m (get t n).

Definition emlite_val_typeof (P : HostPrims) (hp : Heap)
    (exports : option Exports) (vw : Views) (m : Memory) (t : HandleTable) (n : Z) :=
  copyStringToWasm P hp exports vw m (JString (typeof hp (get t n))).

(** [emlite_val_make_str] and [emlite_val_make_str_utf16]: the views left
    and what [add] gives for the string read. *)
Definition emlite_val_make_str (vw : Views) (m : Memory) (t : HandleTable)
    (ptr len : Z) : Views * completion (Z * HandleTable) :=
  let '(vw, s) := cStr vw m ptr len in
  (vw, add t (JString s)).

Definition emlite_val_make_str_utf16 (vw : Views) (m : Memory) (t : HandleTable)
    (ptr len : Z) : Views * completion (Z * HandleTable) :=
  let '(vw, s) := cStrUtf16 vw m ptr len in
  (vw, add t (JString s)).

End Viewed.

(** The allocator seen at the level of bytes, for a memory whose buffer
    is [b]. *)
Definition flat_malloc (g : GuestMalloc) (b : positive) : list Z -> Z -> Z * list Z :=
  fun mem n => let '(ptr, m1, _) := g (mkMemory b mem) n in (ptr, contents m1).

(** The allocator keeps the views usable: it leaves the buffer in place,
    or the growth is reported. *)
Definition keeps_views (g : GuestMalloc) (m : Memory) : Prop :=
  forall n, buffer (snd (fst (g m n))) = buffer m \/ snd (g m n) = true.

(** An allocator that grows the memory by a page of zeros, into a new
    buffer, and says nothing; and one that reports it. *)
Definition growing_malloc (notify : bool) : GuestMalloc :=
  fun m _ => (8, mkMemory (Pos.succ (buffer m)) (contents m ++ replicate 16 0), notify).

(** An allocator that answers with the offset [p] and touches nothing;
    [fixed_malloc 0] always fails. *)
Definition fixed_malloc (p : Z) : GuestMalloc := fun m _ => (p, m, false).

(** Views and a memory of 64 zeroed bytes, over the same buffer. *)
Definition example_views : Views := mkViews 1.
Definition example_guest_memory : Memory := mkMemory 1 example_memory.

(** ** Reading an element *)





(** The initial table with [example_string] registered, under handle 7. *)
Definition string_table : HandleTable :=
  match add EMLITE_VALMAP0 (JString example_string) with
  | Normal (_, t) => t
  | Throw _ => EMLITE_VALMAP0
  end.

(** * Properties of the table *)

Lemma key_idem v : key (key v) = key v.
Proof. destruct v as [| | |[[]| | |]| | | |]; reflexivity. Qed.

Lemma SameValueZero_refl v : SameValueZero v v.
Proof. reflexivity. Qed.

Lemma get_lookup t h e : _h2e t !! h = Some e -> get t h = value e.
Proof. intros H. unfold get. rewrite H. reflexivity. Qed.

Lemma get_absent t h : _h2e t !! h = None -> get t h = JUndefined.
Proof. intros H. unfold get. rewrite H. reflexivity. Qed.

Lemma wf_new : wf new_HandleTable.
Proof. split; simpl; try lia; intros *; rewrite lookup_empty; discriminate. Qed.

(** Changing only the count of a live entry keeps the table well formed. *)
Lemma wf_set_refs t h e r :
  wf t -> _h2e t !! h = Some e -> 1 <= r ->
  wf {| _h2e := <[h := mkEntry (value e) r]> (_h2e t);
        _v2h := _v2h t; _next := _next t |}.
Proof.
  intros [F B N N0 R] He Hr. split; simpl; [| | |done|].
  - intros h' e'. rewrite lookup_insert. case_decide as Hd.
    + intros [= <-]. subst h'. simpl. eauto.
    + eauto.
  - intros k h' Hk. destruct (B _ _ Hk) as (e' & He' & Hk').
    destruct (decide (h = h')) as [->|Hne].
    + rewrite lookup_insert_eq. eexists. split; [reflexivity|]. simpl. congruence.
    + rewrite lookup_insert_ne by done. eauto.
  - intros h' e'. rewrite lookup_insert. case_decide as Hd.
    + intros _. subst h'. eauto.
    + eauto.
  - intros h' e'. rewrite lookup_insert. case_decide as Hd.
    + intros [= <-]. simpl. lia.
    + eauto.
Qed.

(** Removing a live entry together with its reverse mapping keeps the
    table well formed. *)
Lemma wf_remove t h e :
  wf t -> _h2e t !! h = Some e ->
  wf {| _h2e := delete h (_h2e t);
        _v2h := delete (key (value e)) (_v2h t); _next := _next t |}.
Proof.
  intros [F B N N0 R] He. split; simpl; [| | |done|].
  - intros h' e'. rewrite lookup_delete. case_decide as Hd; [discriminate|].
    intros He'. rewrite lookup_delete_ne; [eauto|].
    intros Hk. apply F in He, He'. rewrite Hk in He. congruence.
  - intros k h'. rewrite lookup_delete. case_decide as Hd; [discriminate|].
    intros Hk. destruct (B _ _ Hk) as (e' & He' & Hk').
    exists e'. split; [|done]. rewrite lookup_delete_ne; [done|].
    intros <-. congruence.
  - intros h' e'. rewrite lookup_delete. case_decide; [discriminate|eauto].
  - intros h' e'. rewrite lookup_delete. case_decide; [discriminate|eauto].
Qed.

Lemma wf_newEntry t v :
  wf t -> _v2h t !! key v = None -> wf (snd (_newEntry t v)).
Proof.
  intros [F B N N0 R] Hv. split; simpl; [| | |lia|].
  - intros h e. rewrite lookup_insert. case_decide as Hd.
    + intros [= <-]. simpl. subst h. apply lookup_insert_eq.
    + intros He. rewrite lookup_insert_ne; [eauto|].
      intros Hk. apply F in He. congruence.
  - intros k h. rewrite lookup_insert. case_decide as Hd.
    + intros [= <-]. rewrite lookup_insert_eq. eauto.
    + intros Hk. destruct (B _ _ Hk) as (e & He & Hke).
      exists e. split; [|done]. rewrite lookup_insert_ne; [done|].
      intros <-. apply N in He. lia.
  - intros h e. rewrite lookup_insert. case_decide as Hd.
    + intros _. subst h. lia.
    + intros He. apply N in He. lia.
  - intros h e. rewrite lookup_insert. case_decide as Hd.
    + intros [= <-]. simpl. lia.
    + eauto.
Qed.

(** On a well-formed table [add] never throws. *)
Lemma add_total t v : wf t -> exists h t', add t v = Normal (h, t').
Proof.
  intros W. unfold add. destruct (_v2h t !! key v) as [h|] eqn:Hv; [|eauto].
  destruct (wf_bwd _ W _ _ Hv) as (e & -> & _). eauto.
Qed.

Lemma wf_add t v h t' : wf t -> add t v = Normal (h, t') -> wf t'.
Proof.
  intros W. unfold add. destruct (_v2h t !! key v) as [h0|] eqn:Hv.
  - destruct (_h2e t !! h0) as [e|] eqn:He; [|discriminate].
    intros [= <- <-]. apply wf_set_refs; [done..|].
    pose proof (wf_refs _ W _ _ He). lia.
  - intros [= <- <-]. apply (wf_newEntry t v W Hv).
Qed.

Lemma wf_incRef t h : wf t -> wf (incRef t h).
Proof.
  intros W. unfold incRef. destruct (_h2e t !! h) as [e|] eqn:He; [|done].
  apply wf_set_refs; [done..|]. pose proof (wf_refs _ W _ _ He). lia.
Qed.

Lemma wf_decRef t h : wf t -> wf (snd (decRef t h)).
Proof.
  intros W. unfold decRef. destruct (_h2e t !! h) as [e|] eqn:He; [|done].
  simpl. destruct (Z.eqb_spec (refs e - 1) 0); simpl.
  - by apply wf_remove.
  - apply wf_set_refs; [done..|]. pose proof (wf_refs _ W _ _ He). lia.
Qed.

Lemma wf_dec_ref t h : wf t -> wf (emlite_val_dec_ref t h).
Proof.
  intros W. unfold emlite_val_dec_ref. destruct (6 <? h); [by apply wf_decRef|done].
Qed.

(** The sweep over a duplicate-free list of live keys: it never throws,
    keeps the counter, removes exactly the listed keys above the bound,
    and keeps the table well formed. *)
Lemma reset_fold bound (l : list Z) : forall t,
  NoDup l -> (forall h, h ∈ l -> is_Some (_h2e t !! h)) ->
  exists t',
    foldl (fun c h => let* t' := c in reset_step bound t' h) (Normal t) l = Normal t'
    /\ _next t' = _next t
    /\ (forall h, _h2e t' !! h =
                  if bool_decide (h ∈ l /\ bound < h) then None else _h2e t !! h)
    /\ (wf t -> wf t').
Proof.
  induction l as [|a l IH]; intros t Hnd Hin.
  - exists t. split; [reflexivity|]. split; [reflexivity|]. split; [|done].
    intros h. rewrite bool_decide_eq_false_2; [done|].
    intros [Hh _]. by apply elem_of_nil in Hh.
  - apply NoDup_cons in Hnd as [Ha Hnd]. simpl.
    assert (exists t1, reset_step bound t a = Normal t1 /\ _next t1 = _next t /\
              (forall h, h <> a -> _h2e t1 !! h = _h2e t !! h) /\
              (_h2e t1 !! a = if bool_decide (bound < a) then None else _h2e t !! a) /\
              (wf t -> wf t1)) as (t1 & -> & Hn1 & Hother & Hsame & Hwf1).
    { unfold reset_step. destruct (Z.ltb_spec bound a) as [Hlt|Hge].
      - destruct (Hin a) as [e He]; [left|]. rewrite He.
        eexists. split; [reflexivity|]. simpl. split; [reflexivity|].
        split; [|split].
        + intros h Hne. by rewrite lookup_delete_ne.
        + rewrite lookup_delete_eq. by rewrite bool_decide_eq_true_2.
        + intros W. by apply wf_remove.
      - exists t. split; [reflexivity|]. split; [reflexivity|].
        split; [done|]. split; [|done].
        rewrite bool_decide_eq_false_2; [done|lia]. }
    destruct (IH t1 Hnd) as (t' & Hf & Hn & Hl & Hwf).
    { intros h Hh. rewrite Hother; [apply Hin; by right|]. intros ->. done. }
    exists t'. split; [done|]. split; [congruence|]. split; [|auto].
    intros h. rewrite Hl. destruct (decide (h = a)) as [->|Hne].
    + rewrite (bool_decide_eq_false_2 (a ∈ l /\ _)); [|intros [? _]; done].
      rewrite Hsame. apply (f_equal (fun b : bool => if b then None else _h2e t !! a)).
      apply bool_decide_ext. split; [intros ?; split; [left|done]|intros [_ ?]; done].
    + rewrite Hother by done. apply (f_equal (fun b : bool => if b then None else _h2e t !! h)).
      apply bool_decide_ext. rewrite elem_of_cons. tauto.
Qed.

(** [reset_above] never throws: it keeps the counter and exactly the
    entries whose handle does not exceed the bound. *)
Lemma reset_above_spec bound t :
  exists t',
    reset_above bound t = Normal t'
    /\ _next t' = _next t
    /\ (forall h, _h2e t' !! h = if bool_decide (bound < h) then None else _h2e t !! h)
    /\ (wf t -> wf t').
Proof.
  destruct (reset_fold bound (map fst (map_to_list (_h2e t))) t) as (t' & Hf & Hn & Hl & Hw).
  - apply NoDup_fst_map_to_list.
  - intros h Hh. apply list_elem_of_fmap in Hh as ([h' e] & -> & Hin).
    apply elem_of_map_to_list in Hin. simpl. eauto.
  - exists t'. split; [done|]. split; [done|]. split; [|done].
    intros h. rewrite Hl. case_bool_decide as H1; case_bool_decide as H2; try done.
    + tauto.
    + destruct (_h2e t !! h) as [e|] eqn:He; [|done]. exfalso. apply H1. split; [|done].
      apply list_elem_of_fmap. exists (h, e). split; [done|]. by apply elem_of_map_to_list.
Qed.

Lemma wf_reset t t' : wf t -> emlite_reset_object_map t = Normal t' -> wf t'.
Proof.
  intros W H. destruct (reset_above_spec 6 t) as (t1 & H1 & _ & _ & Hw).
  unfold emlite_reset_object_map in H. rewrite H1 in H. injection H as <-. auto.
Qed.

(** A live entry keeps its value through [add]. *)
Lemma add_keeps_live t v h t' h0 e :
  wf t -> add t v = Normal (h, t') -> _h2e t !! h0 = Some e ->
  exists e', _h2e t' !! h0 = Some e' /\ value e' = value e.
Proof.
  intros W. unfold add. destruct (_v2h t !! key v) as [h1|] eqn:Hv.
  - destruct (_h2e t !! h1) as [e1|] eqn:He1; [|discriminate].
    intros [= <- <-] He. simpl. destruct (decide (h1 = h0)) as [->|Hne].
    + rewrite lookup_insert_eq. eexists. split; [reflexivity|]. simpl. congruence.
    + rewrite lookup_insert_ne by done. eauto.
  - intros [= <- <-] He. simpl. rewrite lookup_insert_ne; [eauto|].
    intros <-. apply (wf_next _ W) in He. lia.
Qed.

Lemma incRef_keeps_live t h h0 e :
  _h2e t !! h0 = Some e ->
  exists e', _h2e (incRef t h) !! h0 = Some e' /\ value e' = value e.
Proof.
  intros He. unfold incRef. destruct (_h2e t !! h) as [e1|] eqn:He1; [|eauto].
  simpl. destruct (decide (h = h0)) as [->|Hne].
  - rewrite lookup_insert_eq. eexists. split; [reflexivity|]. simpl. congruence.
  - rewrite lookup_insert_ne by done. eauto.
Qed.

(** [decRef h] leaves every other handle alone. *)
Lemma decRef_other t h h0 : h <> h0 -> _h2e (snd (decRef t h)) !! h0 = _h2e t !! h0.
Proof.
  intros Hne. unfold decRef. destruct (_h2e t !! h) as [e|]; [|done].
  simpl. destruct (refs e - 1 =? 0); simpl.
  - by rewrite lookup_delete_ne.
  - by rewrite lookup_insert_ne.
Qed.

(** The guard of [emlite_val_dec_ref]: a handle of the reserved range
    leaves the table as it is. *)
Lemma dec_ref_reserved t h : h <= 6 -> emlite_val_dec_ref t h = t.
Proof.
  intros Hh. unfold emlite_val_dec_ref. destruct (Z.ltb_spec 6 h); [lia|done].
Qed.

Lemma dec_ref_low t h h0 : h0 <= 6 -> _h2e (emlite_val_dec_ref t h) !! h0 = _h2e t !! h0.
Proof.
  intros Hh. unfold emlite_val_dec_ref. destruct (Z.ltb_spec 6 h); [|done].
  apply decRef_other. lia.
Qed.


Lemma add_all_cons t v l :
  add_all t (v :: l) = let* r := add t v in add_all (snd r) l.
Proof.
  unfold add_all. simpl. destruct (add t v) as [r|e]; [reflexivity|].
  simpl. induction l as [|w l IH]; [reflexivity|exact IH].
Qed.

Lemma wf_add_all (l : list JsValue) : forall t, wf t ->
  exists t', add_all t l = Normal t' /\ wf t'.
Proof.
  induction l as [|v l IH]; intros t W; [by exists t|].
  rewrite add_all_cons. destruct (add_total t v W) as (h & t1 & Hadd).
  rewrite Hadd. simpl. apply IH. eapply wf_add; eauto.
Qed.

Lemma reachable_add_all (l : list JsValue) : forall t t',
  reachable t -> add_all t l = Normal t' -> reachable t'.
Proof.
  induction l as [|v l IH]; intros t t' R.
  - intros [= <-]. exact R.
  - rewrite add_all_cons. destruct (add t v) as [[h t1]|e] eqn:Hadd; [|discriminate].
    simpl. apply IH. eapply reach_add; eauto.
Qed.

Lemma init_table_eq : emlite_init_handle_table = Normal EMLITE_VALMAP0.
Proof.
  destruct (wf_add_all reserved_values new_HandleTable wf_new) as (t' & H & _).
  unfold EMLITE_VALMAP0, emlite_init_handle_table. rewrite H. reflexivity.
Qed.

Lemma wf_init : wf EMLITE_VALMAP0.
Proof.
  destruct (wf_add_all reserved_values new_HandleTable wf_new) as (t' & H & W).
  fold emlite_init_handle_table in H. rewrite init_table_eq in H.
  injection H as <-. exact W.
Qed.

Lemma reserved_length (i : nat) v : reserved_values !! i = Some v -> (i <= 6)%nat.
Proof. intros H. apply lookup_lt_Some in H. simpl in H. lia. Qed.

Lemma reserved_ok_init : reserved_ok EMLITE_VALMAP0.
Proof.
  intros i v Hi.
  do 7 (destruct i as [|i]; [injection Hi as <-; split; [vm_compute; reflexivity|]; vm_compute; eauto|]).
  discriminate.
Qed.

(** A step that keeps the value of every live entry of the reserved range
    keeps [reserved_ok]. *)
Lemma reserved_ok_step t t' :
  reserved_ok t ->
  (forall h e, 0 <= h <= 6 -> _h2e t !! h = Some e ->
     exists e', _h2e t' !! h = Some e' /\ value e' = value e) ->
  reserved_ok t'.
Proof.
  intros R Hstep i v Hi. pose proof (reserved_length _ _ Hi) as Hle.
  destruct (R i v Hi) as [Hg [e He]].
  destruct (Hstep (Z.of_nat i) e) as (e' & He' & Hv); [lia|done|].
  split; [|eauto]. rewrite (get_lookup _ _ _ He'), Hv, <- (get_lookup _ _ _ He). done.
Qed.

Lemma reachable_inv t : reachable t -> wf t /\ reserved_ok t.
Proof.
  induction 1 as [|t v h t' _ [W R] Hadd|t h _ [W R]|t h _ [W R]|t t' _ [W R] Hr].
  - split; [apply wf_init|apply reserved_ok_init].
  - split; [eapply wf_add; eauto|].
    eapply reserved_ok_step; [done|]. intros. eapply add_keeps_live; eauto.
  - split; [by apply wf_incRef|].
    eapply reserved_ok_step; [done|]. intros. by apply incRef_keeps_live.
  - split; [by apply wf_dec_ref|].
    eapply reserved_ok_step; [done|]. intros h0 e [_ Hh] He.
    rewrite dec_ref_low by done. eauto.
  - split; [eapply wf_reset; eauto|].
    eapply reserved_ok_step; [done|]. intros h0 e [_ Hh] He.
    destruct (reset_above_spec 6 t) as (t1 & H1 & _ & Hl & _).
    unfold emlite_reset_object_map in Hr. rewrite H1 in Hr. injection Hr as <-.
    rewrite Hl, bool_decide_eq_false_2 by lia. eauto.
Qed.

Lemma reachable_wf t : reachable t -> wf t.
Proof. intros H. apply (reachable_inv t H). Qed.

Lemma reachable_reserved t : reachable t -> reserved_ok t.
Proof. intros H. apply (reachable_inv t H). Qed.

(** ** Integer conversions *)

Lemma truncate_double_of_Z z : truncate (double_of_Z z) = z.
Proof.
  assert (forall p k, 0 <= k ->
            (if 0 <=? - k
             then Z.pos (Z.to_pos (Z.pos p * 2 ^ k)) * 2 ^ (- k)
             else Z.pos (Z.to_pos (Z.pos p * 2 ^ k)) / 2 ^ (- - k)) = Z.pos p) as H.
  { intros p k Hk. assert (0 < 2 ^ k) by (apply Z.pow_pos_nonneg; lia).
    rewrite Z2Pos.id by lia. destruct (Z.leb_spec 0 (- k)).
    - assert (k = 0) as -> by lia. simpl. lia.
    - rewrite Z.opp_involutive. apply Z.div_mul. lia. }
  destruct z as [|p|p]; [reflexivity| |]; simpl truncate; rewrite H by lia; reflexivity.
Qed.

Lemma ToInt32_double_of_Z x :
  - 2 ^ 31 <= x < 2 ^ 31 -> ToInt32 (double_of_Z x) = x.
Proof.
  intros Hx. unfold ToInt32. rewrite truncate_double_of_Z.
  destruct (Z.leb_spec (2 ^ 31) (x mod 2 ^ 32)) as [H|H].
  - destruct (Z.lt_ge_cases x 0).
    + rewrite <- (Z.mod_add x 1 (2 ^ 32)) in * by lia.
      rewrite Z.mod_small in * by lia. lia.
    + rewrite Z.mod_small in H by lia. lia.
  - destruct (Z.lt_ge_cases x 0).
    + rewrite <- (Z.mod_add x 1 (2 ^ 32)) in H by lia.
      rewrite Z.mod_small in H by lia. lia.
    + apply Z.mod_small. lia.
Qed.

Lemma ToUint32_double_of_Z u :
  0 <= u < 2 ^ 32 -> ToUint32 (double_of_Z u) = u.
Proof.
  intros Hu. unfold ToUint32. rewrite truncate_double_of_Z. apply Z.mod_small. lia.
Qed.

(** A value with the key of a number is a number with the same integer
    part: the two zeros are the only numbers sharing a key. *)
Lemma key_number v d :
  key v = key (JNumber d) -> exists d', v = JNumber d' /\ truncate d' = truncate d.
Proof.
  destruct v as [| | |[[]| | |]| | | |], d as [[]| | |]; simpl; intros H;
    simplify_eq; eexists; (split; [reflexivity|reflexivity]).
Qed.

(** The entry [add] returns holds a value with the key of the argument. *)
Lemma add_get_key t v h t' :
  wf t -> add t v = Normal (h, t') -> key (get t' h) = key v.
Proof.
  intros W. unfold add. destruct (_v2h t !! key v) as [h0|] eqn:Hv.
  - destruct (wf_bwd _ W _ _ Hv) as (e & He & Hk). rewrite He.
    intros [= <- <-]. unfold get. simpl. rewrite lookup_insert_eq. exact Hk.
  - intros [= <- <-]. unfold get. simpl. rewrite lookup_insert_eq. reflexivity.
Qed.

(** Every key but that of a zero determines the value. *)
Lemma key_inj_BigInt v z : key v = key (JBigInt z) -> v = JBigInt z.
Proof.
  destruct v as [| | |[[]| | |]| | | |]; simpl; intros H; try discriminate; exact H.
Qed.

(** ** UTF-8: one scalar value at a time *)

Lemma forall_bits_spec n f : forall base z,
  forall_bits n f base = true ->
  base * 2 ^ Z.of_nat n <= z < (base + 1) * 2 ^ Z.of_nat n -> f z = true.
Proof.
  induction n as [|n IH]; intros base z H Hz.
  - simpl in *. assert (z = base) as -> by lia. exact H.
  - simpl in H. apply andb_true_iff in H as [H0 H1].
    rewrite Nat2Z.inj_succ, Z.pow_succ_r in Hz by lia.
    destruct (Z.lt_ge_cases z ((2 * base + 1) * 2 ^ Z.of_nat n)).
    + apply (IH (2 * base)); [exact H0|lia].
    + apply (IH (2 * base + 1)); [exact H1|lia].
Qed.

Lemma prefix2_all : forall_bits 5 prefix2_ok 0 = true.
Proof. vm_compute. reflexivity. Qed.

Lemma prefix3_all : forall_bits 10 prefix3_ok 0 = true.
Proof. vm_compute. reflexivity. Qed.

Lemma prefix4_all : forall_bits 15 prefix4_ok 0 = true.
Proof. vm_compute. reflexivity. Qed.

Lemma cont_all : forall_bits 6 cont_ok 0 = true.
Proof. vm_compute. reflexivity. Qed.

Lemma utf8_run_app st l1 l2 :
  utf8_run st (l1 ++ l2) =
  let '(st1, o1) := utf8_run st l1 in
  let '(st2, o2) := utf8_run st1 l2 in (st2, o1 ++ o2).
Proof.
  revert st. induction l1 as [|b l1 IH]; intros st; simpl.
  - destruct (utf8_run st l2). reflexivity.
  - destruct (utf8_step st b) as [st1 o1]. rewrite IH.
    destruct (utf8_run st1 l1) as [st2 o2]. destruct (utf8_run st2 l2) as [st3 o3].
    by rewrite app_assoc.
Qed.

Lemma utf8_decode_run st bytes rest :
  utf8_decode_from st (bytes ++ rest) =
  snd (utf8_run st bytes) ++ utf8_decode_from (fst (utf8_run st bytes)) rest.
Proof.
  revert st. induction bytes as [|b bytes IH]; intros st; simpl; [reflexivity|].
  destruct (utf8_step st b) as [st1 o1]. rewrite IH.
  destruct (utf8_run st1 bytes) as [st2 o2]. simpl. by rewrite app_assoc.
Qed.

Lemma land_3F_bounds cp : 0 <= Z.land cp 0x3F < 64.
Proof.
  change 0x3F with (Z.ones 6). rewrite Z.land_ones by lia.
  apply Z.mod_pos_bound. lia.
Qed.

Lemma cont_byte y :
  0 <= y < 64 -> 0x80 <= Z.lor 0x80 y <= 0xBF /\ Z.land (Z.lor 0x80 y) 0x3F = y.
Proof.
  intros Hy. pose proof (forall_bits_spec 6 cont_ok 0 y cont_all) as H.
  unfold cont_ok in H. rewrite !andb_true_iff in H.
  destruct H as [[H1 H2] H3]; [simpl; lia|]. lia.
Qed.

(** The last byte of a sequence closes it with the whole code point. *)
Lemma utf8_last_step cp seen needed :
  needed <> 0 -> seen + 1 = needed ->
  utf8_step (mkUtf8 (Z.shiftr cp 6) seen needed 0x80 0xBF)
            (Z.lor 0x80 (Z.land cp 0x3F)) = (utf8_init, [cp]).
Proof.
  intros Hn Hs. unfold utf8_step. simpl u_needed. simpl u_lower. simpl u_upper.
  simpl u_cp. simpl u_seen.
  destruct (cont_byte (Z.land cp 0x3F) (land_3F_bounds cp)) as [Hb Hl].
  destruct (Z.eqb_spec needed 0); [done|].
  destruct (Z.leb_spec 0x80 (Z.lor 0x80 (Z.land cp 0x3F))); [|lia].
  destruct (Z.leb_spec (Z.lor 0x80 (Z.land cp 0x3F)) 0xBF); [|lia].
  simpl negb. cbv iota. rewrite Hl.
  destruct (Z.eqb_spec (seen + 1) needed); [|done].
  change 0x3F with (Z.ones 6). rewrite <- Z.ldiff_ones_r by lia.
  by rewrite Z.lor_ldiff_and.
Qed.

Lemma prefix_last st prefix cp seen needed :
  utf8_run st prefix = (mkUtf8 (Z.shiftr cp 6) seen needed 0x80 0xBF, []) ->
  needed <> 0 -> seen + 1 = needed ->
  utf8_run st (prefix ++ [Z.lor 0x80 (Z.land cp 0x3F)]) = (utf8_init, [cp]).
Proof.
  intros Hp Hn Hs. rewrite utf8_run_app, Hp. simpl.
  rewrite utf8_last_step by done. reflexivity.
Qed.

(** Decoding the bytes of a scalar value gives it back and leaves the
    decoder in its initial state. *)
Lemma utf8_cp_roundtrip cp :
  is_scalar cp = true -> utf8_run utf8_init (utf8_encode_cp cp) = (utf8_init, [cp]).
Proof.
  unfold is_scalar. rewrite !andb_true_iff, negb_true_iff, andb_false_iff.
  rewrite !Z.leb_le, !Z.leb_gt. intros [[H0 H1] H2].
  assert (64 * Z.shiftr cp 6 <= cp < 64 * Z.shiftr cp 6 + 64) as Hhi.
  { rewrite Z.shiftr_div_pow2 by lia. change (2 ^ 6) with 64.
    pose proof (Z.div_mod cp 64). pose proof (Z.mod_pos_bound cp 64). lia. }
  unfold utf8_encode_cp.
  destruct (Z.leb_spec cp 0x7F) as [Ha|Ha].
  { simpl. unfold utf8_step, utf8_start. simpl.
    destruct (Z.leb_spec 0 cp); [|lia]. destruct (Z.leb_spec cp 0x7F); [|lia].
    reflexivity. }
  destruct (Z.leb_spec cp 0x7FF) as [Hb|Hb].
  { apply (prefix_last utf8_init [Z.shiftr cp 6 + 0xC0] cp 0 1); [|done..].
    pose proof (forall_bits_spec 5 prefix2_ok 0 (Z.shiftr cp 6) prefix2_all) as H.
    unfold prefix2_ok in H. rewrite orb_true_iff, negb_true_iff in H.
    destruct H as [H|H]; [change (2 ^ Z.of_nat 5) with 32; lia|
                          |by apply bool_decide_eq_true in H].
    rewrite andb_false_iff, !Z.leb_gt in H. lia. }
  destruct (Z.leb_spec cp 0xFFFF) as [Hc|Hc].
  { apply (prefix_last utf8_init
             [Z.shiftr cp 12 + 0xE0; Z.lor 0x80 (Z.land (Z.shiftr cp 6) 0x3F)] cp 1 2);
      [|done..].
    replace (Z.shiftr cp 12) with (Z.shiftr (Z.shiftr cp 6) 6)
      by (rewrite Z.shiftr_shiftr by lia; reflexivity).
    pose proof (forall_bits_spec 10 prefix3_ok 0 (Z.shiftr cp 6) prefix3_all) as H.
    unfold prefix3_ok in H. rewrite orb_true_iff, negb_true_iff in H.
    destruct H as [H|H]; [change (2 ^ Z.of_nat 10) with 1024; lia|
                          |by apply bool_decide_eq_true in H].
    rewrite !andb_false_iff, negb_false_iff, andb_true_iff, !Z.leb_gt, !Z.leb_le in H.
    lia. }
  apply (prefix_last utf8_init
           [Z.shiftr cp 18 + 0xF0; Z.lor 0x80 (Z.land (Z.shiftr cp 12) 0x3F);
            Z.lor 0x80 (Z.land (Z.shiftr cp 6) 0x3F)] cp 2 3); [|done..].
  replace (Z.shiftr cp 18) with (Z.shiftr (Z.shiftr cp 6) 12)
    by (rewrite Z.shiftr_shiftr by lia; reflexivity).
  replace (Z.shiftr cp 12) with (Z.shiftr (Z.shiftr cp 6) 6)
    by (rewrite Z.shiftr_shiftr by lia; reflexivity).
  pose proof (forall_bits_spec 15 prefix4_ok 0 (Z.shiftr cp 6) prefix4_all) as H.
  unfold prefix4_ok in H. rewrite orb_true_iff, negb_true_iff in H.
  destruct H as [H|H]; [change (2 ^ Z.of_nat 15) with 32768; lia|
                        |by apply bool_decide_eq_true in H].
  rewrite andb_false_iff, !Z.leb_gt in H. lia.
Qed.

Lemma utf8_decode_encode cps :
  forallb is_scalar cps = true ->
  utf8_decode_from utf8_init (utf8_encode cps) = cps.
Proof.
  induction cps as [|cp cps IH]; [reflexivity|].
  simpl forallb. rewrite andb_true_iff. intros [Hcp Hcps].
  unfold utf8_encode. simpl. fold (utf8_encode cps).
  rewrite utf8_decode_run, utf8_cp_roundtrip by done. simpl. by rewrite IH.
Qed.

(** ** UTF-16: well-formed strings *)

Lemma surrogate_pair ls c :
  is_lead ls = true -> is_trail c = true ->
  units_of_cp (pair_cp ls c) = [ls; c] /\ is_scalar (pair_cp ls c) = true
  /\ 0x10000 <= pair_cp ls c.
Proof.
  unfold is_lead, is_trail. rewrite !andb_true_iff, !Z.leb_le. intros [H1 H2] [H3 H4].
  assert (pair_cp ls c = (c - 0xDC00) + (ls - 0xD800) * 1024 + 0x10000) as E.
  { unfold pair_cp. rewrite Z.shiftl_mul_pow2 by lia. change (2 ^ 10) with 1024. lia. }
  assert (0x10000 <= pair_cp ls c <= 0x10FFFF) as Hb by lia.
  split; [|split; [|lia]].
  - unfold units_of_cp. destruct (Z.ltb_spec (pair_cp ls c) 0x10000); [lia|].
    rewrite E. replace (c - 0xDC00 + (ls - 0xD800) * 1024 + 0x10000 - 0x10000)
      with ((c - 0xDC00) + (ls - 0xD800) * 1024) by lia.
    rewrite Z.shiftr_div_pow2 by lia. change (2 ^ 10) with 1024.
    rewrite Z.div_add by lia. rewrite (Z.div_small (c - 0xDC00)) by lia.
    change 0x3FF with (Z.ones 10). rewrite Z.land_ones by lia. change (2 ^ 10) with 1024.
    rewrite Z.mod_add by lia. rewrite (Z.mod_small (c - 0xDC00)) by lia.
    f_equal; [lia|f_equal; lia].
  - unfold is_scalar.
    destruct (Z.leb_spec 0 (pair_cp ls c)); [|lia].
    destruct (Z.leb_spec (pair_cp ls c) 0x10FFFF); [|lia].
    destruct (Z.leb_spec (pair_cp ls c) 0xDFFF); [lia|].
    by rewrite andb_false_r.
Qed.

Lemma plain_unit c :
  0 <= c <= 0xFFFF -> is_lead c = false -> is_trail c = false ->
  units_of_cp c = [c] /\ is_scalar c = true.
Proof.
  unfold is_lead, is_trail, is_scalar, units_of_cp.
  rewrite !andb_false_iff, !Z.leb_gt. intros Hc H1 H2.
  destruct (Z.ltb_spec c 0x10000); [|lia]. split; [reflexivity|].
  rewrite !andb_true_iff, negb_true_iff, andb_false_iff, !Z.leb_le, !Z.leb_gt. lia.
Qed.

(** On a well-formed string the scalar values are scalar values indeed,
    and their code units are the string. *)
Lemma decode_wellformed s : forall lead,
  code_units s = true ->
  match lead with
  | None =>
      isWellFormed_from false s = true ->
      forallb is_scalar (utf16_decode_units None s false) = true /\
      units_of_cps (utf16_decode_units None s false) = s
  | Some ls =>
      is_lead ls = true -> isWellFormed_from true s = true ->
      forallb is_scalar (utf16_decode_units (Some ls) s false) = true /\
      units_of_cps (utf16_decode_units (Some ls) s false) = ls :: s
  end.
Proof.
  induction s as [|c rest IH]; intros lead Hu.
  - destruct lead as [ls|]; [discriminate|]. intros _. split; reflexivity.
  - simpl in Hu. apply andb_true_iff in Hu as [Hc Hu].
    apply andb_true_iff in Hc as [Hc0 Hc1]. apply Z.leb_le in Hc0, Hc1.
    destruct lead as [ls|].
    + intros Hls Hwf. simpl in Hwf. apply andb_true_iff in Hwf as [Ht Hwf].
      simpl. rewrite Ht. simpl.
      destruct (surrogate_pair ls c Hls Ht) as (Hunits & Hsc & _).
      destruct (IH None Hu Hwf) as [IH1 IH2].
      rewrite Hsc, IH1. split; [reflexivity|].
      unfold units_of_cps in *. simpl. rewrite Hunits, IH2. reflexivity.
    + intros Hwf. simpl in Hwf. simpl. unfold utf16_start.
      destruct (is_lead c) eqn:Hl.
      * simpl. exact (IH (Some c) Hu Hl Hwf).
      * apply andb_true_iff in Hwf as [Ht Hwf]. apply negb_true_iff in Ht.
        rewrite Ht. simpl.
        destruct (plain_unit c (conj Hc0 Hc1) Hl Ht) as [Hunits Hsc].
        destruct (IH None Hu Hwf) as [IH1 IH2].
        rewrite Hsc, IH1. split; [reflexivity|].
        unfold units_of_cps in *. simpl. rewrite Hunits, IH2. reflexivity.
Qed.

Lemma to_scalars_wellformed s :
  code_units s = true -> isWellFormed s = true ->
  forallb is_scalar (to_scalars s) = true /\ units_of_cps (to_scalars s) = s.
Proof. intros Hu Hwf. exact (decode_wellformed s None Hu Hwf). Qed.

(** The first scalar value of a well-formed string is U+FEFF only when its
    first code unit is. *)
Lemma strip_bom_to_scalars s :
  isWellFormed s = true -> head s <> Some 0xFEFF ->
  strip_bom (to_scalars s) = to_scalars s.
Proof.
  destruct s as [|c rest]; [reflexivity|]. unfold isWellFormed, to_scalars. simpl.
  intros Hwf Hh. unfold utf16_start. destruct (is_lead c) eqn:Hl.
  - destruct rest as [|d rest]; [discriminate|]. simpl in *.
    apply andb_true_iff in Hwf as [Ht _]. rewrite Ht. simpl.
    destruct (surrogate_pair c d Hl Ht) as (_ & _ & Hge).
    destruct (Z.eqb_spec (pair_cp c d) 0xFEFF); [lia|reflexivity].
  - apply andb_true_iff in Hwf as [Ht _]. apply negb_true_iff in Ht. rewrite Ht.
    simpl. destruct (Z.eqb_spec c 0xFEFF); [congruence|reflexivity].
Qed.

(** The terminating NUL is encoded on its own. *)
Lemma decode_units_nul s : forall lead,
  utf16_decode_units lead (s ++ [0]) false = utf16_decode_units lead s false ++ [0].
Proof.
  induction s as [|c rest IH]; intros lead.
  - destruct lead; reflexivity.
  - simpl. destruct (utf16_step lead c) as [l out]. rewrite IH. by rewrite app_assoc.
Qed.

Lemma utf8_encode_app l1 l2 : utf8_encode (l1 ++ l2) = utf8_encode l1 ++ utf8_encode l2.
Proof. unfold utf8_encode. by rewrite map_app, concat_app. Qed.

Lemma encode_nul s : TextEncoder_encode (s ++ [0]) = TextEncoder_encode s ++ [0].
Proof.
  unfold TextEncoder_encode, to_scalars. rewrite decode_units_nul, utf8_encode_app.
  reflexivity.
Qed.

(** Decoding what the encoder wrote gives the string back. *)
Lemma TextDecoder_utf8_encode s :
  code_units s = true -> isWellFormed s = true -> head s <> Some 0xFEFF ->
  TextDecoder_utf8 (TextEncoder_encode s) = s.
Proof.
  intros Hu Hwf Hh. destruct (to_scalars_wellformed s Hu Hwf) as [Hsc Hun].
  unfold TextDecoder_utf8, TextEncoder_encode.
  rewrite utf8_decode_encode by done. by rewrite strip_bom_to_scalars.
Qed.

(** ** Guest memory *)

Lemma subarray_written (pre src post : list Z) (n : nat) :
  (n <= length src)%nat ->
  subarray (pre ++ src ++ post) (Z.of_nat (length pre))
           (Z.of_nat (length pre) + Z.of_nat n) = take n src.
Proof.
  intros Hn. unfold subarray, rel_index. rewrite !length_app.
  destruct (Z.ltb_spec (Z.of_nat (length pre)) 0); [lia|].
  destruct (Z.ltb_spec (Z.of_nat (length pre) + Z.of_nat n) 0); [lia|].
  rewrite !Z.min_l by lia.
  replace (Z.to_nat (Z.of_nat (length pre) + Z.of_nat n - Z.of_nat (length pre)))
    with n by lia.
  rewrite Nat2Z.id, drop_app_length. by rewrite take_app_le.
Qed.

Lemma subarray_empty mem : subarray mem 0 (0 + 0) = [].
Proof.
  unfold subarray, rel_index. change (0 + 0) with 0. change (0 <? 0) with false.
  cbv iota. rewrite Z.min_l by lia. reflexivity.
Qed.

Lemma le_bytes_length s : length (le_bytes s) = (2 * length s)%nat.
Proof. induction s as [|c s IH]; simpl; [reflexivity|]. rewrite IH. lia. Qed.

Lemma u16_store_length mem idx v : length (u16_store mem idx v) = length mem.
Proof.
  unfold u16_store. destruct (_ && _); [|reflexivity]. by rewrite !length_insert.
Qed.

Lemma u16_copy_length s : forall mem idx, length (u16_copy mem idx s) = length mem.
Proof.
  induction s as [|c s IH]; intros mem idx; simpl; [reflexivity|].
  by rewrite IH, u16_store_length.
Qed.

Lemma u16_store_app (pre post : list Z) o0 o1 idx v :
  Z.of_nat (length pre) = 2 * idx ->
  u16_store (pre ++ o0 :: o1 :: post) idx v
  = pre ++ Z.land v 0xFF :: Z.shiftr (v mod 65536) 8 :: post.
Proof.
  intros Hl. unfold u16_store. rewrite length_app. simpl length.
  destruct (Z.leb_spec 0 idx); [|lia].
  destruct (Z.ltb_spec idx (Z.of_nat (length pre + S (S (length post))) / 2)) as [_|Hge].
  - simpl. replace (Z.to_nat (2 * idx)) with (length pre + 0)%nat by lia.
    replace (Z.to_nat (2 * idx + 1)) with (length pre + 1)%nat by lia.
    rewrite !insert_app_r. reflexivity.
  - exfalso. assert (idx + 1 <= Z.of_nat (length pre + S (S (length post))) / 2); [|lia].
    apply Z.div_le_lower_bound; lia.
Qed.

(** The copy loop overwrites the block at [2 * idx] with the string's bytes. *)
Lemma u16_copy_app s : forall (pre old post : list Z) idx,
  Z.of_nat (length pre) = 2 * idx -> length old = (2 * length s)%nat ->
  u16_copy (pre ++ old ++ post) idx s = pre ++ le_bytes s ++ post.
Proof.
  induction s as [|c s IH]; intros pre old post idx Hp Ho.
  - destruct old; [reflexivity|discriminate].
  - destruct old as [|o0 [|o1 old]]; simpl in Ho; [lia..|].
    simpl u16_copy. change ((o0 :: o1 :: old) ++ post) with (o0 :: o1 :: old ++ post).
    rewrite (u16_store_app pre (old ++ post) o0 o1 idx c Hp).
    change (pre ++ Z.land c 255 :: Z.shiftr (c mod 65536) 8 :: old ++ post)
      with (pre ++ [Z.land c 255; Z.shiftr (c mod 65536) 8] ++ old ++ post).
    rewrite app_assoc. rewrite IH.
    + rewrite <- app_assoc. reflexivity.
    + rewrite length_app. simpl. lia.
    + lia.
Qed.

Lemma utf16le_units_le_bytes s :
  code_units s = true -> utf16le_units (le_bytes s) = (s, false).
Proof.
  induction s as [|c s IH]; [reflexivity|]. simpl. rewrite andb_true_iff.
  intros [Hc Hs]. rewrite IH by done.
  apply andb_true_iff in Hc as [H0 H1]. apply Z.leb_le in H0, H1.
  f_equal. f_equal. rewrite Z.mod_small by lia.
  rewrite Z.shiftr_div_pow2, Z.shiftl_mul_pow2 by lia.
  change 255 with (Z.ones 8). rewrite Z.land_ones by lia.
  pose proof (Z.div_mod c (2 ^ 8)). lia.
Qed.

(** Decoding the bytes of a well-formed string in the 16-bit view gives
    the string back. *)
Lemma TextDecoder_utf16le_bytes s :
  code_units s = true -> isWellFormed s = true -> head s <> Some 0xFEFF ->
  TextDecoder_utf16le (le_bytes s) = s.
Proof.
  intros Hu Hwf Hh. unfold TextDecoder_utf16le. rewrite utf16le_units_le_bytes by done.
  fold (to_scalars s). rewrite strip_bom_to_scalars by done.
  apply (to_scalars_wellformed s Hu Hwf).
Qed.

Lemma u8_set_ok mem src ptr :
  0 <= ptr -> ptr + Z.of_nat (length src) <= Z.of_nat (length mem) ->
  exists pre post, u8_set mem src ptr = Normal (pre ++ src ++ post)
                   /\ Z.of_nat (length pre) = ptr.
Proof.
  intros H0 H1. unfold u8_set. destruct (Z.ltb_spec ptr 0); [lia|].
  destruct (Z.ltb_spec (Z.of_nat (length mem)) (Z.of_nat (length src) + ptr)); [lia|].
  simpl. eexists _, _. split; [reflexivity|]. rewrite length_take. lia.
Qed.

Lemma not_a_string_JString hp s : not_a_string hp (JString s) = bool_decide (s = []).
Proof.
  unfold not_a_string. simpl. rewrite negb_involutive.
  change (bool_decide (lit "string" = lit "string")) with true. simpl.
  by rewrite orb_false_r.
Qed.

Lemma typeof_truthy hp v : not_a_string hp (JString (typeof hp v)) = false.
Proof.
  rewrite not_a_string_JString. apply bool_decide_eq_false.
  destruct v; simpl; try discriminate. destruct (instanceof _ _ _); discriminate.
Qed.

(** A block of memory split around an offset. *)
Lemma split_block (mem : list Z) (ptr n : nat) :
  (ptr + n <= length mem)%nat ->
  exists pre old post, mem = pre ++ old ++ post /\ length pre = ptr /\ length old = n.
Proof.
  intros H. exists (take ptr mem), (take n (drop ptr mem)), (drop n (drop ptr mem)).
  rewrite !take_drop. split; [reflexivity|].
  rewrite !length_take, length_drop. lia.
Qed.

(** ** Concrete inputs *)

(** [double_of_Z] gives the double that rounding gives, and a valid one. *)
Example double_of_Z_samples :
  forallb (fun z => bool_decide (double_of_Z z = binary_normalize 53 1024 z 0 false)
                    && valid_binary 53 1024 (double_of_Z z))
          [1; -1; 7; 2 ^ 31 - 1; - 2 ^ 31; 2 ^ 32 - 1; 2 ^ 53 - 1] = true.
Proof. vm_compute. reflexivity. Qed.

Example ToInt32_wraps :
  ToInt32 (double_of_Z (2 ^ 31)) = - 2 ^ 31 /\ ToUint32 (double_of_Z (-1)) = 2 ^ 32 - 1
  /\ ToInt32 S754_nan = 0 /\ ToInt32 (S754_finite false 3 (-1)) = 1.
Proof. repeat split; vm_compute; reflexivity. Qed.

(** "hé" and U+1F600 in UTF-8. *)
Example encode_example_string :
  TextEncoder_encode example_string = [0x68; 0xC3; 0xA9; 0xF0; 0x9F; 0x98; 0x80].
Proof. vm_compute. reflexivity. Qed.

(** An overlong form, a stray continuation byte and a truncated sequence
    each decode to U+FFFD; the byte after a broken sequence is kept. *)
Example decode_malformed :
  TextDecoder_utf8 [0xC0; 0x80] = [0xFFFD; 0xFFFD] /\
  TextDecoder_utf8 [0x80; 0x41] = [0xFFFD; 0x41] /\
  TextDecoder_utf8 [0xE2; 0x82] = [0xFFFD] /\
  TextDecoder_utf8 [0xE2; 0x41] = [0xFFFD; 0x41] /\
  TextDecoder_utf8 [0xEF; 0xBB; 0xBF; 0x41] = [0x41].
Proof. repeat split; vm_compute; reflexivity. Qed.

(** The seven singletons sit at handles 0 to 6 with one reference each,
    and the next handle is 7. *)
Example initial_table :
  map (get EMLITE_VALMAP0) [0; 1; 2; 3; 4; 5; 6] = reserved_values /\
  map (fun h => refs <$> _h2e EMLITE_VALMAP0 !! h) [0; 1; 2; 3; 4; 5; 6]
    = replicate 7 (Some 1) /\
  _next EMLITE_VALMAP0 = 7.
Proof. repeat split; vm_compute; reflexivity. Qed.

(** Registering [true] again returns handle 3 and leaves the counter. *)
Example add_true_again :
  match add EMLITE_VALMAP0 (JBool true) with
  | Normal (h, t) => h = 3 /\ _next t = 7 /\ (refs <$> _h2e t !! 3) = Some 2
  | Throw _ => False
  end.
Proof. vm_compute. repeat split. Qed.

(** ** Error normalisation *)

Lemma alloc_fresh (hp : Heap) : hp !! fresh (dom hp) = None.
Proof. apply not_elem_of_dom. apply is_fresh. Qed.

Lemma key_JObject v l : key v = key (JObject l) -> v = JObject l.
Proof.
  destruct v as [| | |[[]| | |]| | | |]; simpl; intros H; try discriminate; exact H.
Qed.

(** [normalizeThrown] does what [Normalized] says. *)
Lemma normalizeThrown_spec P hp e :
  Normalized P hp e (fst (normalizeThrown P hp e)) (snd (normalizeThrown P hp e)).
Proof.
  unfold normalizeThrown. destruct (instanceof hp e ClsError) eqn:Hi.
  { simpl. by apply N_error. }
  unfold normalize_try, copy_prop.
  destruct (JsString P hp e) as [msg|exc] eqn:Hs; simpl.
  2:{ apply N_unknown; [done|eauto|apply alloc_fresh|done..]. }
  assert (forall k, (if truthy e && bool_decide (typeof hp e = lit "object")
                     then props_of hp e !! k else None) = prop_read hp e k) as Hpr
    by reflexivity.
  destruct (truthy e && bool_decide (typeof hp e = lit "object")) eqn:Hobj.
  2:{ simpl. pose proof (Hpr (lit "name")) as Hn. pose proof (Hpr (lit "code")) as Hc.
      apply (N_wrapped P hp e msg); try done; try apply alloc_fresh;
        rewrite <- ?Hn, <- ?Hc; try done. }
  pose proof (Hpr (lit "name")) as Hn. pose proof (Hpr (lit "code")) as Hc.
  destruct (props_of hp e !! lit "name") as [[xn|excn]|] eqn:En; simpl.
  2:{ apply N_unknown; [done| |apply alloc_fresh|done..]. right. left. eauto. }
  - destruct (props_of hp e !! lit "code") as [[xc|excc]|] eqn:Ec; simpl.
    2:{ apply N_unknown; [done| |apply alloc_fresh|done..]. right. right. eauto. }
    + apply (N_wrapped P hp e msg); try done; try apply alloc_fresh;
        rewrite <- ?Hn, <- ?Hc; try done.
    + apply (N_wrapped P hp e msg); try done; try apply alloc_fresh;
        rewrite <- ?Hn, <- ?Hc; try done.
  - destruct (props_of hp e !! lit "code") as [[xc|excc]|] eqn:Ec; simpl.
    2:{ apply N_unknown; [done| |apply alloc_fresh|done..]. right. right. eauto. }
    + apply (N_wrapped P hp e msg); try done; try apply alloc_fresh;
        rewrite <- ?Hn, <- ?Hc; try done.
    + apply (N_wrapped P hp e msg); try done; try apply alloc_fresh;
        rewrite <- ?Hn, <- ?Hc; try done.
Qed.

(** What [normalizeThrown] returns is an object. *)
Lemma Normalized_object P hp e v hp' :
  Normalized P hp e v hp' -> exists l, v = JObject l.
Proof.
  intros [Hi| |]; eauto.
  unfold instanceof in Hi. apply bool_decide_eq_true in Hi.
  destruct e; try discriminate. eauto.
Qed.

(** A dispatch that throws ends in a registered, normalised value. *)
Lemma finish_call_threw P call t hp e t1 hp1 :
  call t hp = (Threw e, t1, hp1) -> wf t1 ->
  exists h t2 hp2,
    finish_call P call t hp = Normal (h, t2, hp2) /\
    Normalized P hp1 e (get t2 h) hp2.
Proof.
  intros Hc W. unfold finish_call. rewrite Hc.
  pose proof (normalizeThrown_spec P hp1 e) as HN.
  destruct (normalizeThrown P hp1 e) as [ret hp2]. simpl in HN.
  destruct (add_total t1 ret W) as (h & t2 & Hadd). rewrite Hadd. simpl.
  exists h, t2, hp2. split; [reflexivity|].
  destruct (Normalized_object _ _ _ _ _ HN) as [l ->].
  rewrite (key_JObject (get t2 h) l); [exact HN|]. eapply add_get_key; eauto.
Qed.

(** ** The views and guest memory *)

Lemma ensure_fresh vw m : view (_ensureViewsFresh vw m) m = Some (contents m).
Proof.
  unfold _ensureViewsFresh, view. destruct (decide (_u8 vw = buffer m)) as [E|E].
  - rewrite (bool_decide_eq_false_2 (_u8 vw <> buffer m)) by tauto.
    by rewrite bool_decide_eq_true_2.
  - rewrite (bool_decide_eq_true_2 (_u8 vw <> buffer m)) by done.
    simpl. by rewrite bool_decide_eq_true_2.
Qed.

Lemma ensure_fresh_buffer vw m : _u8 (_ensureViewsFresh vw m) = buffer m.
Proof.
  unfold _ensureViewsFresh. destruct (decide (_u8 vw = buffer m)) as [E|E].
  - by rewrite (bool_decide_eq_false_2 (_u8 vw <> buffer m)) by tauto.
  - by rewrite (bool_decide_eq_true_2 (_u8 vw <> buffer m)) by done.
Qed.

Lemma update_fresh m : view (_updateViews m) m = Some (contents m).
Proof. unfold view, _updateViews. simpl. by rewrite bool_decide_eq_true_2. Qed.

Lemma view_same_buffer vw m m1 :
  view vw m = Some (contents m) -> buffer m1 = buffer m ->
  view vw m1 = Some (contents m1).
Proof.
  unfold view. intros H Hb. rewrite Hb. by case_bool_decide.
Qed.

(** The views the copy routines write through are usable when the
    allocator left the buffer in place or the growth was reported. *)
Lemma view_usable vw m m1 (notified : bool) :
  buffer m1 = buffer m \/ notified = true ->
  view (if notified then _updateViews m1 else _ensureViewsFresh vw m) m1
  = Some (contents m1).
Proof.
  intros H. destruct notified; [apply update_fresh|].
  destruct H as [Hb|Hb]; [|discriminate].
  eapply view_same_buffer; [apply ensure_fresh|done].
Qed.

(** And they are over a detached buffer when the allocator replaced the
    buffer and said nothing. *)
Lemma view_stale vw m m1 :
  buffer m1 <> buffer m -> view (_ensureViewsFresh vw m) m1 = None.
Proof.
  intros Hb. unfold view. rewrite bool_decide_eq_false_2; [done|].
  rewrite ensure_fresh_buffer. congruence.
Qed.

(** [cStr] and [cStrUtf16] read the current bytes. *)
Lemma viewed_cStr vw m ptr len :
  snd (Viewed.cStr vw m ptr len) = cStr (contents m) ptr len /\
  snd (Viewed.cStrUtf16 vw m ptr len) = cStrUtf16 (contents m) ptr len.
Proof.
  unfold Viewed.cStr, Viewed.cStrUtf16, cStr, cStrUtf16. simpl.
  rewrite ensure_fresh. done.
Qed.

Lemma subarray_at (pre src post : list Z) ptr (n : nat) :
  Z.of_nat (length pre) = ptr -> (n <= length src)%nat ->
  subarray (pre ++ src ++ post) ptr (ptr + Z.of_nat n) = take n src.
Proof. intros <- H. by apply subarray_written. Qed.

(** A block written into a memory: the length is kept, the block is
    there, and nothing else moved. *)
Lemma written_block (mem src : list Z) (p : nat) :
  (p + length src <= length mem)%nat ->
  let mem2 := take p mem ++ src ++ drop (p + length src) mem in
  length mem2 = length mem /\
  take (length src) (drop p mem2) = src /\
  (forall i, (i < p)%nat \/ (p + length src <= i)%nat -> mem2 !! i = mem !! i).
Proof.
  intros Hfit mem2. unfold mem2.
  assert (length (take p mem) = p) as Hp by (rewrite length_take; lia).
  split; [|split].
  - rewrite !length_app, Hp, length_drop. lia.
  - rewrite drop_app_length' by done. by rewrite take_app_length'.
  - intros i [Hi|Hi].
    + rewrite lookup_app_l by lia. by apply lookup_take_lt.
    + rewrite lookup_app_r by lia. rewrite lookup_app_r by lia.
      rewrite lookup_drop. f_equal. lia.
Qed.

Lemma u16_layout s (pre old post : list Z) idx :
  Z.of_nat (length pre) = 2 * idx -> length old = (2 * length s + 2)%nat ->
  u16_store (u16_copy (pre ++ old ++ post) idx s) (idx + Z.of_nat (length s)) 0
  = pre ++ (le_bytes s ++ [0; 0]) ++ post.
Proof.
  intros Hpre Hold.
  destruct (split_block old (2 * length s) 2)
    as (old1 & old2 & rest & -> & Hold1 & Hold2); [lia|].
  destruct rest; [|rewrite !length_app in Hold; simpl in Hold; lia].
  destruct old2 as [|z0 [|z1 [|]]]; try discriminate. rewrite app_nil_r.
  rewrite <- (app_assoc old1). rewrite (u16_copy_app s pre old1 ([z0; z1] ++ post) idx)
    by lia.
  rewrite (app_assoc pre). simpl app at 3.
  rewrite (u16_store_app (pre ++ le_bytes s) post z0 z1 (idx + Z.of_nat (length s)) 0).
  2:{ rewrite length_app, le_bytes_length. lia. }
  rewrite <- !app_assoc. reflexivity.
Qed.

Lemma u16_store_outside mem idx v :
  Z.of_nat (length mem) / 2 <= idx -> u16_store mem idx v = mem.
Proof.
  intros H. unfold u16_store.
  destruct (Z.ltb_spec idx (Z.of_nat (length mem) / 2)); [lia|].
  by rewrite andb_false_r.
Qed.

Lemma u16_copy_outside s : forall mem idx,
  Z.of_nat (length mem) / 2 <= idx -> u16_copy mem idx s = mem.
Proof.
  induction s as [|c s IH]; intros mem idx H; [done|]. simpl.
  rewrite u16_store_outside by done. apply IH. lia.
Qed.

(** The memory [copyStringToWasm] leaves for a non-empty string, when the
    views are usable after the allocator ran and the block lies inside the
    memory. *)
Lemma viewed_copy8 P hp ex g vw m s ptr m1 (notified : bool) :
  Viewed.emlite_malloc ex = Some g -> s <> [] ->
  g m (Z.of_nat (length (TextEncoder_encode (s ++ [0])))) = (ptr, m1, notified) ->
  buffer m1 = buffer m \/ notified = true ->
  0 < ptr ->
  ptr + Z.of_nat (length (TextEncoder_encode (s ++ [0]))) <= Z.of_nat (length (contents m1)) ->
  Viewed.copyStringToWasm P hp (Some ex) vw m (JString s)
  = Normal (ptr,
            mkMemory (buffer m1)
              (take (Z.to_nat ptr) (contents m1) ++ (TextEncoder_encode s ++ [0])
                 ++ drop (Z.to_nat ptr + (length (TextEncoder_encode s) + 1)) (contents m1)),
            if notified then _updateViews m1 else _ensureViewsFresh vw m).
Proof.
  intros Hex Hne Hg Hv Hp Hfit. unfold Viewed.copyStringToWasm.
  rewrite not_a_string_JString, bool_decide_eq_false_2 by done.
  rewrite Hex. cbn [JsString completion_bind]. rewrite Hg.
  destruct (Z.eqb_spec ptr 0); [lia|].
  unfold Viewed.u8_set. destruct (Z.ltb_spec ptr 0); [lia|].
  rewrite (view_usable vw m m1 notified Hv).
  rewrite encode_nul in *. set (enc := TextEncoder_encode s) in *.
  assert (length (enc ++ [0]) = (length enc + 1)%nat) as Hlen
    by (rewrite length_app; reflexivity).
  unfold u8_set. rewrite Hlen in *.
  destruct (Z.ltb_spec ptr 0); [lia|].
  destruct (Z.ltb_spec (Z.of_nat (length (contents m1)))
              (Z.of_nat (length enc + 1) + ptr)); [lia|].
  reflexivity.
Qed.

(** The same for [copyStringToWasmUtf16], given an even pointer. *)
Lemma viewed_copy16 P hp ex g vw m s ptr m1 (notified : bool) :
  Viewed.emlite_malloc ex = Some g -> s <> [] ->
  g m ((Z.of_nat (length s) + 1) * 2) = (ptr, m1, notified) ->
  buffer m1 = buffer m \/ notified = true ->
  0 < ptr < 2 ^ 32 -> Z.rem ptr 2 = 0 ->
  ptr + (Z.of_nat (length s) + 1) * 2 <= Z.of_nat (length (contents m1)) ->
  Viewed.copyStringToWasmUtf16 P hp (Some ex) vw m (JString s)
  = Normal (ptr,
            mkMemory (buffer m1)
              (take (Z.to_nat ptr) (contents m1) ++ (le_bytes s ++ [0; 0])
                 ++ drop (Z.to_nat ptr + (2 * length s + 2)) (contents m1)),
            if notified then _updateViews m1 else _ensureViewsFresh vw m).
Proof.
  intros Hex Hne Hg Hv Hp Hev Hfit. unfold Viewed.copyStringToWasmUtf16.
  rewrite not_a_string_JString, bool_decide_eq_false_2 by done.
  rewrite Hex. cbn [JsString completion_bind]. rewrite Hg.
  destruct (Z.eqb_spec ptr 0); [lia|]. rewrite Hev.
  change (negb (0 =? 0)) with false. cbv iota.
  rewrite (view_usable vw m m1 notified Hv).
  rewrite Z.mod_small by lia. rewrite Z.shiftr_div_pow2 by lia. change (2 ^ 1) with 2.
  assert (ptr = 2 * (ptr / 2)) as Hhalf.
  { apply Z.rem_divide in Hev; [|lia]. destruct Hev as [k ->].
    rewrite Z.div_mul by lia. lia. }
  set (idx := ptr / 2) in *. do 3 f_equal.
  rewrite <- (take_drop (Z.to_nat ptr) (contents m1)) at 1.
  rewrite <- (take_drop (2 * length s + 2) (drop (Z.to_nat ptr) (contents m1))) at 1.
  rewrite u16_layout.
  - by rewrite drop_drop.
  - rewrite length_take. lia.
  - rewrite length_take, length_drop. lia.
Qed.

(** What [cStr] and [cStrUtf16] read at a block just written. *)
Lemma viewed_read8 vw b (mem1 src : list Z) ptr (n : nat) (k : nat) :
  0 <= ptr -> ptr + Z.of_nat (length src) <= Z.of_nat (length mem1) ->
  (n <= length src)%nat ->
  snd (Viewed.cStr vw
         (mkMemory b (take (Z.to_nat ptr) mem1 ++ src ++ drop k mem1))
         ptr (Z.of_nat n))
  = TextDecoder_utf8 (take n src).
Proof.
  intros Hp Hfit Hn. rewrite (proj1 (viewed_cStr _ _ _ _)). simpl contents.
  unfold cStr. rewrite subarray_at; [done| |done].
  rewrite length_take. lia.
Qed.

Lemma viewed_read16 vw b (mem1 src : list Z) ptr (n : nat) (k : nat) :
  0 <= ptr -> ptr + Z.of_nat (length src) <= Z.of_nat (length mem1) ->
  (2 * n <= length src)%nat ->
  snd (Viewed.cStrUtf16 vw
         (mkMemory b (take (Z.to_nat ptr) mem1 ++ src ++ drop k mem1))
         ptr (Z.of_nat n))
  = TextDecoder_utf16le (take (2 * n) src).
Proof.
  intros Hp Hfit Hn. rewrite (proj2 (viewed_cStr _ _ _ _)). simpl contents.
  unfold cStrUtf16. replace (Z.of_nat n * 2) with (Z.of_nat (2 * n)) by lia.
  rewrite subarray_at; [done| |done].
  rewrite length_take. lia.
Qed.

(** * The handle table's laws *)

Lemma incRef_iter t h e (n : nat) :
  _h2e t !! h = Some e ->
  _h2e (Nat.iter n (fun t => incRef t h) t) !! h
    = Some (mkEntry (value e) (refs e + Z.of_nat n)).
Proof.
  intros He. induction n as [|n IH].
  - simpl. rewrite He. destruct e. simpl. f_equal. f_equal. lia.
  - rewrite Nat.iter_succ. unfold incRef at 1. rewrite IH. simpl.
    rewrite lookup_insert_eq. f_equal. f_equal. lia.
Qed.

Lemma decRef_iter t h e (n : nat) :
  _h2e t !! h = Some e -> Z.of_nat n < refs e ->
  _h2e (Nat.iter n (fun t => snd (decRef t h)) t) !! h
    = Some (mkEntry (value e) (refs e - Z.of_nat n)).
Proof.
  intros He. induction n as [|n IH]; intros Hn.
  - simpl. rewrite He. destruct e. simpl. f_equal. f_equal. lia.
  - rewrite Nat.iter_succ. unfold decRef at 1. rewrite IH by lia. simpl.
    destruct (Z.eqb_spec (refs e - Z.of_nat n - 1) 0); [lia|]. simpl.
    rewrite lookup_insert_eq. f_equal. f_equal. lia.
Qed.

Lemma decRef_last t h e :
  _h2e t !! h = Some e -> refs e = 1 ->
  decRef t h = (true, {| _h2e := delete h (_h2e t);
                         _v2h := delete (key (value e)) (_v2h t);
                         _next := _next t |}).
Proof.
  intros He Hr. unfold decRef. rewrite He, Hr. reflexivity.
Qed.

(** C1 — Deduplication of [add]: on a well-formed table, registering two
    values that are the same under the map's key comparison (equal
    primitives, or the identical object, function or symbol) yields the same
    handle twice; the second [add] only increments that entry's reference
    count: the stored value, the set of live handles, the reverse index
    and the allocation counter are as the first [add] left them. *)
Theorem add_dedup t v1 v2 :
  wf t -> SameValueZero v1 v2 ->
  exists h t1 t2 e1 e2,
    add t v1 = Normal (h, t1) /\ add t1 v2 = Normal (h, t2) /\
    _h2e t1 !! h = Some e1 /\ _h2e t2 !! h = Some e2 /\
    refs e2 = refs e1 + 1 /\ value e2 = value e1 /\
    dom (_h2e t2) = dom (_h2e t1) /\ _v2h t2 = _v2h t1 /\
    _next t2 = _next t1.
Proof.
  intros W Hsame. destruct (add_total t v1 W) as (h & t1 & H1).
  assert (exists e1, _h2e t1 !! h = Some e1 /\ _v2h t1 !! key v1 = Some h)
    as (e1 & He1 & Hk1).
  { revert H1. unfold add. destruct (_v2h t !! key v1) as [h0|] eqn:Hv.
    - destruct (_h2e t !! h0) as [e|] eqn:He; [|discriminate].
      intros [= <- <-]. simpl. rewrite lookup_insert_eq. eauto.
    - intros [= <- <-]. simpl. rewrite !lookup_insert_eq. eauto. }
  exists h, t1. eexists. exists e1. eexists.
  split; [exact H1|].
  split. { unfold add. rewrite <- Hsame, Hk1, He1. reflexivity. }
  split; [exact He1|]. simpl. rewrite lookup_insert_eq.
  split; [reflexivity|]. simpl.
  split; [reflexivity|]. split; [reflexivity|].
  split; [|split; reflexivity].
  apply dom_insert_lookup_L. eauto.
Qed.

(** The positive and the negative zero are one key: registering the second
    returns the first one's handle. *)
Lemma add_dedup_witness :
  wf EMLITE_VALMAP0 /\
  SameValueZero (JNumber (S754_zero false)) (JNumber (S754_zero true)) /\
  exists h t1 t2 e1 e2,
    add EMLITE_VALMAP0 (JNumber (S754_zero false)) = Normal (h, t1) /\
    add t1 (JNumber (S754_zero true)) = Normal (h, t2) /\
    _h2e t1 !! h = Some e1 /\ _h2e t2 !! h = Some e2 /\
    refs e2 = refs e1 + 1 /\ value e2 = value e1 /\
    dom (_h2e t2) = dom (_h2e t1) /\ _v2h t2 = _v2h t1 /\
    _next t2 = _next t1.
Proof.
  split; [exact wf_init|]. split; [reflexivity|].
  exact (add_dedup EMLITE_VALMAP0 (JNumber (S754_zero false))
           (JNumber (S754_zero true)) wf_init eq_refl).
Defined.

(** C2 — Ref-count liveness: let [h] be the handle of a value [v] that the
    table did not hold before.  After [n] calls of [incRef h] followed by
    [n + 1] calls of [decRef h] the entry is gone and [get h] is
    [undefined]; after [n] and [n] calls [get h] is still [v]. *)
Theorem refcount_liveness t v h t1 (n : nat) :
  _v2h t !! key v = None ->
  add t v = Normal (h, t1) ->
  let t2 := Nat.iter n (fun t => incRef t h) t1 in
  _h2e (Nat.iter (S n) (fun t => snd (decRef t h)) t2) !! h = None /\
  get (Nat.iter (S n) (fun t => snd (decRef t h)) t2) h = JUndefined /\
  get (Nat.iter n (fun t => snd (decRef t h)) t2) h = v.
Proof.
  intros Hfresh Hadd t2. unfold add in Hadd. rewrite Hfresh in Hadd.
  injection Hadd as <- <-.
  assert (_h2e t2 !! _next t = Some (mkEntry v (1 + Z.of_nat n))) as H2.
  { unfold t2. rewrite (incRef_iter _ _ (mkEntry v 1)); [reflexivity|].
    simpl. apply lookup_insert_eq. }
  assert (_h2e (Nat.iter n (fun t0 => snd (decRef t0 (_next t))) t2) !! _next t
          = Some (mkEntry v 1)) as Hn.
  { rewrite (decRef_iter _ _ _ _ H2) by (simpl; lia). simpl. f_equal. f_equal. lia. }
  assert (_h2e (Nat.iter (S n) (fun t0 => snd (decRef t0 (_next t))) t2) !! _next t
          = None) as HS.
  { rewrite Nat.iter_succ. rewrite (decRef_last _ _ _ Hn eq_refl).
    simpl. apply lookup_delete_eq. }
  split; [exact HS|]. split; [by apply get_absent|].
  by rewrite (get_lookup _ _ _ Hn).
Qed.

Lemma refcount_liveness_witness :
  let t1 := {| _h2e := <[7 := mkEntry (JString [104; 105]) 1]> (_h2e EMLITE_VALMAP0);
               _v2h := <[JString [104; 105] := 7]> (_v2h EMLITE_VALMAP0);
               _next := 8 |} in
  let t2 := Nat.iter 3 (fun t => incRef t 7) t1 in
  _h2e (Nat.iter 4 (fun t => snd (decRef t 7)) t2) !! 7 = None /\
  get (Nat.iter 4 (fun t => snd (decRef t 7)) t2) 7 = JUndefined /\
  get (Nat.iter 3 (fun t => snd (decRef t 7)) t2) 7 = JString [104; 105].
Proof.
  exact (refcount_liveness EMLITE_VALMAP0 (JString [104; 105]) 7 _ 3%nat
           eq_refl eq_refl).
Defined.

Lemma dec_ref_iter_reserved t h (n : nat) :
  h <= 6 -> Nat.iter n (fun t => emlite_val_dec_ref t h) t = t.
Proof.
  intros Hh. induction n as [|n IH]; [reflexivity|].
  rewrite Nat.iter_succ, IH. by apply dec_ref_reserved.
Qed.

Lemma decRef_init_evicts h :
  0 <= h <= 6 -> _h2e (snd (decRef EMLITE_VALMAP0 h)) !! h = None.
Proof.
  intros Hh.
  assert (h = 0 \/ h = 1 \/ h = 2 \/ h = 3 \/ h = 4 \/ h = 5 \/ h = 6) as Hc by lia.
  repeat (destruct Hc as [->|Hc]; [vm_compute; reflexivity|]).
  subst h. vm_compute. reflexivity.
Qed.

(** C3 — Reserved-handle immutability: on every table the guest can reach,
    any number of [emlite_val_dec_ref h] calls with [h] in [0..6] leaves the
    table as it is, so the entry stays live and [get h] is still the [h]-th
    reserved singleton.  The guard is the bridge's: the table's own [decRef]
    has none, and on the initial table one [decRef h] evicts the reserved
    entry. *)
Theorem reserved_never_evicted t h (n : nat) :
  reachable t -> 0 <= h <= 6 ->
  let t' := Nat.iter n (fun t => emlite_val_dec_ref t h) t in
  t' = t /\
  is_Some (_h2e t' !! h) /\
  reserved_values !! Z.to_nat h = Some (get t' h) /\
  _h2e (snd (decRef EMLITE_VALMAP0 h)) !! h = None.
Proof.
  intros Hr Hh t'. unfold t'. rewrite dec_ref_iter_reserved by lia.
  split; [reflexivity|].
  destruct (lookup_lt_is_Some_2 reserved_values (Z.to_nat h)) as [v Hv].
  { simpl. lia. }
  destruct (reachable_reserved t Hr _ _ Hv) as [Hg Hs].
  rewrite Z2Nat.id in Hg, Hs by lia.
  split; [exact Hs|]. split; [congruence|]. by apply decRef_init_evicts.
Qed.

Lemma reserved_never_evicted_witness :
  reachable EMLITE_VALMAP0 /\ 0 <= 3 <= 6 /\
  let t' := Nat.iter 5 (fun t => emlite_val_dec_ref t 3) EMLITE_VALMAP0 in
  t' = EMLITE_VALMAP0 /\
  is_Some (_h2e t' !! 3) /\
  reserved_values !! Z.to_nat 3 = Some (get t' 3) /\
  _h2e (snd (decRef EMLITE_VALMAP0 3)) !! 3 = None.
Proof.
  split; [exact reach_init|]. split; [lia|].
  apply (reserved_never_evicted EMLITE_VALMAP0 3 5%nat reach_init). lia.
Defined.

Lemma scenario_reachable : reachable scenario_table.
Proof.
  apply (reachable_add_all (map (fun i => JBigInt (Z.of_nat i)) (seq 7 44))
           EMLITE_VALMAP0); [exact reach_init|].
  destruct (wf_add_all (map (fun i => JBigInt (Z.of_nat i)) (seq 7 44))
              EMLITE_VALMAP0 wf_init) as (t' & H & _).
  unfold scenario_table. rewrite H. reflexivity.
Qed.

(** Reset semantics of the current bridge: on every reachable table
    [emlite_reset_object_map] returns normally; afterwards every handle
    above 6 has no entry and [get] gives [undefined] for it, the handles
    [0..6] give what they gave before, namely the reserved singletons, and
    the allocation counter is unchanged: a value the table does not hold
    is then registered under the old counter value, which is above every
    handle that was live before the reset. *)
Theorem reset_semantics t :
  reachable t ->
  exists t',
    emlite_reset_object_map t = Normal t' /\
    (forall h, 6 < h -> _h2e t' !! h = None /\ get t' h = JUndefined) /\
    (forall h, h <= 6 -> get t' h = get t h) /\
    (forall (i : nat) v, reserved_values !! i = Some v -> get t' (Z.of_nat i) = v) /\
    _next t' = _next t /\
    (forall v, has t' v = false ->
       exists t'', add t' v = Normal (_next t, t'') /\
                   _next t'' = _next t + 1 /\
                   forall h, is_Some (_h2e t !! h) -> h < _next t).
Proof.
  intros R. destruct (reset_above_spec 6 t) as (t' & Hr & Hn & Hl & Hw).
  exists t'. split; [exact Hr|].
  split. { intros h Hh. assert (_h2e t' !! h = None) as HN.
           { rewrite Hl. by rewrite bool_decide_eq_true_2. }
           split; [exact HN|by apply get_absent]. }
  split. { intros h Hh. unfold get. rewrite Hl.
           rewrite bool_decide_eq_false_2 by lia. reflexivity. }
  split. { intros i v Hi. pose proof (reserved_length _ _ Hi).
           unfold get. rewrite Hl, bool_decide_eq_false_2 by lia.
           apply (reachable_reserved t R i v Hi). }
  split; [exact Hn|].
  intros v Hv. unfold has in Hv. apply bool_decide_eq_false in Hv.
  assert (_v2h t' !! key v = None) as HN.
  { destruct (_v2h t' !! key v) eqn:E; [|done]. exfalso. apply Hv. eauto. }
  unfold add. rewrite HN. unfold _newEntry. rewrite Hn.
  eexists. split; [reflexivity|]. simpl. split; [reflexivity|].
  intros h [e He]. apply (wf_next t (reachable_wf t R)) in He. lia.
Qed.

(** The scenario of the specification: handles [7..50] were created, then
    the table is reset. *)
Lemma reset_semantics_witness :
  reachable scenario_table /\
  _next scenario_table = 51 /\
  exists t',
    emlite_reset_object_map scenario_table = Normal t' /\
    (forall h, 6 < h -> _h2e t' !! h = None /\ get t' h = JUndefined) /\
    (forall h, h <= 6 -> get t' h = get scenario_table h) /\
    (forall (i : nat) v, reserved_values !! i = Some v -> get t' (Z.of_nat i) = v) /\
    _next t' = _next scenario_table /\
    (forall v, has t' v = false ->
       exists t'', add t' v = Normal (_next scenario_table, t'') /\
                   _next t'' = _next scenario_table + 1 /\
                   forall h, is_Some (_h2e scenario_table !! h) -> h < _next scenario_table).
Proof.
  split; [exact scenario_reachable|]. split; [vm_compute; reflexivity|].
  exact (reset_semantics scenario_table scenario_reachable).
Defined.

(** C6 — Reset semantics, in the older copy of the bridge: its sweep is
    guarded by [h > 5] where the reserved range is [0..6] (and where
    [emlite_val_dec_ref] guards [h > 6]), so it removes the reserved marker
    at handle 6 as well.  On the initial table already, [get 6] is the
    marker before the reset and [undefined] after it, while handles
    [0..5] keep their singletons. *)
Lemma legacy_reset_evicts_marker :
  exists t', Legacy.emlite_reset_object_map EMLITE_VALMAP0 = Normal t' /\
             get EMLITE_VALMAP0 6 = EMLITE_RESERVED /\
             _h2e t' !! 6 = None /\ get t' 6 = JUndefined /\
             map (get t') [0; 1; 2; 3; 4; 5] = take 6 reserved_values.
Proof.
  destruct (reset_above_spec 5 EMLITE_VALMAP0) as (t' & Hr & _ & Hl & _).
  exists t'. split; [exact Hr|]. split; [vm_compute; reflexivity|].
  assert (_h2e t' !! 6 = None) as HN by (rewrite Hl; reflexivity).
  split; [exact HN|]. split; [by apply get_absent|].
  unfold get. simpl map. rewrite !Hl. vm_compute. reflexivity.
Qed.

(** * The numeric constructors and extractors *)

Lemma make_int_get t d h t' :
  wf t -> add t (JNumber d) = Normal (h, t') ->
  exists d', get t' h = JNumber d' /\ truncate d' = truncate d.
Proof.
  intros W Hadd. apply key_number. eapply add_get_key; eauto.
Qed.

(** C5 — 32-bit round-trip: on a well-formed table, for every [x] in
    [-2^31, 2^31 - 1] [emlite_val_get_value_int] of the handle that
    [emlite_val_make_int x] returns is [x]; for every [u] in [0, 2^32 - 1]
    [emlite_val_get_value_uint] of the handle that [emlite_val_make_uint u]
    returns is [u]; and [emlite_val_get_value_uint] of the handle of
    [emlite_val_make_int (-1)] is 4294967295. *)
Theorem int32_roundtrip (P : HostPrims) (hp : Heap) t :
  wf t ->
  (forall x, - 2 ^ 31 <= x <= 2 ^ 31 - 1 ->
     exists h t', emlite_val_make_int t (double_of_Z x) = Normal (h, t') /\
                  emlite_val_get_value_int P hp t' h = Normal x) /\
  (forall u, 0 <= u <= 2 ^ 32 - 1 ->
     exists h t', emlite_val_make_uint t (double_of_Z u) = Normal (h, t') /\
                  emlite_val_get_value_uint P hp t' h = Normal u) /\
  (exists h t', emlite_val_make_int t (double_of_Z (-1)) = Normal (h, t') /\
                emlite_val_get_value_uint P hp t' h = Normal 4294967295).
Proof.
  intros W. split; [|split].
  - intros x Hx. unfold emlite_val_make_int.
    rewrite ToInt32_double_of_Z by lia.
    destruct (add_total t (JNumber (double_of_Z x)) W) as (h & t' & Hadd).
    exists h, t'. split; [exact Hadd|].
    destruct (make_int_get _ _ _ _ W Hadd) as (d' & Hg & Hd).
    unfold emlite_val_get_value_int. rewrite Hg. simpl.
    unfold ToInt32. rewrite Hd. fold (ToInt32 (double_of_Z x)).
    by rewrite ToInt32_double_of_Z by lia.
  - intros u Hu. unfold emlite_val_make_uint.
    rewrite ToUint32_double_of_Z by lia.
    destruct (add_total t (JNumber (double_of_Z u)) W) as (h & t' & Hadd).
    exists h, t'. split; [exact Hadd|].
    destruct (make_int_get _ _ _ _ W Hadd) as (d' & Hg & Hd).
    unfold emlite_val_get_value_uint. rewrite Hg. simpl.
    unfold ToUint32. rewrite Hd. fold (ToUint32 (double_of_Z u)).
    by rewrite ToUint32_double_of_Z by lia.
  - unfold emlite_val_make_int. rewrite ToInt32_double_of_Z by lia.
    destruct (add_total t (JNumber (double_of_Z (-1))) W) as (h & t' & Hadd).
    exists h, t'. split; [exact Hadd|].
    destruct (make_int_get _ _ _ _ W Hadd) as (d' & Hg & Hd).
    unfold emlite_val_get_value_uint. rewrite Hg. simpl.
    unfold ToUint32. rewrite Hd, truncate_double_of_Z. reflexivity.
Qed.

Lemma int32_roundtrip_witness :
  wf EMLITE_VALMAP0 /\
  (forall x, - 2 ^ 31 <= x <= 2 ^ 31 - 1 ->
     exists h t', emlite_val_make_int EMLITE_VALMAP0 (double_of_Z x) = Normal (h, t') /\
                  emlite_val_get_value_int no_prims ∅ t' h = Normal x) /\
  (forall u, 0 <= u <= 2 ^ 32 - 1 ->
     exists h t', emlite_val_make_uint EMLITE_VALMAP0 (double_of_Z u) = Normal (h, t') /\
                  emlite_val_get_value_uint no_prims ∅ t' h = Normal u) /\
  (exists h t', emlite_val_make_int EMLITE_VALMAP0 (double_of_Z (-1)) = Normal (h, t') /\
                emlite_val_get_value_uint no_prims ∅ t' h = Normal 4294967295).
Proof.
  split; [exact wf_init|].
  exact (int32_roundtrip no_prims ∅ EMLITE_VALMAP0 wf_init).
Defined.

(** The scenario, computed: [make_int(-1)] on the initial table returns
    handle 7, and reading it back unsigned gives 4294967295. *)
Example make_int_minus_one :
  match emlite_val_make_int EMLITE_VALMAP0 (double_of_Z (-1)) with
  | Normal (h, t') =>
      h = 7 /\
      emlite_val_get_value_uint no_prims ∅ t' h = Normal 4294967295 /\
      emlite_val_get_value_int no_prims ∅ t' h = Normal (-1)
  | Throw _ => False
  end.
Proof. vm_compute. repeat split. Qed.

(** C9 — 64-bit unsigned normalisation: on a well-formed table, for every
    signed 64-bit wire value [x] the value [emlite_val_make_biguint]
    registers is [x] when [x >= 0] and [x + 2^64] when [x < 0], which lies
    in [0, 2^64 - 1]; for [x = -1] it is [2^64 - 1]. *)
Theorem biguint_normalization t x :
  wf t -> - 2 ^ 63 <= x <= 2 ^ 63 - 1 ->
  exists h t',
    emlite_val_make_biguint t x = Normal (h, t') /\
    get t' h = JBigInt (if x <? 0 then x + 2 ^ 64 else x) /\
    0 <= (if x <? 0 then x + 2 ^ 64 else x) <= 2 ^ 64 - 1 /\
    biguint_normalize (-1) = 2 ^ 64 - 1.
Proof.
  intros W Hx. unfold emlite_val_make_biguint.
  assert (biguint_normalize x = if x <? 0 then x + 2 ^ 64 else x) as ->.
  { unfold biguint_normalize. rewrite Z.shiftl_1_l. reflexivity. }
  destruct (add_total t (JBigInt (if x <? 0 then x + 2 ^ 64 else x)) W)
    as (h & t' & Hadd).
  exists h, t'. split; [exact Hadd|].
  split. { apply key_inj_BigInt. eapply add_get_key; eauto. }
  split; [|reflexivity]. destruct (Z.ltb_spec x 0); lia.
Qed.

Lemma biguint_normalization_witness :
  wf EMLITE_VALMAP0 /\ - 2 ^ 63 <= -1 <= 2 ^ 63 - 1 /\
  exists h t',
    emlite_val_make_biguint EMLITE_VALMAP0 (-1) = Normal (h, t') /\
    get t' h = JBigInt 18446744073709551615 /\
    0 <= 18446744073709551615 <= 2 ^ 64 - 1 /\
    biguint_normalize (-1) = 2 ^ 64 - 1.
Proof.
  split; [exact wf_init|]. split; [lia|].
  apply (biguint_normalization EMLITE_VALMAP0 (-1) wf_init). lia.
Defined.
(** * Strings through guest memory *)

(** With the exports set and no allocator among them, the copy routines
    and [emlite_val_typeof] answer with the null pointer and raise
    nothing, on a string they were asked to write. *)
Lemma allocator_absent_is_silent :
  Viewed.copyStringToWasm no_prims ∅ (Viewed.setExports (Viewed.mkExports None))
    example_views example_guest_memory (JString (lit "hi"))
    = Normal (0, example_guest_memory, example_views) /\
  Viewed.copyStringToWasmUtf16 no_prims ∅ (Viewed.setExports (Viewed.mkExports None))
    example_views example_guest_memory (JString (lit "hi"))
    = Normal (0, example_guest_memory, example_views) /\
  Viewed.emlite_val_typeof no_prims ∅ (Viewed.setExports (Viewed.mkExports None))
    example_views example_guest_memory EMLITE_VALMAP0 3
    = Normal (0, example_guest_memory, example_views).
Proof. split; [|split]; vm_compute; reflexivity. Qed.

(** C7 (amended) — Allocation failure: let the copy routines be given a
    value they accept as a string to write, that is a non-empty string or
    a [String] object.  When the exported allocator answers with the null
    pointer, [copyStringToWasm] and [copyStringToWasmUtf16] throw the
    explicit errors "malloc failed in copyStringToWasm" and "malloc failed
    in copyStringToWasmUtf16", and so does [emlite_val_typeof].  When the
    exports are set and have no allocator, the three return the null
    pointer 0 and leave the memory as it is, without an error.  While
    [setExports] has not been called, reading the allocator off the
    undefined exports is a [TypeError].  For the empty string, and for
    every value the guard of the routines turns away, the two routines
    return 0 in every case, before exports or allocator are looked
    at. *)
Theorem allocation_failure P hp vw m str s :
  not_a_string hp str = false -> JsString P hp str = Normal s ->
  (forall ex g,
     Viewed.emlite_malloc ex = Some g ->
     fst (fst (g m (Z.of_nat (length (TextEncoder_encode (s ++ [0])))))) = 0 ->
     Viewed.copyStringToWasm P hp (Viewed.setExports ex) vw m str
       = Throw (ExcError (lit "malloc failed in copyStringToWasm"))) /\
  (forall ex g,
     Viewed.emlite_malloc ex = Some g ->
     fst (fst (g m ((Z.of_nat (length s) + 1) * 2))) = 0 ->
     Viewed.copyStringToWasmUtf16 P hp (Viewed.setExports ex) vw m str
       = Throw (ExcError (lit "malloc failed in copyStringToWasmUtf16"))) /\
  (forall ex g t n,
     Viewed.emlite_malloc ex = Some g ->
     (forall size, fst (fst (g m size)) = 0) ->
     Viewed.emlite_val_typeof P hp (Viewed.setExports ex) vw m t n
       = Throw (ExcError (lit "malloc failed in copyStringToWasm"))) /\
  (forall ex,
     Viewed.emlite_malloc ex = None ->
     Viewed.copyStringToWasm P hp (Viewed.setExports ex) vw m str
       = Normal (0, m, _ensureViewsFresh vw m) /\
     Viewed.copyStringToWasmUtf16 P hp (Viewed.setExports ex) vw m str
       = Normal (0, m, _ensureViewsFresh vw m) /\
     forall t n,
       Viewed.emlite_val_typeof P hp (Viewed.setExports ex) vw m t n
         = Normal (0, m, _ensureViewsFresh vw m)) /\
  (Viewed.copyStringToWasm P hp None vw m str = Throw ExcTypeError /\
   Viewed.copyStringToWasmUtf16 P hp None vw m str = Throw ExcTypeError /\
   forall t n, Viewed.emlite_val_typeof P hp None vw m t n = Throw ExcTypeError) /\
  (forall exports v,
     v = JString [] \/ not_a_string hp v = true ->
     Viewed.copyStringToWasm P hp exports vw m v = Normal (0, m, vw) /\
     Viewed.copyStringToWasmUtf16 P hp exports vw m v = Normal (0, m, vw)).
Proof.
  intros Hstr Hs. unfold Viewed.setExports, Viewed.emlite_val_typeof.
  split; [|split; [|split; [|split; [|split]]]].
  - intros ex g Hm Hnull. unfold Viewed.copyStringToWasm. rewrite Hstr, Hm, Hs. simpl.
    destruct (g m _) as [[ptr m1] notified]. simpl in Hnull. subst ptr. reflexivity.
  - intros ex g Hm Hnull. unfold Viewed.copyStringToWasmUtf16. rewrite Hstr, Hm, Hs. simpl.
    destruct (g m _) as [[ptr m1] notified]. simpl in Hnull. subst ptr. reflexivity.
  - intros ex g t n Hm Hnull. unfold Viewed.copyStringToWasm.
    rewrite typeof_truthy, Hm. simpl.
    specialize (Hnull (Z.of_nat (length (TextEncoder_encode (typeof hp (get t n) ++ [0]))))).
    destruct (g m _) as [[ptr m1] notified]. simpl in Hnull. subst ptr. reflexivity.
  - intros ex Hm. unfold Viewed.copyStringToWasm, Viewed.copyStringToWasmUtf16.
    rewrite Hstr, Hm. split; [reflexivity|]. split; [reflexivity|].
    intros t n. by rewrite typeof_truthy.
  - unfold Viewed.copyStringToWasm, Viewed.copyStringToWasmUtf16.
    rewrite Hstr. split; [reflexivity|]. split; [reflexivity|].
    intros t n. by rewrite typeof_truthy.
  - intros exports v Hv.
    assert (not_a_string hp v = true) as Hn.
    { destruct Hv as [->|Hv]; [|exact Hv].
      by rewrite not_a_string_JString, bool_decide_eq_true_2. }
    unfold Viewed.copyStringToWasm, Viewed.copyStringToWasmUtf16. rewrite Hn. auto.
Qed.

Lemma allocation_failure_witness :
  not_a_string ∅ (JString (lit "hi")) = false /\
  JsString no_prims ∅ (JString (lit "hi")) = Normal (lit "hi") /\
  Viewed.copyStringToWasm no_prims ∅
    (Viewed.setExports (Viewed.mkExports (Some (fixed_malloc 0))))
    example_views example_guest_memory (JString (lit "hi"))
    = Throw (ExcError (lit "malloc failed in copyStringToWasm")) /\
  Viewed.copyStringToWasmUtf16 no_prims ∅
    (Viewed.setExports (Viewed.mkExports (Some (fixed_malloc 0))))
    example_views example_guest_memory (JString (lit "hi"))
    = Throw (ExcError (lit "malloc failed in copyStringToWasmUtf16")) /\
  Viewed.copyStringToWasm no_prims ∅ None example_views example_guest_memory
    (JString (lit "hi")) = Throw ExcTypeError.
Proof.
  split; [reflexivity|]. split; [reflexivity|].
  destruct (allocation_failure no_prims ∅ example_views example_guest_memory
              (JString (lit "hi")) (lit "hi") eq_refl eq_refl)
    as (H1 & H2 & _ & _ & (H5 & _) & _).
  split; [exact (H1 (Viewed.mkExports (Some (fixed_malloc 0))) (fixed_malloc 0)
                   eq_refl eq_refl)|].
  split; [exact (H2 (Viewed.mkExports (Some (fixed_malloc 0))) (fixed_malloc 0)
                   eq_refl eq_refl)|exact H5].
Defined.

(** A string that starts with U+FEFF loses it on the way back through the
    8-bit path, and an unpaired surrogate comes back as U+FFFD through the
    16-bit path, with the allocator present, the buffer left in place and
    the block inside the memory.  And with an allocator that grows the
    memory into a new buffer and does not report it, the 8-bit copy
    throws and the 16-bit copy writes nothing, so that zeros are read
    back. *)
Lemma string_roundtrip_counterexample :
  match Viewed.copyStringToWasm no_prims ∅
          (Some (Viewed.mkExports (Some (fixed_malloc 8))))
          example_views example_guest_memory (JString [0xFEFF; 0x61]) with
  | Normal (p, m', vw') =>
      p = 8 /\ Z.of_nat (length (TextEncoder_encode [0xFEFF; 0x61])) = 4 /\
      snd (Viewed.cStr vw' m' 8 4) = [0x61]
  | Throw _ => False
  end /\
  match Viewed.copyStringToWasmUtf16 no_prims ∅
          (Some (Viewed.mkExports (Some (fixed_malloc 8))))
          example_views example_guest_memory (JString [0xD800]) with
  | Normal (p, m', vw') => p = 8 /\ snd (Viewed.cStrUtf16 vw' m' 8 1) = [0xFFFD]
  | Throw _ => False
  end /\
  Viewed.copyStringToWasm no_prims ∅
    (Some (Viewed.mkExports (Some (growing_malloc false))))
    example_views example_guest_memory (JString (lit "hi")) = Throw ExcTypeError /\
  match Viewed.copyStringToWasmUtf16 no_prims ∅
          (Some (Viewed.mkExports (Some (growing_malloc false))))
          example_views example_guest_memory (JString (lit "hi")) with
  | Normal (p, m', vw') => p = 8 /\ snd (Viewed.cStrUtf16 vw' m' 8 2) = [0; 0]
  | Throw _ => False
  end.
Proof. split; [|split; [|split]]; vm_compute; repeat split. Qed.

(** C8 (amended) — String round-trip: let [s] be a string of 16-bit code
    units with every surrogate paired and not starting with U+FEFF, and
    let the allocator be exported.  When, asked for the bytes of the UTF-8
    encoding of [s] and its terminator, the allocator leaves the buffer of
    the memory in place or reports its growth, and answers inside the
    memory with a non-null pointer, [copyStringToWasm s] returns a pointer
    at which [cStr], given the length of the UTF-8 encoding of [s], reads
    [s] again.  And when, asked for the code units of [s] and their
    terminator, it does so with an even pointer, [copyStringToWasmUtf16 s]
    returns a pointer at which [cStrUtf16], given the length of [s], reads
    [s] again, code unit for code unit.  Each law needs its own
    allocation only. *)
Theorem string_roundtrip P hp ex g vw m s :
  Viewed.emlite_malloc ex = Some g ->
  code_units s = true -> isWellFormed s = true -> head s <> Some 0xFEFF ->
  (forall ptr m1 (notified : bool),
     g m (Z.of_nat (length (TextEncoder_encode (s ++ [0])))) = (ptr, m1, notified) ->
     buffer m1 = buffer m \/ notified = true ->
     0 < ptr ->
     ptr + Z.of_nat (length (TextEncoder_encode (s ++ [0])))
       <= Z.of_nat (length (contents m1)) ->
     exists p m2 vw2,
       Viewed.copyStringToWasm P hp (Some ex) vw m (JString s) = Normal (p, m2, vw2) /\
       (s <> [] -> p = ptr) /\
       snd (Viewed.cStr vw2 m2 p (Z.of_nat (length (TextEncoder_encode s)))) = s) /\
  (forall ptr m1 (notified : bool),
     g m ((Z.of_nat (length s) + 1) * 2) = (ptr, m1, notified) ->
     buffer m1 = buffer m \/ notified = true ->
     0 < ptr < 2 ^ 32 -> Z.rem ptr 2 = 0 ->
     ptr + (Z.of_nat (length s) + 1) * 2 <= Z.of_nat (length (contents m1)) ->
     exists p m2 vw2,
       Viewed.copyStringToWasmUtf16 P hp (Some ex) vw m (JString s) = Normal (p, m2, vw2) /\
       (s <> [] -> p = ptr) /\
       snd (Viewed.cStrUtf16 vw2 m2 p (Z.of_nat (length s))) = s).
Proof.
  intros Hex Hu Hwf Hh.
  destruct (decide (s = [])) as [->|Hne].
  { split; intros ptr m1 notified _ _ _; [intros _|intros _ _]; exists 0, m, vw.
    - split; [reflexivity|]. split; [done|].
      rewrite (proj1 (viewed_cStr _ _ _ _)). unfold cStr. simpl Z.of_nat.
      rewrite subarray_empty. reflexivity.
    - split; [reflexivity|]. split; [done|].
      rewrite (proj2 (viewed_cStr _ _ _ _)). unfold cStrUtf16. simpl Z.of_nat.
      change (0 * 2) with 0. rewrite subarray_empty. reflexivity. }
  split; intros ptr m1 notified Hg Hv Hp.
  - intros Hfit. rewrite (viewed_copy8 P hp ex g vw m s ptr m1 notified) by done.
    eexists _, _, _. split; [reflexivity|]. split; [done|].
    rewrite encode_nul, length_app in Hfit. simpl in Hfit.
    rewrite viewed_read8.
    + rewrite take_app_length. by apply TextDecoder_utf8_encode.
    + lia.
    + rewrite length_app. simpl. lia.
    + rewrite length_app. lia.
  - intros Hev Hfit. rewrite (viewed_copy16 P hp ex g vw m s ptr m1 notified) by done.
    eexists _, _, _. split; [reflexivity|]. split; [done|].
    assert (length (le_bytes s ++ [0; 0]) = (2 * length s + 2)%nat) as Hlen.
    { rewrite length_app, le_bytes_length. simpl. lia. }
    rewrite viewed_read16.
    + rewrite <- (le_bytes_length s), take_app_length.
      by apply TextDecoder_utf16le_bytes.
    + lia.
    + rewrite Hlen. lia.
    + rewrite Hlen. lia.
Qed.

Lemma string_roundtrip_witness :
  code_units example_string = true /\ isWellFormed example_string = true /\
  head example_string <> Some 0xFEFF /\
  (exists p m2 vw2,
     Viewed.copyStringToWasm no_prims ∅ (Some (Viewed.mkExports (Some (fixed_malloc 8))))
       example_views example_guest_memory (JString example_string) = Normal (p, m2, vw2) /\
     (example_string <> [] -> p = 8) /\
     snd (Viewed.cStr vw2 m2 p (Z.of_nat (length (TextEncoder_encode example_string))))
       = example_string) /\
  (exists p m2 vw2,
     Viewed.copyStringToWasmUtf16 no_prims ∅
       (Some (Viewed.mkExports (Some (fixed_malloc 8))))
       example_views example_guest_memory (JString example_string) = Normal (p, m2, vw2) /\
     (example_string <> [] -> p = 8) /\
     snd (Viewed.cStrUtf16 vw2 m2 p (Z.of_nat (length example_string))) = example_string).
Proof.
  assert (head example_string <> Some 0xFEFF) as Hbom by discriminate.
  assert (8 + Z.of_nat (length (TextEncoder_encode (example_string ++ [0])))
          <= Z.of_nat (length (contents example_guest_memory))) as Hfit8
    by (vm_compute; discriminate).
  assert (8 + (Z.of_nat (length example_string) + 1) * 2
          <= Z.of_nat (length (contents example_guest_memory))) as Hfit16
    by (vm_compute; discriminate).
  split; [reflexivity|]. split; [reflexivity|]. split; [exact Hbom|].
  destruct (string_roundtrip no_prims ∅ (Viewed.mkExports (Some (fixed_malloc 8)))
              (fixed_malloc 8) example_views example_guest_memory example_string
              eq_refl eq_refl eq_refl Hbom) as [H8 H16].
  split.
  - exact (H8 8 example_guest_memory false eq_refl (or_introl eq_refl) eq_refl Hfit8).
  - exact (H16 8 example_guest_memory false eq_refl (or_introl eq_refl)
             (conj eq_refl eq_refl) eq_refl Hfit16).
Defined.

(** * Dispatch failures *)

Lemma wf_example_table : wf example_table.
Proof.
  unfold example_table.
  destruct (add EMLITE_VALMAP0 (JObject 20%positive)) as [[h t]|] eqn:E;
    [|exact wf_init]. eapply wf_add; [exact wf_init|exact E].
Qed.

(** The older copy lets the throw through. *)
Lemma legacy_call_propagates call t hp e t1 hp1 :
  call t hp = (Threw e, t1, hp1) ->
  Legacy.finish_call call t hp = Throw (ExcValue e).
Proof. intros Hc. unfold Legacy.finish_call. rewrite Hc. reflexivity. Qed.

(** A thrown [Error] instance is registered as it is, with no cause
    attached; a thrown object that cannot be printed is replaced by an
    error that carries neither its message nor a cause; and in the older
    copy the throw leaves the operation. *)
Lemma dispatch_failure_counterexample :
  match emlite_val_func_call no_prims (throwing_dispatch (JObject 10%positive))
          example_table example_heap 4 7 with
  | Normal (h, t2, hp2) =>
      get t2 h = JObject 10%positive /\
      props_of hp2 (get t2 h) !! lit "message" = Some (Normal (JString (lit "boom"))) /\
      props_of hp2 (get t2 h) !! lit "cause" = None
  | Throw _ => False
  end /\
  match emlite_val_func_call unprintable_prims (throwing_dispatch (JObject 11%positive))
          example_table example_heap 4 7 with
  | Normal (h, t2, hp2) =>
      props_of hp2 (get t2 h) !! lit "message"
        = Some (Normal (JString (lit "Unknown JS exception"))) /\
      props_of hp2 (get t2 h) !! lit "cause" = None
  | Throw _ => False
  end /\
  Legacy.emlite_val_func_call (throwing_dispatch (JObject 10%positive))
    example_table example_heap 4 7 = Throw (ExcValue (JObject 10%positive)).
Proof. split; [|split]; vm_compute; repeat split. Qed.

(** C4 (amended) — Dispatch failure containment: when the argument array
    resolves and the host dispatch of [emlite_val_obj_call],
    [emlite_val_construct_new] or [emlite_val_func_call] throws [e], the
    operation returns normally with a handle whose value is [e]
    normalised: [e] itself when it is an [Error] instance; otherwise a new
    [Error] with message [String(e)], the [name] and [code] of [e] when
    [e] is an object having them, and [e] as its cause; or, when that
    conversion throws, a new [Error] saying "Unknown JS exception".  The
    three operations of the older copy, which have no catch, end in the
    throw of [e]. *)
Theorem dispatch_failure_contained P D mem t hp objRef mPtr mLen argvRef args e t1 hp1 :
  resolve_args t hp argvRef = Normal args -> wf t1 ->
  (host_apply_method D (get t objRef) (cStr mem mPtr mLen) args t hp = (Threw e, t1, hp1) ->
   exists h t2 hp2,
     emlite_val_obj_call P D mem t hp objRef mPtr mLen argvRef = Normal (h, t2, hp2) /\
     Normalized P hp1 e (get t2 h) hp2) /\
  (host_construct D (get t objRef) args t hp = (Threw e, t1, hp1) ->
   exists h t2 hp2,
     emlite_val_construct_new P D t hp objRef argvRef = Normal (h, t2, hp2) /\
     Normalized P hp1 e (get t2 h) hp2) /\
  (host_apply D (get t objRef) args t hp = (Threw e, t1, hp1) ->
   exists h t2 hp2,
     emlite_val_func_call P D t hp objRef argvRef = Normal (h, t2, hp2) /\
     Normalized P hp1 e (get t2 h) hp2) /\
  (host_apply_method D (get t objRef) (cStr mem mPtr mLen) args t hp = (Threw e, t1, hp1) ->
   Legacy.emlite_val_obj_call D mem t hp objRef mPtr mLen argvRef = Throw (ExcValue e)) /\
  (host_construct D (get t objRef) args t hp = (Threw e, t1, hp1) ->
   Legacy.emlite_val_construct_new D t hp objRef argvRef = Throw (ExcValue e)) /\
  (host_apply D (get t objRef) args t hp = (Threw e, t1, hp1) ->
   Legacy.emlite_val_func_call D t hp objRef argvRef = Throw (ExcValue e)).
Proof.
  intros Hargs W. repeat split; intros Hc.
  - unfold emlite_val_obj_call. rewrite Hargs. simpl.
    by apply (finish_call_threw P _ t hp e t1 hp1).
  - unfold emlite_val_construct_new. rewrite Hargs. simpl.
    by apply (finish_call_threw P _ t hp e t1 hp1).
  - unfold emlite_val_func_call. rewrite Hargs. simpl.
    by apply (finish_call_threw P _ t hp e t1 hp1).
  - unfold Legacy.emlite_val_obj_call. rewrite Hargs. simpl.
    by apply (legacy_call_propagates _ t hp e t1 hp1).
  - unfold Legacy.emlite_val_construct_new. rewrite Hargs. simpl.
    by apply (legacy_call_propagates _ t hp e t1 hp1).
  - unfold Legacy.emlite_val_func_call. rewrite Hargs. simpl.
    by apply (legacy_call_propagates _ t hp e t1 hp1).
Qed.

Lemma dispatch_failure_contained_witness :
  resolve_args example_table example_heap 7 = Normal [] /\ wf example_table /\
  (host_apply_method (throwing_dispatch (JString (lit "oops")))
     (get example_table 4) (cStr example_memory 0 0) [] example_table example_heap
   = (Threw (JString (lit "oops")), example_table, example_heap) ->
   exists h t2 hp2,
     emlite_val_obj_call no_prims (throwing_dispatch (JString (lit "oops")))
       example_memory example_table example_heap 4 0 0 7 = Normal (h, t2, hp2) /\
     Normalized no_prims example_heap (JString (lit "oops")) (get t2 h) hp2) /\
  (host_construct (throwing_dispatch (JString (lit "oops")))
     (get example_table 4) [] example_table example_heap
   = (Threw (JString (lit "oops")), example_table, example_heap) ->
   exists h t2 hp2,
     emlite_val_construct_new no_prims (throwing_dispatch (JString (lit "oops")))
       example_table example_heap 4 7 = Normal (h, t2, hp2) /\
     Normalized no_prims example_heap (JString (lit "oops")) (get t2 h) hp2) /\
  (host_apply (throwing_dispatch (JString (lit "oops")))
     (get example_table 4) [] example_table example_heap
   = (Threw (JString (lit "oops")), example_table, example_heap) ->
   exists h t2 hp2,
     emlite_val_func_call no_prims (throwing_dispatch (JString (lit "oops")))
       example_table example_heap 4 7 = Normal (h, t2, hp2) /\
     Normalized no_prims example_heap (JString (lit "oops")) (get t2 h) hp2) /\
  (host_apply_method (throwing_dispatch (JString (lit "oops")))
     (get example_table 4) (cStr example_memory 0 0) [] example_table example_heap
   = (Threw (JString (lit "oops")), example_table, example_heap) ->
   Legacy.emlite_val_obj_call (throwing_dispatch (JString (lit "oops")))
     example_memory example_table example_heap 4 0 0 7
   = Throw (ExcValue (JString (lit "oops")))) /\
  (host_construct (throwing_dispatch (JString (lit "oops")))
     (get example_table 4) [] example_table example_heap
   = (Threw (JString (lit "oops")), example_table, example_heap) ->
   Legacy.emlite_val_construct_new (throwing_dispatch (JString (lit "oops")))
     example_table example_heap 4 7 = Throw (ExcValue (JString (lit "oops")))) /\
  (host_apply (throwing_dispatch (JString (lit "oops")))
     (get example_table 4) [] example_table example_heap
   = (Threw (JString (lit "oops")), example_table, example_heap) ->
   Legacy.emlite_val_func_call (throwing_dispatch (JString (lit "oops")))
     example_table example_heap 4 7 = Throw (ExcValue (JString (lit "oops")))).
Proof.
  split; [vm_compute; reflexivity|]. split; [exact wf_example_table|].
  exact (dispatch_failure_contained no_prims (throwing_dispatch (JString (lit "oops")))
           example_memory example_table example_heap 4 0 0 7 []
           (JString (lit "oops")) example_table example_heap
           eq_refl wf_example_table).
Defined.

(** * Stale handles *)

(** C10 — A handle without a live entry reads as [undefined], the value
    reserved handle 1 holds on every reachable table; so each extraction
    and each predicate of the bridge gives, for a stale handle, what it
    gives for handle 1, and so does whatever else looks at the handle
    through [get] only. *)
Theorem stale_handle_reads_undefined P hp ex mem t h other :
  reachable t -> _h2e t !! h = None ->
  get t h = JUndefined /\
  get t 1 = JUndefined /\ is_Some (_h2e t !! 1) /\
  emlite_val_get_value_int P hp t h = emlite_val_get_value_int P hp t 1 /\
  emlite_val_get_value_uint P hp t h = emlite_val_get_value_uint P hp t 1 /\
  emlite_val_get_value_bigint P hp t h = emlite_val_get_value_bigint P hp t 1 /\
  emlite_val_get_value_biguint P hp t h = emlite_val_get_value_biguint P hp t 1 /\
  emlite_val_get_value_double P hp t h = emlite_val_get_value_double P hp t 1 /\
  emlite_val_get_value_bool t h = emlite_val_get_value_bool t 1 /\
  emlite_val_get_value_string P hp ex mem t h
    = emlite_val_get_value_string P hp ex mem t 1 /\
  emlite_val_get_value_string_utf16 P hp ex mem t h
    = emlite_val_get_value_string_utf16 P hp ex mem t 1 /\
  emlite_val_typeof P hp ex mem t h = emlite_val_typeof P hp ex mem t 1 /\
  emlite_val_not t h = emlite_val_not t 1 /\
  emlite_val_is_string hp t h = emlite_val_is_string hp t 1 /\
  emlite_val_is_number hp t h = emlite_val_is_number hp t 1 /\
  emlite_val_is_bool hp t h = emlite_val_is_bool hp t 1 /\
  emlite_val_strictly_equals t h other = emlite_val_strictly_equals t 1 other /\
  emlite_val_strictly_equals t other h = emlite_val_strictly_equals t other 1 /\
  (forall (A : Type) (op : JsValue -> A), op (get t h) = op (get t 1)).
Proof.
  intros R Hstale.
  assert (get t h = JUndefined) as Hh by (by apply get_absent).
  destruct (reachable_reserved t R 1%nat JUndefined eq_refl) as [H1 Hlive].
  change (Z.of_nat 1) with 1 in *.
  split; [exact Hh|]. split; [exact H1|]. split; [exact Hlive|].
  unfold emlite_val_get_value_int, emlite_val_get_value_uint,
    emlite_val_get_value_bigint, emlite_val_get_value_biguint,
    emlite_val_get_value_double, emlite_val_get_value_bool,
    emlite_val_get_value_string, emlite_val_get_value_string_utf16,
    emlite_val_typeof, emlite_val_not, emlite_val_is_string, emlite_val_is_number,
    emlite_val_is_bool, emlite_val_strictly_equals.
  rewrite Hh, H1. repeat split; reflexivity.
Qed.

Lemma stale_handle_reads_undefined_witness :
  reachable EMLITE_VALMAP0 /\ _h2e EMLITE_VALMAP0 !! 99 = None /\
  get EMLITE_VALMAP0 99 = JUndefined /\
  get EMLITE_VALMAP0 1 = JUndefined /\ is_Some (_h2e EMLITE_VALMAP0 !! 1) /\
  emlite_val_get_value_int no_prims ∅ EMLITE_VALMAP0 99
    = emlite_val_get_value_int no_prims ∅ EMLITE_VALMAP0 1.
Proof.
  split; [exact reach_init|]. split; [reflexivity|].
  pose proof (stale_handle_reads_undefined no_prims ∅ example_exports example_memory
                EMLITE_VALMAP0 99 0 reach_init eq_refl) as H.
  destruct H as (H1 & H2 & H3 & H4 & _). auto.
Defined.

(** * Further properties of the handle table *)

Lemma key_eq_not_zero v w :
  key v = key w -> is_zero_number w = false -> v = w.
Proof.
  destruct v as [| | |[[]| | |]| | | |], w as [| | |[[]| | |]| | | |];
    simpl; intros H Hz; try discriminate; exact H.
Qed.

Lemma has_true t v : has t v = true <-> is_Some (_v2h t !! key v).
Proof. unfold has. apply bool_decide_eq_true. Qed.

Lemma has_false t v : has t v = false <-> _v2h t !! key v = None.
Proof.
  unfold has. rewrite bool_decide_eq_false, <- eq_None_not_Some. reflexivity.
Qed.

(** X2 — The invariant of the table: on every table the bridge can reach,
    each live entry has at least one reference, a handle below the counter
    and the reverse index pointing back at it; each key of the reverse index
    has a live entry holding a value with that key; no two handles hold the
    same value; and [has] answers exactly for the values some live handle
    holds. *)
Theorem reachable_table_invariant t :
  reachable t ->
  (forall h e, _h2e t !! h = Some e ->
     _v2h t !! key (value e) = Some h /\ 1 <= refs e /\ 0 <= h < _next t) /\
  (forall k h, _v2h t !! k = Some h ->
     exists e, _h2e t !! h = Some e /\ key (value e) = k) /\
  (forall h1 h2 e1 e2,
     _h2e t !! h1 = Some e1 -> _h2e t !! h2 = Some e2 ->
     SameValueZero (value e1) (value e2) -> h1 = h2) /\
  (forall v, has t v = true <->
     exists h e, _h2e t !! h = Some e /\ SameValueZero (value e) v).
Proof.
  intros R. pose proof (reachable_wf t R) as [F B N N0 Rf].
  split; [|split; [|split]].
  - intros h e He. split; [eauto|]. split; eauto.
  - exact B.
  - intros h1 h2 e1 e2 H1 H2 Hs. apply F in H1, H2. unfold SameValueZero in Hs.
    rewrite Hs in H1. congruence.
  - intros v. rewrite has_true. split.
    + intros [h Hh]. destruct (B _ _ Hh) as (e & He & Hk). eauto.
    + intros (h & e & He & Hs). apply F in He. unfold SameValueZero in Hs.
      rewrite Hs in He. eauto.
Qed.

Lemma reachable_table_invariant_witness :
  reachable scenario_table /\
  (forall h e, _h2e scenario_table !! h = Some e ->
     _v2h scenario_table !! key (value e) = Some h /\ 1 <= refs e
     /\ 0 <= h < _next scenario_table) /\
  (forall k h, _v2h scenario_table !! k = Some h ->
     exists e, _h2e scenario_table !! h = Some e /\ key (value e) = k) /\
  (forall h1 h2 e1 e2,
     _h2e scenario_table !! h1 = Some e1 -> _h2e scenario_table !! h2 = Some e2 ->
     SameValueZero (value e1) (value e2) -> h1 = h2) /\
  (forall v, has scenario_table v = true <->
     exists h e, _h2e scenario_table !! h = Some e /\ SameValueZero (value e) v).
Proof.
  split; [exact scenario_reachable|].
  exact (reachable_table_invariant scenario_table scenario_reachable).
Defined.

(** X3 — Registering and reading back: on a well-formed table [add] never
    throws; the handle it returns is live and reads as a value with the
    key of the argument, which is the argument itself unless that is a
    zero (a stored zero of the other sign is what comes back then); and
    [has] holds for the value afterwards. *)
Theorem add_then_get t v :
  wf t ->
  exists h t',
    add t v = Normal (h, t') /\
    is_Some (_h2e t' !! h) /\
    SameValueZero (get t' h) v /\
    (is_zero_number v = false -> get t' h = v) /\
    has t' v = true /\
    toValue t' h = get t' h /\ toHandle t v = add t v.
Proof.
  intros W. destruct (add_total t v W) as (h & t' & Hadd). exists h, t'.
  pose proof (add_get_key t v h t' W Hadd) as Hk.
  split; [exact Hadd|].
  assert (is_Some (_h2e t' !! h) /\ _v2h t' !! key v = Some h) as [Hlive Hrev].
  { revert Hadd. unfold add. destruct (_v2h t !! key v) as [h0|] eqn:Hv.
    - destruct (_h2e t !! h0) as [e|] eqn:He; [|discriminate].
      intros [= <- <-]. simpl. rewrite lookup_insert_eq. eauto.
    - intros [= <- <-]. simpl. rewrite !lookup_insert_eq. eauto. }
  split; [exact Hlive|]. split; [exact Hk|].
  split; [intros Hz; by apply key_eq_not_zero|].
  split; [apply has_true; eauto|]. split; reflexivity.
Qed.

Lemma add_then_get_witness :
  wf EMLITE_VALMAP0 /\
  exists h t',
    add EMLITE_VALMAP0 (JString [104; 105]) = Normal (h, t') /\
    is_Some (_h2e t' !! h) /\
    SameValueZero (get t' h) (JString [104; 105]) /\
    (is_zero_number (JString [104; 105]) = false -> get t' h = JString [104; 105]) /\
    has t' (JString [104; 105]) = true /\
    toValue t' h = get t' h /\
    toHandle EMLITE_VALMAP0 (JString [104; 105]) = add EMLITE_VALMAP0 (JString [104; 105]).
Proof.
  split; [exact wf_init|].
  exact (add_then_get EMLITE_VALMAP0 (JString [104; 105]) wf_init).
Defined.

(** The sign of a zero is that of the first one registered: after [+0],
    registering [-0] reads back [+0]. *)
Example negative_zero_reads_positive :
  match add EMLITE_VALMAP0 (JNumber (S754_zero false)) with
  | Normal (_, t1) =>
      match add t1 (JNumber (S754_zero true)) with
      | Normal (h, t2) => get t2 h = JNumber (S754_zero false)
      | Throw _ => False
      end
  | Throw _ => False
  end.
Proof. vm_compute. reflexivity. Qed.

(** ** Stability of handles over a run *)

Lemma wf_table_step t t' : wf t -> table_step t t' -> wf t'.
Proof.
  intros W S. revert W. destruct S as [t0 v h t1 H|t0 h|t0 h|t0 t1 H]; intros W.
  - exact (wf_add _ _ _ _ W H).
  - by apply wf_incRef.
  - by apply wf_dec_ref.
  - exact (wf_reset _ _ W H).
Qed.

Lemma next_table_step t t' : table_step t t' -> _next t <= _next t'.
Proof.
  intros [t0 v h t1 H|t0 h|t0 h|t0 t1 H].
  - revert H. unfold add. destruct (_v2h t0 !! key v) as [h0|].
    + destruct (_h2e t0 !! h0); [|discriminate]. intros [= <- <-]. simpl. lia.
    + intros [= <- <-]. simpl. lia.
  - unfold emlite_val_inc_ref, incRef. destruct (_h2e t0 !! h); simpl; lia.
  - unfold emlite_val_dec_ref, decRef. destruct (6 <? h); [|lia].
    destruct (_h2e t0 !! h); [|simpl; lia].
    destruct (_ =? 0); simpl; lia.
  - destruct (reset_above_spec 6 t0) as (t2 & H2 & Hn & _).
    unfold emlite_reset_object_map in H. rewrite H2 in H. injection H as <-. lia.
Qed.

(** Whatever a handle below the counter holds after a step, it held
    before it. *)
Lemma table_step_backward t t' h e' :
  wf t -> table_step t t' -> h < _next t -> _h2e t' !! h = Some e' ->
  exists e, _h2e t !! h = Some e /\ value e' = value e.
Proof.
  intros W S. revert W.
  destruct S as [t0 v k t1 H|t0 k|t0 k|t0 t1 H]; intros W Hh He'.
  - revert H He'. unfold add. destruct (_v2h t0 !! key v) as [h0|].
    + destruct (_h2e t0 !! h0) as [e0|] eqn:E0; [|discriminate].
      intros [= <- <-]. simpl. destruct (decide (h0 = h)) as [->|Hne].
      * rewrite lookup_insert_eq. intros [= <-]. eauto.
      * rewrite lookup_insert_ne by done. eauto.
    + intros [= <- <-]. simpl. rewrite lookup_insert_ne by lia. eauto.
  - revert He'. unfold emlite_val_inc_ref, incRef.
    destruct (_h2e t0 !! k) as [e0|] eqn:E0; [|eauto]. simpl.
    destruct (decide (k = h)) as [->|Hne].
    + rewrite lookup_insert_eq. intros [= <-]. eauto.
    + rewrite lookup_insert_ne by done. eauto.
  - revert He'. unfold emlite_val_dec_ref, decRef. destruct (6 <? k); [|eauto].
    destruct (_h2e t0 !! k) as [e0|] eqn:E0; [|eauto].
    destruct (_ =? 0); simpl.
    + destruct (decide (k = h)) as [->|Hne].
      * by rewrite lookup_delete_eq.
      * rewrite lookup_delete_ne by done. eauto.
    + destruct (decide (k = h)) as [->|Hne].
      * rewrite lookup_insert_eq. intros [= <-]. eauto.
      * rewrite lookup_insert_ne by done. eauto.
  - destruct (reset_above_spec 6 t0) as (t2 & H2 & _ & Hl & _).
    unfold emlite_reset_object_map in H. rewrite H2 in H. injection H as <-.
    rewrite Hl in He'. case_bool_decide; [discriminate|eauto].
Qed.

Lemma rtc_table_step_backward t t' h :
  wf t -> rtc table_step t t' -> h < _next t ->
  wf t' /\ _next t <= _next t' /\
  forall e', _h2e t' !! h = Some e' ->
    exists e, _h2e t !! h = Some e /\ value e' = value e.
Proof.
  intros W R Hh. revert t' R.
  apply (rtc_ind_r (fun t' => wf t' /\ _next t <= _next t' /\
           forall e', _h2e t' !! h = Some e' ->
             exists e, _h2e t !! h = Some e /\ value e' = value e)).
  - split; [done|]. split; [lia|]. eauto.
  - intros y z S R IH. destruct IH as (Wy & Hn & IH). split; [eapply wf_table_step; eauto|].
    pose proof (next_table_step _ _ R). split; [lia|].
    intros e' He'.
    destruct (table_step_backward y z h e' Wy R ltac:(lia) He') as (e1 & H1 & Hv).
    destruct (IH _ H1) as (e & He & Hv'). exists e. split; [done|congruence].
Qed.

(** X4 — A handle number means one value for ever.  Over any run of
    registrations, reference-count calls and resets, a handle below the
    counter that has no entry never gets one again (numbers are not
    reused, so a stale handle cannot come to name a later value), and a
    handle that is live at the end held the same value at the start: [get]
    gives either what it gave before or [undefined]. *)
Theorem handle_meaning_is_stable t t' h :
  wf t -> rtc table_step t t' -> h < _next t ->
  (_h2e t !! h = None -> _h2e t' !! h = None /\ get t' h = JUndefined) /\
  (forall e', _h2e t' !! h = Some e' ->
     exists e, _h2e t !! h = Some e /\ value e' = value e) /\
  (get t' h = get t h \/ get t' h = JUndefined) /\
  _next t <= _next t'.
Proof.
  intros W R Hh. destruct (rtc_table_step_backward t t' h W R Hh) as (_ & Hn & Hb).
  assert (_h2e t !! h = None -> _h2e t' !! h = None) as Hdead.
  { intros HN. destruct (_h2e t' !! h) as [e'|] eqn:E; [|done].
    destruct (Hb _ eq_refl) as (e & He & _). congruence. }
  split. { intros HN. split; [auto|]. apply get_absent; auto. }
  split; [exact Hb|]. split; [|exact Hn].
  unfold get. destruct (_h2e t' !! h) as [e'|] eqn:E; [|by right].
  destruct (Hb _ eq_refl) as (e & -> & Hv). by left.
Qed.

Lemma handle_meaning_is_stable_witness :
  wf EMLITE_VALMAP0 /\
  rtc table_step EMLITE_VALMAP0
    (emlite_val_dec_ref (emlite_val_inc_ref EMLITE_VALMAP0 3) 9) /\
  3 < _next EMLITE_VALMAP0 /\
  (get (emlite_val_dec_ref (emlite_val_inc_ref EMLITE_VALMAP0 3) 9) 3
     = get EMLITE_VALMAP0 3 \/
   get (emlite_val_dec_ref (emlite_val_inc_ref EMLITE_VALMAP0 3) 9) 3 = JUndefined).
Proof.
  assert (rtc table_step EMLITE_VALMAP0
            (emlite_val_dec_ref (emlite_val_inc_ref EMLITE_VALMAP0 3) 9)) as R.
  { eapply rtc_l; [apply step_inc_ref|]. apply rtc_once, step_dec_ref. }
  split; [exact wf_init|]. split; [exact R|]. split; [reflexivity|].
  exact (proj1 (proj2 (proj2
    (handle_meaning_is_stable EMLITE_VALMAP0 _ 3 wf_init R eq_refl)))).
Defined.

(** ** Allocation and eviction *)

(** X5 — What [add] does to the table: every other handle's entry is left
    as it is; and either the value was held, and its entry's count grows
    by one while counter and size stay, or it was not, and the value gets
    the counter's number, above every live handle, with count one, and
    counter and size grow by one. *)
Theorem add_known_or_fresh t v h t' :
  wf t -> add t v = Normal (h, t') ->
  (forall h0, h0 <> h -> _h2e t' !! h0 = _h2e t !! h0) /\
  ((exists e, _h2e t !! h = Some e /\ SameValueZero (value e) v /\
      has t v = true /\
      _h2e t' !! h = Some (mkEntry (value e) (refs e + 1)) /\
      _next t' = _next t /\ table_size t' = table_size t)
   \/
   (has t v = false /\ h = _next t /\
      (forall h0, is_Some (_h2e t !! h0) -> h0 < h) /\
      _h2e t' !! h = Some (mkEntry v 1) /\
      _next t' = _next t + 1 /\ table_size t' = S (table_size t))).
Proof.
  intros W. unfold add. destruct (_v2h t !! key v) as [h0|] eqn:Hv.
  - destruct (wf_bwd _ W _ _ Hv) as (e & He & Hk). rewrite He.
    intros [= <- <-]. simpl. split.
    { intros h1 Hne. by rewrite lookup_insert_ne. }
    left. exists e. split; [done|]. split; [exact Hk|].
    split; [apply has_true; eauto|]. rewrite lookup_insert_eq.
    split; [done|]. split; [done|]. unfold table_size. simpl.
    apply map_size_insert_Some. eauto.
  - intros [= <- <-]. simpl. split.
    { intros h1 Hne. by rewrite lookup_insert_ne. }
    right. split; [by apply has_false|]. split; [done|].
    assert (forall h0, is_Some (_h2e t !! h0) -> h0 < _next t) as Hlt.
    { intros h0 [e He]. apply (wf_next _ W) in He. lia. }
    split; [exact Hlt|]. rewrite lookup_insert_eq. split; [done|].
    split; [done|]. unfold table_size. simpl. apply map_size_insert_None.
    destruct (_h2e t !! _next t) eqn:E; [|done].
    specialize (Hlt (_next t) ltac:(eauto)). lia.
Qed.

Lemma add_known_or_fresh_witness :
  wf EMLITE_VALMAP0 /\
  add EMLITE_VALMAP0 (JBool true)
    = Normal (3, emlite_val_inc_ref EMLITE_VALMAP0 3) /\
  (forall h0, h0 <> 3 ->
     _h2e (emlite_val_inc_ref EMLITE_VALMAP0 3) !! h0 = _h2e EMLITE_VALMAP0 !! h0).
Proof.
  assert (add EMLITE_VALMAP0 (JBool true)
          = Normal (3, emlite_val_inc_ref EMLITE_VALMAP0 3)) as H by reflexivity.
  split; [exact wf_init|]. split; [exact H|].
  exact (proj1 (add_known_or_fresh EMLITE_VALMAP0 (JBool true) 3 _ wf_init H)).
Defined.

Lemma inc_then_dec t h :
  wf t -> 6 < h -> emlite_val_dec_ref (emlite_val_inc_ref t h) h = t.
Proof.
  intros W Hh. unfold emlite_val_dec_ref, emlite_val_inc_ref.
  destruct (Z.ltb_spec 6 h); [|lia]. unfold incRef.
  destruct (_h2e t !! h) as [e|] eqn:He.
  - unfold decRef. simpl. rewrite lookup_insert_eq. simpl.
    pose proof (wf_refs _ W _ _ He).
    destruct (Z.eqb_spec (refs e + 1 - 1) 0); [lia|]. simpl.
    destruct t as [m r n']. simpl in *. f_equal.
    rewrite insert_insert_eq. apply insert_id. rewrite He. destruct e. simpl.
    f_equal. f_equal. lia.
  - unfold decRef. rewrite He. reflexivity.
Qed.

(** X6 — Balanced counting: on a well-formed table, [n] calls of
    [emlite_val_inc_ref h] followed by [n] calls of [emlite_val_dec_ref h]
    on a handle above the reserved range give back the very table, both
    indices and the counter, whether or not the handle is live. *)
Theorem inc_dec_balanced t h (n : nat) :
  wf t -> 6 < h ->
  Nat.iter n (fun t => emlite_val_dec_ref t h)
    (Nat.iter n (fun t => emlite_val_inc_ref t h) t) = t.
Proof.
  intros W Hh. revert t W. induction n as [|n IH]; intros t W; [reflexivity|].
  rewrite (Nat.iter_succ_r n (fun t0 => emlite_val_inc_ref t0 h)).
  rewrite (Nat.iter_succ n (fun t0 => emlite_val_dec_ref t0 h)).
  rewrite IH by (by apply wf_incRef). by apply inc_then_dec.
Qed.

Lemma inc_dec_balanced_witness :
  wf scenario_table /\ 6 < 20 /\
  Nat.iter 3 (fun t => emlite_val_dec_ref t 20)
    (Nat.iter 3 (fun t => emlite_val_inc_ref t 20) scenario_table) = scenario_table.
Proof.
  split; [exact (reachable_wf _ scenario_reachable)|]. split; [lia|].
  apply (inc_dec_balanced scenario_table 20 3 (reachable_wf _ scenario_reachable)).
  lia.
Defined.

(** X7 — Dropping a reference: on a well-formed table, for a live handle
    above the reserved range, [emlite_val_dec_ref] with more than one
    reference left only lowers the count; with the last reference it
    removes the entry and the value from the reverse index, so that the
    handle reads [undefined], the table is one entry smaller, and
    registering the value again gives it the counter's number, never the
    old handle. *)
Theorem dec_ref_semantics t h e :
  wf t -> 6 < h -> _h2e t !! h = Some e ->
  (1 < refs e ->
     _h2e (emlite_val_dec_ref t h) !! h = Some (mkEntry (value e) (refs e - 1)) /\
     has (emlite_val_dec_ref t h) (value e) = true /\
     table_size (emlite_val_dec_ref t h) = table_size t) /\
  (refs e = 1 ->
     _h2e (emlite_val_dec_ref t h) !! h = None /\
     get (emlite_val_dec_ref t h) h = JUndefined /\
     has (emlite_val_dec_ref t h) (value e) = false /\
     S (table_size (emlite_val_dec_ref t h)) = table_size t /\
     exists t'', add (emlite_val_dec_ref t h) (value e) = Normal (_next t, t'') /\
                 _next t <> h /\ get t'' (_next t) = value e) /\
  (1 < refs e \/ refs e = 1).
Proof.
  intros W Hh He. unfold emlite_val_dec_ref. destruct (Z.ltb_spec 6 h); [|lia].
  unfold decRef. rewrite He. split; [|split].
  - intros Hr. destruct (Z.eqb_spec (refs e - 1) 0); [lia|]. simpl.
    rewrite lookup_insert_eq. split; [done|].
    split. { apply has_true. simpl. rewrite (wf_fwd _ W _ _ He). eauto. }
    unfold table_size. simpl. apply map_size_insert_Some. eauto.
  - intros Hr. rewrite Hr. simpl.
    rewrite lookup_delete_eq. split; [done|].
    split. { apply get_absent. simpl. apply lookup_delete_eq. }
    split. { apply has_false. simpl. apply lookup_delete_eq. }
    split. { unfold table_size. simpl.
             rewrite map_size_delete_Some by eauto.
             assert (size (_h2e t) <> 0)%nat; [|lia].
             apply map_size_ne_0_lookup. eauto. }
    unfold add. simpl. rewrite lookup_delete_eq. eexists. split; [reflexivity|].
    split. { apply (wf_next _ W) in He. lia. }
    unfold get. simpl. by rewrite lookup_insert_eq.
  - pose proof (wf_refs _ W _ _ He). lia.
Qed.

Lemma dec_ref_semantics_witness :
  wf scenario_table /\ 6 < 20 /\
  _h2e scenario_table !! 20 = Some (mkEntry (JBigInt 20) 1) /\
  _h2e (emlite_val_dec_ref scenario_table 20) !! 20 = None /\
  get (emlite_val_dec_ref scenario_table 20) 20 = JUndefined.
Proof.
  assert (_h2e scenario_table !! 20 = Some (mkEntry (JBigInt 20) 1)) as He
    by (vm_compute; reflexivity).
  split; [exact (reachable_wf _ scenario_reachable)|]. split; [lia|].
  split; [exact He|].
  destruct (dec_ref_semantics scenario_table 20 _
              (reachable_wf _ scenario_reachable) ltac:(lia) He) as (_ & H & _).
  destruct (H eq_refl) as (H1 & H2 & _). split; [exact H1|exact H2].
Defined.

(** ** After a reset *)

Lemma reserved_not_zero v : v ∈ reserved_values -> is_zero_number v = false.
Proof.
  unfold reserved_values. rewrite !elem_of_cons, elem_of_nil.
  intros [->|[->|[->|[->|[->|[->|[->|[]]]]]]]]; reflexivity.
Qed.

(** X8 — What a reset leaves: on every reachable table the reset gives a
    reachable table whose live handles are exactly [0..6], seven entries,
    each with the entry (value and count) it had before; and [has] is
    true exactly for the seven reserved singletons. *)
Theorem reset_leaves_reserved t :
  reachable t ->
  exists t',
    emlite_reset_object_map t = Normal t' /\
    reachable t' /\
    (forall h, is_Some (_h2e t' !! h) <-> 0 <= h <= 6) /\
    (forall h, h <= 6 -> _h2e t' !! h = _h2e t !! h) /\
    table_size t' = 7%nat /\
    (forall v, has t' v = true <-> v ∈ reserved_values).
Proof.
  intros R. destruct (reset_above_spec 6 t) as (t' & Hr & Hn & Hl & Hw).
  assert (reachable t') as R' by (eapply reach_reset; eauto).
  pose proof (reachable_wf _ R') as W'. pose proof (reachable_reserved _ R') as Res'.
  assert (forall h, is_Some (_h2e t' !! h) <-> 0 <= h <= 6) as Hlive.
  { intros h. split.
    - intros [e He]. pose proof (wf_next _ W' _ _ He).
      rewrite Hl in He. case_bool_decide; [discriminate|lia].
    - intros Hh.
      destruct (lookup_lt_is_Some_2 reserved_values (Z.to_nat h)) as [v Hv].
      { simpl. lia. }
      destruct (Res' _ _ Hv) as [_ Hs]. by rewrite Z2Nat.id in Hs by lia. }
  exists t'. split; [exact Hr|]. split; [exact R'|]. split; [exact Hlive|].
  split. { intros h Hh. rewrite Hl. by rewrite bool_decide_eq_false_2 by lia. }
  split.
  { unfold table_size. rewrite <- (size_dom (D := gset Z)).
    assert (dom (_h2e t') = list_to_set [0; 1; 2; 3; 4; 5; 6] :> gset Z) as ->.
    { apply set_eq. intros h. rewrite elem_of_dom, Hlive, elem_of_list_to_set.
      rewrite !elem_of_cons, elem_of_nil. lia. }
    reflexivity. }
  intros v. rewrite has_true. split.
  - intros [h Hh]. destruct (wf_bwd _ W' _ _ Hh) as (e & He & Hk).
    assert (0 <= h <= 6) as Hr6 by (apply Hlive; eauto).
    destruct (lookup_lt_is_Some_2 reserved_values (Z.to_nat h)) as [w Hw'].
    { simpl. lia. }
    destruct (Res' _ _ Hw') as [Hg _]. rewrite Z2Nat.id in Hg by lia.
    rewrite (get_lookup _ _ _ He) in Hg. subst w.
    apply list_elem_of_lookup_2 in Hw'.
    symmetry in Hk. apply key_eq_not_zero in Hk; [by subst|].
    by apply reserved_not_zero.
  - intros Hv. apply list_elem_of_lookup_1 in Hv as [i Hi].
    destruct (Res' _ _ Hi) as [Hg [e He]].
    rewrite (get_lookup _ _ _ He) in Hg. subst v.
    rewrite (wf_fwd _ W' _ _ He). eauto.
Qed.

Lemma reset_leaves_reserved_witness :
  reachable scenario_table /\
  table_size scenario_table = 51%nat /\
  exists t',
    emlite_reset_object_map scenario_table = Normal t' /\
    reachable t' /\
    (forall h, is_Some (_h2e t' !! h) <-> 0 <= h <= 6) /\
    (forall h, h <= 6 -> _h2e t' !! h = _h2e scenario_table !! h) /\
    table_size t' = 7%nat /\
    (forall v, has t' v = true <-> v ∈ reserved_values).
Proof.
  split; [exact scenario_reachable|]. split; [vm_compute; reflexivity|].
  exact (reset_leaves_reserved scenario_table scenario_reachable).
Defined.

(** * Further properties of the numeric constructors and extractors *)

Lemma add_reserved t (i : nat) v :
  reachable t -> reserved_values !! i = Some v ->
  exists t', add t v = Normal (Z.of_nat i, t') /\ _next t' = _next t /\
             table_size t' = table_size t /\ get t' (Z.of_nat i) = v.
Proof.
  intros R Hi. destruct (reachable_reserved t R i v Hi) as [Hg [e He]].
  rewrite (get_lookup _ _ _ He) in Hg.
  pose proof (wf_fwd _ (reachable_wf t R) _ _ He) as Hf. rewrite Hg in Hf.
  unfold add. rewrite Hf, He. eexists. split; [reflexivity|]. simpl.
  split; [reflexivity|].
  split. { unfold table_size. simpl. apply map_size_insert_Some. eauto. }
  unfold get. simpl. by rewrite lookup_insert_eq.
Qed.

(** X9 — The reserved singletons keep their handles: on every reachable
    table, registering [null], [undefined], [false], [true], [globalThis],
    [console] or the marker returns its reserved handle [0..6] and
    allocates nothing.  So [emlite_val_make_bool] always answers 2 or 3,
    [emlite_val_get_value_bool] of its handle is the truth value it was
    given, and releasing that handle changes nothing. *)
Theorem reserved_values_keep_handles (hp : Heap) t :
  reachable t ->
  (forall (i : nat) v, reserved_values !! i = Some v ->
     exists t', add t v = Normal (Z.of_nat i, t') /\ _next t' = _next t /\
                table_size t' = table_size t) /\
  (forall d, exists t',
     emlite_val_make_bool t d = Normal (if number_truthy d then 3 else 2, t') /\
     _next t' = _next t /\ table_size t' = table_size t /\
     emlite_val_get_value_bool t' (if number_truthy d then 3 else 2)
       = (if number_truthy d then 1 else 0) /\
     emlite_val_is_bool hp t' (if number_truthy d then 3 else 2) = 1 /\
     emlite_val_dec_ref t' (if number_truthy d then 3 else 2) = t').
Proof.
  intros R. split.
  - intros i v Hi. destruct (add_reserved t i v R Hi) as (t' & H & Hn & Hs & _).
    eauto.
  - intros d. unfold emlite_val_make_bool, emlite_val_get_value_bool, emlite_val_is_bool.
    destruct (number_truthy d).
    + destruct (add_reserved t 3 (JBool true) R eq_refl) as (t' & H & Hn & Hs & Hg).
      change (Z.of_nat 3) with 3 in *. exists t'. rewrite Hg.
      split; [exact H|]. split; [exact Hn|]. split; [exact Hs|].
      split; [reflexivity|]. split; [reflexivity|]. by apply dec_ref_reserved.
    + destruct (add_reserved t 2 (JBool false) R eq_refl) as (t' & H & Hn & Hs & Hg).
      change (Z.of_nat 2) with 2 in *. exists t'. rewrite Hg.
      split; [exact H|]. split; [exact Hn|]. split; [exact Hs|].
      split; [reflexivity|]. split; [reflexivity|]. by apply dec_ref_reserved.
Qed.

Lemma reserved_values_keep_handles_witness :
  reachable scenario_table /\
  (forall d, exists t',
     emlite_val_make_bool scenario_table d
       = Normal (if number_truthy d then 3 else 2, t') /\
     _next t' = _next scenario_table /\ table_size t' = table_size scenario_table /\
     emlite_val_get_value_bool t' (if number_truthy d then 3 else 2)
       = (if number_truthy d then 1 else 0) /\
     emlite_val_is_bool ∅ t' (if number_truthy d then 3 else 2) = 1 /\
     emlite_val_dec_ref t' (if number_truthy d then 3 else 2) = t').
Proof.
  split; [exact scenario_reachable|].
  exact (proj2 (reserved_values_keep_handles ∅ scenario_table scenario_reachable)).
Defined.

Lemma ToInt32_range d : - 2 ^ 31 <= ToInt32 d < 2 ^ 31.
Proof.
  unfold ToInt32. pose proof (Z.mod_pos_bound (truncate d) (2 ^ 32) ltac:(lia)).
  destruct (Z.leb_spec (2 ^ 31) (truncate d mod 2 ^ 32)); lia.
Qed.

Lemma ToUint32_range d : 0 <= ToUint32 d < 2 ^ 32.
Proof. unfold ToUint32. apply Z.mod_pos_bound. lia. Qed.

Lemma ToInt32_mod d : ToInt32 d mod 2 ^ 32 = ToUint32 d.
Proof.
  unfold ToInt32, ToUint32.
  pose proof (Z.mod_pos_bound (truncate d) (2 ^ 32) ltac:(lia)).
  destruct (Z.leb_spec (2 ^ 31) (truncate d mod 2 ^ 32)).
  - rewrite <- (Z.mod_add _ 1) by lia.
    replace (truncate d mod 2 ^ 32 - 2 ^ 32 + 1 * 2 ^ 32) with (truncate d mod 2 ^ 32)
      by lia.
    apply Z.mod_mod. lia.
  - apply Z.mod_mod. lia.
Qed.

(** Reading a number handle as a 32-bit integer depends on the integer
    part of the stored number only. *)
Lemma get_number_reads P hp t h d' :
  get t h = JNumber d' ->
  emlite_val_get_value_int P hp t h = Normal (ToInt32 d') /\
  emlite_val_get_value_uint P hp t h = Normal (ToUint32 d') /\
  emlite_val_is_number hp t h = true /\
  emlite_val_is_string hp t h = false /\
  emlite_val_is_bool hp t h = 0.
Proof.
  intros Hg. unfold emlite_val_get_value_int, emlite_val_get_value_uint,
    emlite_val_is_number, emlite_val_is_string, emlite_val_is_bool.
  rewrite Hg. repeat split; reflexivity.
Qed.

Lemma ToInt32_truncate d d' : truncate d' = truncate d -> ToInt32 d' = ToInt32 d.
Proof. unfold ToInt32. by intros ->. Qed.

Lemma ToUint32_truncate d d' : truncate d' = truncate d -> ToUint32 d' = ToUint32 d.
Proof. unfold ToUint32. by intros ->. Qed.

Lemma double_of_Z_not_zero z :
  z <> 0 -> is_zero_number (JNumber (double_of_Z z)) = false.
Proof. destruct z; [done|reflexivity|reflexivity]. Qed.

(** What [add] stores for a number holding an integer: that number, up
    to the sign of a zero. *)
Lemma add_integer_stored t z h t' :
  wf t -> add t (JNumber (double_of_Z z)) = Normal (h, t') ->
  SameValueZero (get t' h) (JNumber (double_of_Z z)) /\
  (z <> 0 -> get t' h = JNumber (double_of_Z z)).
Proof.
  intros W Hadd. pose proof (add_get_key _ _ _ _ W Hadd) as Hk. split; [exact Hk|].
  intros Hz. apply key_eq_not_zero; [exact Hk|]. by apply double_of_Z_not_zero.
Qed.

(** X10 — 32-bit integers for every input: whatever number [d] the guest
    passes, [emlite_val_make_int] registers [d] wrapped to the signed
    32-bit range and [emlite_val_make_uint] registers it wrapped to the
    unsigned range: the value behind the handle is the number holding
    [ToInt32 d], respectively [ToUint32 d] (for 0, a zero of the sign
    stored first).  Either handle reads as [ToInt32 d] through
    [emlite_val_get_value_int] and as [ToUint32 d] through
    [emlite_val_get_value_uint], the two results being the same 32 bits;
    and the handle is a number, not a string or a boolean. *)
Theorem int32_wraps_for_every_input P hp t d :
  wf t ->
  (exists h t',
     emlite_val_make_int t d = Normal (h, t') /\
     SameValueZero (get t' h) (JNumber (double_of_Z (ToInt32 d))) /\
     (ToInt32 d <> 0 -> get t' h = JNumber (double_of_Z (ToInt32 d))) /\
     emlite_val_get_value_int P hp t' h = Normal (ToInt32 d) /\
     emlite_val_get_value_uint P hp t' h = Normal (ToUint32 d) /\
     emlite_val_is_number hp t' h = true /\
     emlite_val_is_string hp t' h = false /\ emlite_val_is_bool hp t' h = 0) /\
  (exists h t',
     emlite_val_make_uint t d = Normal (h, t') /\
     SameValueZero (get t' h) (JNumber (double_of_Z (ToUint32 d))) /\
     (ToUint32 d <> 0 -> get t' h = JNumber (double_of_Z (ToUint32 d))) /\
     emlite_val_get_value_int P hp t' h = Normal (ToInt32 d) /\
     emlite_val_get_value_uint P hp t' h = Normal (ToUint32 d) /\
     emlite_val_is_number hp t' h = true /\
     emlite_val_is_string hp t' h = false /\ emlite_val_is_bool hp t' h = 0) /\
  - 2 ^ 31 <= ToInt32 d < 2 ^ 31 /\ 0 <= ToUint32 d < 2 ^ 32 /\
  ToInt32 d mod 2 ^ 32 = ToUint32 d.
Proof.
  intros W. pose proof (ToInt32_range d) as Hi. pose proof (ToUint32_range d) as Hu.
  pose proof (ToInt32_mod d) as Hm.
  split; [|split; [|auto]].
  - unfold emlite_val_make_int.
    destruct (add_total t (JNumber (double_of_Z (ToInt32 d))) W) as (h & t' & Hadd).
    destruct (add_integer_stored _ _ _ _ W Hadd) as [Hsv Hst].
    destruct (make_int_get _ _ _ _ W Hadd) as (d' & Hg & Hd).
    destruct (get_number_reads P hp t' h d' Hg) as (H1 & H2 & H3 & H4 & H5).
    exists h, t'. split; [exact Hadd|]. split; [exact Hsv|]. split; [exact Hst|].
    rewrite H1, H2, (ToInt32_truncate _ _ Hd), (ToUint32_truncate _ _ Hd).
    rewrite ToInt32_double_of_Z by lia.
    unfold ToUint32 at 1. rewrite truncate_double_of_Z, Hm. auto.
  - unfold emlite_val_make_uint.
    destruct (add_total t (JNumber (double_of_Z (ToUint32 d))) W) as (h & t' & Hadd).
    destruct (add_integer_stored _ _ _ _ W Hadd) as [Hsv Hst].
    destruct (make_int_get _ _ _ _ W Hadd) as (d' & Hg & Hd).
    destruct (get_number_reads P hp t' h d' Hg) as (H1 & H2 & H3 & H4 & H5).
    exists h, t'. split; [exact Hadd|]. split; [exact Hsv|]. split; [exact Hst|].
    rewrite H1, H2, (ToInt32_truncate _ _ Hd), (ToUint32_truncate _ _ Hd).
    rewrite ToUint32_double_of_Z by lia.
    assert (ToInt32 (double_of_Z (ToUint32 d)) = ToInt32 d) as ->; [|auto].
    unfold ToInt32 at 1. rewrite truncate_double_of_Z.
    rewrite (Z.mod_small (ToUint32 d)) by lia. reflexivity.
Qed.

Lemma int32_wraps_for_every_input_witness :
  wf EMLITE_VALMAP0 /\
  ToInt32 (double_of_Z 4294967301) = 5 /\
  exists h t',
    emlite_val_make_int EMLITE_VALMAP0 (double_of_Z 4294967301) = Normal (h, t') /\
    SameValueZero (get t' h) (JNumber (double_of_Z (ToInt32 (double_of_Z 4294967301)))) /\
    emlite_val_get_value_int no_prims ∅ t' h = Normal (ToInt32 (double_of_Z 4294967301)).
Proof.
  split; [exact wf_init|]. split; [reflexivity|].
  destruct (int32_wraps_for_every_input no_prims ∅ EMLITE_VALMAP0
              (double_of_Z 4294967301) wf_init) as ((h & t' & H1 & H2 & _ & H3 & _) & _).
  exists h, t'. split; [exact H1|]. split; [exact H2|exact H3].
Defined.

Lemma asIntN_32_spec z :
  - 2 ^ 31 <= asIntN 32 z < 2 ^ 31 /\ asIntN 32 z mod 2 ^ 32 = z mod 2 ^ 32.
Proof.
  unfold asIntN. pose proof (Z.mod_pos_bound z (2 ^ 32) ltac:(lia)).
  change (2 ^ (32 - 1)) with (2 ^ 31).
  destruct (Z.leb_spec (2 ^ 31) (z mod 2 ^ 32)).
  - split; [lia|]. rewrite <- (Z.mod_add _ 1) by lia.
    replace (z mod 2 ^ 32 - 2 ^ 32 + 1 * 2 ^ 32) with (z mod 2 ^ 32) by lia.
    apply Z.mod_mod. lia.
  - split; [lia|]. apply Z.mod_mod. lia.
Qed.

Lemma get_bigint_reads P hp t h z :
  get t h = JBigInt z ->
  emlite_val_get_value_bigint P hp t h = Normal z /\
  emlite_val_get_value_biguint P hp t h = Normal (Z.max 0 z) /\
  emlite_val_get_value_int P hp t h = Normal (asIntN 32 z) /\
  emlite_val_get_value_uint P hp t h = Normal (z mod 2 ^ 32) /\
  emlite_val_is_number hp t h = false.
Proof.
  intros Hg. unfold emlite_val_get_value_bigint, emlite_val_get_value_biguint,
    emlite_val_get_value_int, emlite_val_get_value_uint, emlite_val_is_number.
  rewrite Hg. split; [reflexivity|]. split.
  { f_equal. destruct (Z.leb_spec 0 z); lia. }
  repeat split; reflexivity.
Qed.

(** X11 — 64-bit integers: [emlite_val_get_value_bigint] of the handle
    of [emlite_val_make_bigint z] is [z], for every integer;
    [emlite_val_get_value_biguint] clamps a negative [z] to zero; the
    32-bit extractors give the low 32 bits of [z], signed and unsigned;
    and the handle does not count as a number.  For a signed 64-bit wire
    value [emlite_val_make_biguint] followed by
    [emlite_val_get_value_biguint] gives the value modulo 2^64. *)
Theorem bigint_paths P hp t z :
  wf t ->
  (exists h t',
     emlite_val_make_bigint t z = Normal (h, t') /\
     emlite_val_get_value_bigint P hp t' h = Normal z /\
     emlite_val_get_value_biguint P hp t' h = Normal (Z.max 0 z) /\
     emlite_val_get_value_int P hp t' h = Normal (asIntN 32 z) /\
     emlite_val_get_value_uint P hp t' h = Normal (z mod 2 ^ 32) /\
     emlite_val_is_number hp t' h = false) /\
  - 2 ^ 31 <= asIntN 32 z < 2 ^ 31 /\ asIntN 32 z mod 2 ^ 32 = z mod 2 ^ 32 /\
  (- 2 ^ 63 <= z < 2 ^ 63 ->
   exists h t',
     emlite_val_make_biguint t z = Normal (h, t') /\
     emlite_val_get_value_biguint P hp t' h = Normal (z mod 2 ^ 64) /\
     emlite_val_get_value_bigint P hp t' h = Normal (z mod 2 ^ 64)).
Proof.
  intros W. split; [|split; [apply asIntN_32_spec|split; [apply asIntN_32_spec|]]].
  - unfold emlite_val_make_bigint.
    destruct (add_total t (JBigInt z) W) as (h & t' & Hadd).
    assert (get t' h = JBigInt z) as Hg.
    { apply key_inj_BigInt. eapply add_get_key; eauto. }
    exists h, t'. split; [exact Hadd|]. by apply get_bigint_reads.
  - intros Hz. unfold emlite_val_make_biguint.
    assert (biguint_normalize z = z mod 2 ^ 64) as ->.
    { unfold biguint_normalize. rewrite Z.shiftl_1_l.
      destruct (Z.ltb_spec z 0).
      - rewrite <- (Z.mod_add z 1) by lia. symmetry. apply Z.mod_small. lia.
      - symmetry. apply Z.mod_small. lia. }
    destruct (add_total t (JBigInt (z mod 2 ^ 64)) W) as (h & t' & Hadd).
    assert (get t' h = JBigInt (z mod 2 ^ 64)) as Hg.
    { apply key_inj_BigInt. eapply add_get_key; eauto. }
    destruct (get_bigint_reads P hp t' h _ Hg) as (H1 & H2 & _).
    exists h, t'. split; [exact Hadd|]. rewrite H1, H2. split; [|reflexivity].
    pose proof (Z.mod_pos_bound z (2 ^ 64) ltac:(lia)). f_equal. lia.
Qed.

Lemma bigint_paths_witness :
  wf EMLITE_VALMAP0 /\
  exists h t',
    emlite_val_make_bigint EMLITE_VALMAP0 (-5) = Normal (h, t') /\
    emlite_val_get_value_bigint no_prims ∅ t' h = Normal (-5) /\
    emlite_val_get_value_biguint no_prims ∅ t' h = Normal (Z.max 0 (-5)) /\
    emlite_val_get_value_int no_prims ∅ t' h = Normal (asIntN 32 (-5)) /\
    emlite_val_get_value_uint no_prims ∅ t' h = Normal (-5 mod 2 ^ 32) /\
    emlite_val_is_number ∅ t' h = false.
Proof.
  split; [exact wf_init|].
  exact (proj1 (bigint_paths no_prims ∅ EMLITE_VALMAP0 (-5) wf_init)).
Defined.

Lemma truncate_zero_number v d :
  is_zero_number (JNumber d) = true -> key v = key (JNumber d) ->
  exists s, v = JNumber (S754_zero s).
Proof.
  destruct d as [[]| | |]; try discriminate; intros _;
    destruct v as [| | |[[]| | |]| | | |]; simpl; intros H; try discriminate; eauto.
Qed.

(** X12 — Doubles: [emlite_val_get_value_double] of the handle of
    [emlite_val_make_double d] is [d] itself for every [d] that is not a
    zero, [NaN] and the infinities included; for a zero it is a zero,
    whose sign is that of the zero registered first.  The same handle
    reads as [ToInt32 d] and [ToUint32 d] through the integer extractors,
    as the truth value of [d] through [emlite_val_get_value_bool], and
    through [emlite_val_get_value_bigint] as the integer part of [d],
    with a [RangeError] for [NaN] and the infinities. *)
Theorem double_roundtrip P hp t d :
  wf t ->
  exists h t' d',
    emlite_val_make_double t d = Normal (h, t') /\
    emlite_val_get_value_double P hp t' h = Normal d' /\
    (is_zero_number (JNumber d) = false -> d' = d) /\
    (is_zero_number (JNumber d) = true -> exists s, d' = S754_zero s) /\
    emlite_val_get_value_int P hp t' h = Normal (ToInt32 d) /\
    emlite_val_get_value_uint P hp t' h = Normal (ToUint32 d) /\
    emlite_val_get_value_bool t' h = (if number_truthy d then 1 else 0) /\
    emlite_val_get_value_bigint P hp t' h = BigInt_of_trunc d /\
    emlite_val_is_number hp t' h = true.
Proof.
  intros W. unfold emlite_val_make_double.
  destruct (add_total t (JNumber d) W) as (h & t' & Hadd).
  pose proof (add_get_key _ _ _ _ W Hadd) as Hk.
  destruct (key_number _ _ Hk) as (d' & Hg & Hd).
  destruct (get_number_reads P hp t' h d' Hg) as (H1 & H2 & H3 & _).
  exists h, t', d'. split; [exact Hadd|].
  assert (is_zero_number (JNumber d) = false -> d' = d) as Hnz.
  { intros Hz. pose proof (key_eq_not_zero _ _ Hk Hz) as E. rewrite Hg in E.
    by injection E. }
  assert (is_zero_number (JNumber d) = true -> exists s, d' = S754_zero s) as Hzz.
  { intros Hz. destruct (truncate_zero_number _ _ Hz Hk) as [s E]. rewrite Hg in E.
    injection E as ->. eauto. }
  split. { unfold emlite_val_get_value_double. rewrite Hg. reflexivity. }
  split; [exact Hnz|]. split; [exact Hzz|].
  rewrite H1, H2, (ToInt32_truncate _ _ Hd), (ToUint32_truncate _ _ Hd).
  split; [reflexivity|]. split; [reflexivity|].
  unfold emlite_val_get_value_bool, emlite_val_get_value_bigint. rewrite Hg. simpl.
  destruct (is_zero_number (JNumber d)) eqn:Hz.
  - destruct (Hzz eq_refl) as [s ->]. destruct d as [[]| | |]; try discriminate;
      (split; [reflexivity|split; [reflexivity|exact H3]]).
  - rewrite (Hnz eq_refl). split; [reflexivity|split; [reflexivity|exact H3]].
Qed.

Lemma double_roundtrip_witness :
  wf EMLITE_VALMAP0 /\
  exists h t' d',
    emlite_val_make_double EMLITE_VALMAP0 S754_nan = Normal (h, t') /\
    emlite_val_get_value_double no_prims ∅ t' h = Normal d' /\
    (is_zero_number (JNumber S754_nan) = false -> d' = S754_nan).
Proof.
  split; [exact wf_init|].
  destruct (double_roundtrip no_prims ∅ EMLITE_VALMAP0 S754_nan wf_init)
    as (h & t' & d' & H1 & H2 & H3 & _).
  exists h, t', d'. split; [exact H1|]. split; [exact H2|exact H3].
Defined.

Lemma strict_equals_spec v w :
  strict_equals v w = bool_decide (key v = key w) && negb (is_NaN v).
Proof.
  destruct v as [| | |[[]| | |]| | | |], w as [| | |[[]| | |]| | | |]; simpl;
    rewrite ?andb_true_r, ?andb_false_r; try reflexivity.
Qed.

(** X13 — Strict equality is handle equality: on a well-formed table two
    live handles hold strictly equal values exactly when they are the
    same handle and its value is not [NaN] (which is not equal to
    itself); two handles without an entry both read [undefined] and are
    equal. *)
Theorem strict_equality_is_handle_equality t a b :
  wf t ->
  (is_Some (_h2e t !! a) -> is_Some (_h2e t !! b) ->
   emlite_val_strictly_equals t a b
     = bool_decide (a = b) && negb (is_NaN (get t a))) /\
  (_h2e t !! a = None -> _h2e t !! b = None ->
   emlite_val_strictly_equals t a b = true).
Proof.
  intros W. split.
  - intros [ea Ha] [eb Hb]. unfold emlite_val_strictly_equals.
    rewrite strict_equals_spec. f_equal. apply bool_decide_ext.
    rewrite (get_lookup _ _ _ Ha), (get_lookup _ _ _ Hb). split.
    + intros Hk. pose proof (wf_fwd _ W _ _ Ha) as Fa.
      pose proof (wf_fwd _ W _ _ Hb) as Fb. rewrite Hk in Fa. congruence.
    + intros ->. congruence.
  - intros Ha Hb. unfold emlite_val_strictly_equals.
    rewrite (get_absent _ _ Ha), (get_absent _ _ Hb). reflexivity.
Qed.

Lemma strict_equality_is_handle_equality_witness :
  wf EMLITE_VALMAP0 /\
  is_Some (_h2e EMLITE_VALMAP0 !! 2) /\ is_Some (_h2e EMLITE_VALMAP0 !! 3) /\
  emlite_val_strictly_equals EMLITE_VALMAP0 2 3
    = bool_decide (2 = 3) && negb (is_NaN (get EMLITE_VALMAP0 2)).
Proof.
  assert (is_Some (_h2e EMLITE_VALMAP0 !! 2)) as H2 by (eexists; reflexivity).
  assert (is_Some (_h2e EMLITE_VALMAP0 !! 3)) as H3 by (eexists; reflexivity).
  split; [exact wf_init|]. split; [exact H2|]. split; [exact H3|].
  exact (proj1 (strict_equality_is_handle_equality EMLITE_VALMAP0 2 3 wf_init) H2 H3).
Defined.

(** X14 — Numbers read from the reserved handles, on every reachable
    table: [null] and [false] read as 0 and [true] as 1 through every
    integer extractor; [undefined] reads as 0 through the 32-bit ones, as
    [NaN] through [emlite_val_get_value_double], as 0 through
    [emlite_val_get_value_biguint], and raises a [RangeError] through
    [emlite_val_get_value_bigint]; the reserved marker, a symbol, raises
    a [TypeError] through each of them, while
    [emlite_val_get_value_bool] gives 1 for it. *)
Theorem reserved_handle_reads P hp t :
  reachable t ->
  (forall h, h = 0 \/ h = 2 ->
     emlite_val_get_value_int P hp t h = Normal 0 /\
     emlite_val_get_value_uint P hp t h = Normal 0 /\
     emlite_val_get_value_bigint P hp t h = Normal 0 /\
     emlite_val_get_value_biguint P hp t h = Normal 0 /\
     emlite_val_get_value_double P hp t h = Normal (S754_zero false) /\
     emlite_val_get_value_bool t h = 0) /\
  (emlite_val_get_value_int P hp t 3 = Normal 1 /\
   emlite_val_get_value_uint P hp t 3 = Normal 1 /\
   emlite_val_get_value_bigint P hp t 3 = Normal 1 /\
   emlite_val_get_value_biguint P hp t 3 = Normal 1 /\
   emlite_val_get_value_double P hp t 3 = Normal (double_of_Z 1) /\
   emlite_val_get_value_bool t 3 = 1) /\
  (emlite_val_get_value_int P hp t 1 = Normal 0 /\
   emlite_val_get_value_uint P hp t 1 = Normal 0 /\
   emlite_val_get_value_bigint P hp t 1 = Throw ExcRangeError /\
   emlite_val_get_value_biguint P hp t 1 = Normal 0 /\
   emlite_val_get_value_double P hp t 1 = Normal S754_nan /\
   emlite_val_get_value_bool t 1 = 0) /\
  (emlite_val_get_value_int P hp t 6 = Throw ExcTypeError /\
   emlite_val_get_value_uint P hp t 6 = Throw ExcTypeError /\
   emlite_val_get_value_bigint P hp t 6 = Throw ExcTypeError /\
   emlite_val_get_value_biguint P hp t 6 = Throw ExcTypeError /\
   emlite_val_get_value_double P hp t 6 = Throw ExcTypeError /\
   emlite_val_get_value_bool t 6 = 1).
Proof.
  intros R. pose proof (reachable_reserved t R) as Res.
  destruct (Res 0%nat _ eq_refl) as [H0 _]. destruct (Res 1%nat _ eq_refl) as [H1 _].
  destruct (Res 2%nat _ eq_refl) as [H2 _]. destruct (Res 3%nat _ eq_refl) as [H3 _].
  destruct (Res 6%nat _ eq_refl) as [H6 _].
  change (Z.of_nat 0) with 0 in *. change (Z.of_nat 1) with 1 in *.
  change (Z.of_nat 2) with 2 in *. change (Z.of_nat 3) with 3 in *.
  change (Z.of_nat 6) with 6 in *.
  unfold emlite_val_get_value_int, emlite_val_get_value_uint,
    emlite_val_get_value_bigint, emlite_val_get_value_biguint,
    emlite_val_get_value_double, emlite_val_get_value_bool.
  split; [|split; [|split]].
  - intros h [->| ->]; [rewrite H0|rewrite H2]; repeat split; reflexivity.
  - rewrite H3. repeat split; reflexivity.
  - rewrite H1. repeat split; reflexivity.
  - rewrite H6. repeat split; reflexivity.
Qed.

Lemma reserved_handle_reads_witness :
  reachable scenario_table /\
  emlite_val_get_value_int no_prims ∅ scenario_table 6 = Throw ExcTypeError /\
  emlite_val_get_value_bigint no_prims ∅ scenario_table 1 = Throw ExcRangeError.
Proof.
  split; [exact scenario_reachable|].
  destruct (reserved_handle_reads no_prims ∅ scenario_table scenario_reachable)
    as (_ & _ & (_ & _ & Hb & _) & (Hi & _)).
  split; [exact Hi|exact Hb].
Defined.

(** * Further properties of strings and guest memory *)

Lemma subarray_window mem ptr n :
  0 <= ptr -> 0 <= n ->
  subarray mem ptr (ptr + n) = take (Z.to_nat n) (drop (Z.to_nat ptr) mem).
Proof.
  intros Hp Hn. unfold subarray, rel_index.
  destruct (Z.ltb_spec ptr 0); [lia|]. destruct (Z.ltb_spec (ptr + n) 0); [lia|].
  destruct (Z.le_gt_cases ptr (Z.of_nat (length mem))) as [Hle|Hgt].
  - rewrite (Z.min_l ptr) by lia.
    destruct (Z.le_gt_cases (ptr + n) (Z.of_nat (length mem))).
    + rewrite Z.min_l by lia. f_equal. lia.
    + rewrite Z.min_r by lia.
      rewrite !take_ge; [done| |]; rewrite length_drop; lia.
  - rewrite !Z.min_r by lia. rewrite !drop_ge by lia. by rewrite !take_nil.
Qed.

(** X15 — The window [cStr] reads: for a pointer and a length that are
    not negative, [cStr] decodes the [len] bytes that follow [ptr], and
    [cStrUtf16] the [2 * len] bytes, cut at the end of the memory; a
    window that starts at or past the end, or has length zero, gives the
    empty string, and nothing is raised. *)
Theorem cStr_window mem ptr len :
  0 <= ptr -> 0 <= len ->
  cStr mem ptr len
    = TextDecoder_utf8 (take (Z.to_nat len) (drop (Z.to_nat ptr) mem)) /\
  cStrUtf16 mem ptr len
    = TextDecoder_utf16le (take (Z.to_nat (len * 2)) (drop (Z.to_nat ptr) mem)) /\
  (Z.of_nat (length mem) <= ptr -> cStr mem ptr len = [] /\ cStrUtf16 mem ptr len = []) /\
  (len = 0 -> cStr mem ptr len = [] /\ cStrUtf16 mem ptr len = []).
Proof.
  intros Hp Hl. unfold cStr, cStrUtf16. rewrite !subarray_window by lia.
  split; [done|]. split; [done|]. split.
  - intros Hend. rewrite drop_ge by lia. by rewrite !take_nil.
  - intros ->. done.
Qed.

Lemma cStr_window_witness :
  0 <= 70 /\ 0 <= 4 /\ Z.of_nat (length example_memory) <= 70 /\
  cStr example_memory 70 4 = [] /\ cStrUtf16 example_memory 70 4 = [].
Proof.
  split; [lia|]. split; [lia|]. split; [vm_compute; discriminate|].
  apply (proj1 (proj2 (proj2 (cStr_window example_memory 70 4 ltac:(lia) ltac:(lia))))).
  vm_compute; discriminate.
Defined.

(** ** ASCII *)

Lemma ascii_cons c s :
  is_ascii (c :: s) = true -> 0 <= c <= 0x7F /\ is_ascii s = true.
Proof.
  unfold is_ascii. simpl. rewrite andb_true_iff, andb_true_iff.
  intros [[H1 H2] H3]. split; [lia|done].
Qed.

Lemma ascii_to_scalars s : is_ascii s = true -> to_scalars s = s.
Proof.
  unfold to_scalars. induction s as [|c s IH]; [done|].
  intros H. apply ascii_cons in H as [Hc Hs]. cbn [utf16_decode_units].
  assert (utf16_step None c = (None, [c])) as ->.
  { unfold utf16_step, utf16_start, is_lead, is_trail.
    destruct (Z.leb_spec 0xD800 c); [lia|]. destruct (Z.leb_spec 0xDC00 c); [lia|].
    reflexivity. }
  rewrite IH by done. reflexivity.
Qed.

Lemma ascii_utf8_encode s : is_ascii s = true -> utf8_encode s = s.
Proof.
  unfold utf8_encode. induction s as [|c s IH]; [done|].
  intros H. apply ascii_cons in H as [Hc Hs]. cbn [map concat]. rewrite IH by done.
  unfold utf8_encode_cp. destruct (Z.leb_spec c 0x7F); [|lia]. reflexivity.
Qed.

Lemma ascii_utf8_decode s : is_ascii s = true -> utf8_decode_from utf8_init s = s.
Proof.
  induction s as [|c s IH]; [done|].
  intros H. apply ascii_cons in H as [Hc Hs]. cbn [utf8_decode_from].
  assert (utf8_step utf8_init c = (utf8_init, [c])) as ->.
  { unfold utf8_step, utf8_start. cbn [u_needed utf8_init].
    change (0 =? 0) with true. cbv iota.
    destruct (Z.leb_spec 0 c); [|lia]. destruct (Z.leb_spec c 0x7F); [|lia].
    reflexivity. }
  rewrite IH by done. reflexivity.
Qed.

Lemma ascii_units_of_cps s : is_ascii s = true -> units_of_cps s = s.
Proof.
  unfold units_of_cps. induction s as [|c s IH]; [done|].
  intros H. apply ascii_cons in H as [Hc Hs]. cbn [map concat]. rewrite IH by done.
  unfold units_of_cp. destruct (Z.ltb_spec c 0x10000); [|lia]. reflexivity.
Qed.

Lemma ascii_strip_bom s : is_ascii s = true -> strip_bom s = s.
Proof.
  destruct s as [|c s]; [done|]. intros H. apply ascii_cons in H as [Hc Hs].
  simpl. destruct (Z.eqb_spec c 0xFEFF); [lia|done].
Qed.

Lemma ascii_encode s : is_ascii s = true -> TextEncoder_encode s = s.
Proof.
  intros H. unfold TextEncoder_encode. rewrite ascii_to_scalars by done.
  by apply ascii_utf8_encode.
Qed.

Lemma ascii_decode s : is_ascii s = true -> TextDecoder_utf8 s = s.
Proof.
  intros H. unfold TextDecoder_utf8.
  rewrite ascii_utf8_decode, ascii_strip_bom by done. by apply ascii_units_of_cps.
Qed.

(** X16 — ASCII passes through unchanged: for a string of characters in
    [0..0x7F] the encoder gives one byte per character with the same
    value, the decoder reads those bytes back as the same string, and so
    [cStr] at an offset holding the bytes of the string reads the
    string. *)
Theorem ascii_is_copied_verbatim s (pre post : list Z) :
  is_ascii s = true ->
  TextEncoder_encode s = s /\
  TextDecoder_utf8 s = s /\
  cStr (pre ++ s ++ post) (Z.of_nat (length pre)) (Z.of_nat (length s)) = s.
Proof.
  intros H. split; [by apply ascii_encode|]. split; [by apply ascii_decode|].
  unfold cStr. rewrite subarray_written by lia. rewrite firstn_all.
  by apply ascii_decode.
Qed.

Lemma ascii_is_copied_verbatim_witness :
  is_ascii (lit "log") = true /\
  TextEncoder_encode (lit "log") = lit "log" /\
  TextDecoder_utf8 (lit "log") = lit "log" /\
  cStr ([1; 2] ++ lit "log" ++ [3]) 2 3 = lit "log".
Proof.
  split; [reflexivity|].
  exact (ascii_is_copied_verbatim (lit "log") [1; 2] [3] eq_refl).
Defined.

(** ** What the copy routines write *)

(** X17 — What [copyStringToWasm] writes: for a non-empty string, when
    the exported allocator leaves the buffer of the memory in place or
    reports its growth, and answers with a non-null pointer to a block
    inside the memory, the routine returns that pointer; the memory keeps
    its buffer and its length; the block holds the UTF-8 encoding of the
    string followed by one zero byte; and every byte outside the block is
    as the allocator left it. *)
Theorem copyStringToWasm_writes P hp ex g vw m s ptr m1 (notified : bool) :
  Viewed.emlite_malloc ex = Some g -> s <> [] ->
  g m (Z.of_nat (length (TextEncoder_encode (s ++ [0])))) = (ptr, m1, notified) ->
  buffer m1 = buffer m \/ notified = true ->
  0 < ptr ->
  ptr + Z.of_nat (length (TextEncoder_encode (s ++ [0])))
    <= Z.of_nat (length (contents m1)) ->
  exists m2 vw2,
    Viewed.copyStringToWasm P hp (Some ex) vw m (JString s) = Normal (ptr, m2, vw2) /\
    buffer m2 = buffer m1 /\
    length (contents m2) = length (contents m1) /\
    take (length (TextEncoder_encode s) + 1) (drop (Z.to_nat ptr) (contents m2))
      = TextEncoder_encode s ++ [0] /\
    contents m2 !! (Z.to_nat ptr + length (TextEncoder_encode s))%nat = Some 0 /\
    (forall i : nat,
       Z.of_nat i < ptr \/ ptr + Z.of_nat (length (TextEncoder_encode s)) + 1 <= Z.of_nat i ->
       contents m2 !! i = contents m1 !! i).
Proof.
  intros Hex Hne Hg Hv Hp Hfit.
  rewrite (viewed_copy8 P hp ex g vw m s ptr m1 notified) by done.
  eexists _, _. split; [reflexivity|]. cbn [buffer contents]. split; [reflexivity|].
  rewrite encode_nul in Hfit. set (enc := TextEncoder_encode s) in *.
  assert (length (enc ++ [0]) = (length enc + 1)%nat) as Hlen
    by (rewrite length_app; reflexivity).
  destruct (written_block (contents m1) (enc ++ [0]) (Z.to_nat ptr)) as (H1 & H2 & H3).
  { rewrite Hlen in *. lia. }
  rewrite Hlen in *. split; [exact H1|]. split; [exact H2|]. split.
  - rewrite <- lookup_drop, <- (lookup_take_lt _ (length enc + 1)) by lia.
    rewrite H2. rewrite lookup_app_r by lia. by rewrite Nat.sub_diag.
  - intros i Hi. apply H3. lia.
Qed.

Lemma copyStringToWasm_writes_witness :
  exists m2 vw2,
    Viewed.copyStringToWasm no_prims ∅ (Some (Viewed.mkExports (Some (growing_malloc true))))
      example_views example_guest_memory (JString (lit "hi")) = Normal (8, m2, vw2) /\
    buffer m2 = 2%positive /\
    take (length (TextEncoder_encode (lit "hi")) + 1) (drop (Z.to_nat 8) (contents m2))
      = TextEncoder_encode (lit "hi") ++ [0].
Proof.
  assert (8 + Z.of_nat (length (TextEncoder_encode (lit "hi" ++ [0])))
          <= Z.of_nat (length (example_memory ++ replicate 16 0))) as Hfit
    by (vm_compute; discriminate).
  assert (lit "hi" <> []) as Hne by discriminate.
  destruct (copyStringToWasm_writes no_prims ∅ (Viewed.mkExports (Some (growing_malloc true)))
              (growing_malloc true) example_views example_guest_memory (lit "hi") 8
              (mkMemory 2 (example_memory ++ replicate 16 0)) true
              eq_refl Hne eq_refl (or_intror eq_refl) eq_refl Hfit)
    as (m2 & vw2 & H1 & H2 & _ & H3 & _).
  exists m2, vw2. split; [exact H1|]. split; [exact H2|exact H3].
Defined.

(** X18 — What [copyStringToWasmUtf16] writes: for a non-empty string,
    when the exported allocator leaves the buffer of the memory in place
    or reports its growth, and answers with an even non-null pointer to a
    block inside the memory, the routine returns that pointer; the memory
    keeps its buffer and its length; the block holds the code units of the
    string, each as two bytes with the low byte first, followed by two
    zero bytes; and every byte outside the block is as the allocator left
    it. *)
Theorem copyStringToWasmUtf16_writes P hp ex g vw m s ptr m1 (notified : bool) :
  Viewed.emlite_malloc ex = Some g -> s <> [] ->
  g m ((Z.of_nat (length s) + 1) * 2) = (ptr, m1, notified) ->
  buffer m1 = buffer m \/ notified = true ->
  0 < ptr < 2 ^ 32 -> Z.rem ptr 2 = 0 ->
  ptr + (Z.of_nat (length s) + 1) * 2 <= Z.of_nat (length (contents m1)) ->
  exists m3 vw3,
    Viewed.copyStringToWasmUtf16 P hp (Some ex) vw m (JString s) = Normal (ptr, m3, vw3) /\
    buffer m3 = buffer m1 /\
    length (contents m3) = length (contents m1) /\
    take (2 * length s + 2) (drop (Z.to_nat ptr) (contents m3)) = le_bytes s ++ [0; 0] /\
    (forall i : nat,
       Z.of_nat i < ptr \/ ptr + (Z.of_nat (length s) + 1) * 2 <= Z.of_nat i ->
       contents m3 !! i = contents m1 !! i).
Proof.
  intros Hex Hne Hg Hv Hp Hev Hfit.
  rewrite (viewed_copy16 P hp ex g vw m s ptr m1 notified) by done.
  eexists _, _. split; [reflexivity|]. cbn [buffer contents]. split; [reflexivity|].
  assert (length (le_bytes s ++ [0; 0]) = (2 * length s + 2)%nat) as Hlen.
  { rewrite length_app, le_bytes_length. simpl. lia. }
  destruct (written_block (contents m1) (le_bytes s ++ [0; 0]) (Z.to_nat ptr))
    as (H1 & H2 & H3).
  { rewrite Hlen. lia. }
  rewrite Hlen in *. split; [exact H1|]. split; [exact H2|].
  intros i Hi. apply H3. lia.
Qed.

Lemma copyStringToWasmUtf16_writes_witness :
  exists m3 vw3,
    Viewed.copyStringToWasmUtf16 no_prims ∅ (Some (Viewed.mkExports (Some (fixed_malloc 8))))
      example_views example_guest_memory (JString example_string) = Normal (8, m3, vw3) /\
    length (contents m3) = length (contents example_guest_memory) /\
    take (2 * length example_string + 2) (drop (Z.to_nat 8) (contents m3))
      = le_bytes example_string ++ [0; 0].
Proof.
  assert (8 + (Z.of_nat (length example_string) + 1) * 2
          <= Z.of_nat (length (contents example_guest_memory))) as Hfit
    by (vm_compute; discriminate).
  assert (example_string <> []) as Hne by discriminate.
  destruct (copyStringToWasmUtf16_writes no_prims ∅ (Viewed.mkExports (Some (fixed_malloc 8)))
              (fixed_malloc 8) example_views example_guest_memory example_string 8
              example_guest_memory false
              eq_refl Hne eq_refl (or_introl eq_refl) (conj eq_refl eq_refl) eq_refl Hfit)
    as (m3 & vw3 & H1 & _ & H2 & H3 & _).
  exists m3, vw3. split; [exact H1|]. split; [exact H2|exact H3].
Defined.

(** ** A string handle through guest memory and back *)

Lemma add_live t h e :
  wf t -> _h2e t !! h = Some e ->
  exists t',
    add t (value e) = Normal (h, t') /\
    _h2e t' !! h = Some (mkEntry (value e) (refs e + 1)) /\
    _next t' = _next t /\ table_size t' = table_size t.
Proof.
  intros W He. unfold add. rewrite (wf_fwd _ W _ _ He), He.
  eexists. split; [reflexivity|]. simpl. rewrite lookup_insert_eq.
  split; [reflexivity|]. split; [reflexivity|].
  unfold table_size. simpl. apply map_size_insert_Some. eauto.
Qed.

Lemma viewed_make_str vw m t ptr len :
  snd (Viewed.emlite_val_make_str vw m t ptr len)
    = add t (JString (snd (Viewed.cStr vw m ptr len))) /\
  snd (Viewed.emlite_val_make_str_utf16 vw m t ptr len)
    = add t (JString (snd (Viewed.cStrUtf16 vw m ptr len))).
Proof. split; reflexivity. Qed.

(** X28 — A string handle through guest memory and back: let handle [h]
    hold a non-empty string of code units with every surrogate paired and
    not starting with U+FEFF, and let the allocator be exported.  When,
    for the 8-bit copy, the allocator leaves the buffer in place or
    reports its growth and answers inside the memory with a non-null
    pointer, [emlite_val_get_value_string h] followed by
    [emlite_val_make_str] on the pointer and the encoded length gives
    back the handle [h] itself, with one more reference and no new entry.
    When it does so for the 16-bit copy, with an even pointer,
    [emlite_val_get_value_string_utf16 h] followed by
    [emlite_val_make_str_utf16] on the pointer and the length of the
    string gives back [h] likewise.  Each path needs its own allocation
    only. *)
Theorem string_handle_roundtrip P hp ex g vw m t h e s :
  wf t -> _h2e t !! h = Some e -> value e = JString s -> s <> [] ->
  code_units s = true -> isWellFormed s = true -> head s <> Some 0xFEFF ->
  Viewed.emlite_malloc ex = Some g ->
  exists t',
    _h2e t' !! h = Some (mkEntry (JString s) (refs e + 1)) /\
    _next t' = _next t /\ table_size t' = table_size t /\
    (forall ptr m1 (notified : bool),
       g m (Z.of_nat (length (TextEncoder_encode (s ++ [0])))) = (ptr, m1, notified) ->
       buffer m1 = buffer m \/ notified = true ->
       0 < ptr ->
       ptr + Z.of_nat (length (TextEncoder_encode (s ++ [0])))
         <= Z.of_nat (length (contents m1)) ->
       exists m2 vw2,
         Viewed.emlite_val_get_value_string P hp (Some ex) vw m t h
           = Normal (ptr, m2, vw2) /\
         snd (Viewed.emlite_val_make_str vw2 m2 t ptr
                (Z.of_nat (length (TextEncoder_encode s)))) = Normal (h, t')) /\
    (forall ptr m1 (notified : bool),
       g m ((Z.of_nat (length s) + 1) * 2) = (ptr, m1, notified) ->
       buffer m1 = buffer m \/ notified = true ->
       0 < ptr < 2 ^ 32 -> Z.rem ptr 2 = 0 ->
       ptr + (Z.of_nat (length s) + 1) * 2 <= Z.of_nat (length (contents m1)) ->
       exists m2 vw2,
         Viewed.emlite_val_get_value_string_utf16 P hp (Some ex) vw m t h
           = Normal (ptr, m2, vw2) /\
         snd (Viewed.emlite_val_make_str_utf16 vw2 m2 t ptr (Z.of_nat (length s)))
           = Normal (h, t')).
Proof.
  intros W He Hv Hne Hu Hwf Hh Hex.
  destruct (add_live t h e W He) as (t' & Hadd & Hl & Hn & Hs). rewrite Hv in *.
  exists t'. split; [exact Hl|]. split; [exact Hn|]. split; [exact Hs|].
  unfold Viewed.emlite_val_get_value_string, Viewed.emlite_val_get_value_string_utf16.
  rewrite (get_lookup _ _ _ He), Hv.
  split; intros ptr m1 notified Hg Hview Hp.
  - intros Hfit. rewrite (viewed_copy8 P hp ex g vw m s ptr m1 notified) by done.
    eexists _, _. split; [reflexivity|].
    rewrite (proj1 (viewed_make_str _ _ _ _ _)).
    rewrite encode_nul, length_app in Hfit. simpl in Hfit.
    rewrite viewed_read8.
    + rewrite take_app_length, TextDecoder_utf8_encode by done. exact Hadd.
    + lia.
    + rewrite length_app. simpl. lia.
    + rewrite length_app. lia.
  - intros Hev Hfit. rewrite (viewed_copy16 P hp ex g vw m s ptr m1 notified) by done.
    eexists _, _. split; [reflexivity|].
    rewrite (proj2 (viewed_make_str _ _ _ _ _)).
    assert (length (le_bytes s ++ [0; 0]) = (2 * length s + 2)%nat) as Hlen.
    { rewrite length_app, le_bytes_length. simpl. lia. }
    rewrite viewed_read16.
    + rewrite <- (le_bytes_length s), take_app_length.
      rewrite TextDecoder_utf16le_bytes by done. exact Hadd.
    + lia.
    + rewrite Hlen. lia.
    + rewrite Hlen. lia.
Qed.

Lemma wf_string_table : wf string_table.
Proof.
  unfold string_table.
  destruct (add EMLITE_VALMAP0 (JString example_string)) as [[h t]|] eqn:E;
    [|exact wf_init]. eapply wf_add; [exact wf_init|exact E].
Qed.

Lemma string_handle_roundtrip_witness :
  wf string_table /\
  _h2e string_table !! 7 = Some (mkEntry (JString example_string) 1) /\
  exists t',
    _h2e t' !! 7 = Some (mkEntry (JString example_string) (1 + 1)) /\
    exists m2 vw2,
      Viewed.emlite_val_get_value_string no_prims ∅
        (Some (Viewed.mkExports (Some (fixed_malloc 8))))
        example_views example_guest_memory string_table 7 = Normal (8, m2, vw2) /\
      snd (Viewed.emlite_val_make_str vw2 m2 string_table 8
             (Z.of_nat (length (TextEncoder_encode example_string)))) = Normal (7, t').
Proof.
  assert (_h2e string_table !! 7 = Some (mkEntry (JString example_string) 1)) as He
    by (vm_compute; reflexivity).
  assert (8 + Z.of_nat (length (TextEncoder_encode (example_string ++ [0])))
          <= Z.of_nat (length (contents example_guest_memory))) as Hfit8
    by (vm_compute; discriminate).
  assert (example_string <> []) as Hne by discriminate.
  assert (head example_string <> Some 0xFEFF) as Hbom by discriminate.
  split; [exact wf_string_table|]. split; [exact He|].
  destruct (string_handle_roundtrip no_prims ∅ (Viewed.mkExports (Some (fixed_malloc 8)))
              (fixed_malloc 8) example_views example_guest_memory
              string_table 7 (mkEntry (JString example_string) 1) example_string
              wf_string_table He eq_refl Hne eq_refl eq_refl Hbom eq_refl)
    as (t' & H1 & _ & _ & H4 & _).
  exists t'. split; [exact H1|].
  exact (H4 8 example_guest_memory false eq_refl (or_introl eq_refl) eq_refl Hfit8).
Defined.

(** ** What is not copied *)

Lemma not_a_string_spec hp v :
  instanceof hp v ClsString = false -> (forall s, v = JString s -> s = []) ->
  not_a_string hp v = true.
Proof.
  intros Hi Hs. unfold not_a_string. rewrite Hi.
  destruct v as [| |b|d|z|s|i|l]; simpl; rewrite ?orb_true_r; try reflexivity.
  - rewrite (Hs s eq_refl). reflexivity.
  - unfold instanceof in *. destruct (bool_decide (class_of hp (JObject l) = Some ClsFunction));
      reflexivity.
Qed.

(** X19 — Only non-empty strings are copied: for the empty string and
    for every value that is neither a string nor a [String] object (a
    number, a boolean, [null], [undefined], a symbol, any other object),
    the two copy routines return the null pointer, call no allocator and
    leave the memory as it is; so do [emlite_val_get_value_string] and
    [emlite_val_get_value_string_utf16] on a handle holding such a value
    or holding nothing. *)
Theorem only_strings_are_copied P hp ex mem t h :
  instanceof hp (get t h) ClsString = false ->
  (forall s, get t h = JString s -> s = []) ->
  copyStringToWasm P hp ex mem (get t h) = Normal (0, mem) /\
  copyStringToWasmUtf16 P hp ex mem (get t h) = Normal (0, mem) /\
  emlite_val_get_value_string P hp ex mem t h = Normal (0, mem) /\
  emlite_val_get_value_string_utf16 P hp ex mem t h = Normal (0, mem).
Proof.
  intros Hi Hs. pose proof (not_a_string_spec hp _ Hi Hs) as Hn.
  unfold emlite_val_get_value_string, emlite_val_get_value_string_utf16,
    copyStringToWasm, copyStringToWasmUtf16. rewrite Hn. auto.
Qed.

Lemma only_strings_are_copied_witness :
  instanceof ∅ (get EMLITE_VALMAP0 99) ClsString = false /\
  (forall s, get EMLITE_VALMAP0 99 = JString s -> s = []) /\
  emlite_val_get_value_string no_prims ∅ example_exports example_memory EMLITE_VALMAP0 99
    = Normal (0, example_memory) /\
  emlite_val_get_value_string_utf16 no_prims ∅ example_exports example_memory
    EMLITE_VALMAP0 99 = Normal (0, example_memory).
Proof.
  assert (forall s, get EMLITE_VALMAP0 99 = JString s -> s = []) as Hs
    by (intros s H; discriminate H).
  split; [reflexivity|]. split; [exact Hs|].
  exact (proj2 (proj2 (only_strings_are_copied no_prims ∅ example_exports
                         example_memory EMLITE_VALMAP0 99 eq_refl Hs))).
Defined.

(** ** Blocks that do not fit *)

(** X20 — A block outside the memory, for a non-empty string and a
    non-null pointer from the exported allocator.  [copyStringToWasm]
    raises a [RangeError] when the allocator left the buffer in place or
    reported its growth and the encoded string with its terminator does
    not fit between the pointer and the end of the memory.
    [copyStringToWasmUtf16] raises "UTF-16 string not properly aligned"
    for an odd pointer, whatever the allocator did to the memory; and for
    an even pointer at or past the end of the memory it raises nothing:
    it leaves the memory as the allocator left it and still returns the
    pointer. *)
Theorem block_outside_memory P hp ex g vw m s :
  Viewed.emlite_malloc ex = Some g -> s <> [] ->
  (forall ptr m1 (notified : bool),
     g m (Z.of_nat (length (TextEncoder_encode (s ++ [0])))) = (ptr, m1, notified) ->
     buffer m1 = buffer m \/ notified = true ->
     0 < ptr ->
     Z.of_nat (length (contents m1))
       < ptr + Z.of_nat (length (TextEncoder_encode (s ++ [0]))) ->
     Viewed.copyStringToWasm P hp (Some ex) vw m (JString s) = Throw ExcRangeError) /\
  (forall ptr m1 (notified : bool),
     g m ((Z.of_nat (length s) + 1) * 2) = (ptr, m1, notified) ->
     0 < ptr -> Z.rem ptr 2 <> 0 ->
     Viewed.copyStringToWasmUtf16 P hp (Some ex) vw m (JString s)
       = Throw (ExcError (lit "UTF-16 string not properly aligned"))) /\
  (forall ptr m1 (notified : bool),
     g m ((Z.of_nat (length s) + 1) * 2) = (ptr, m1, notified) ->
     0 < ptr < 2 ^ 32 -> Z.rem ptr 2 = 0 -> Z.of_nat (length (contents m1)) <= ptr ->
     Viewed.copyStringToWasmUtf16 P hp (Some ex) vw m (JString s)
       = Normal (ptr, m1, if notified then _updateViews m1 else _ensureViewsFresh vw m)).
Proof.
  intros Hex Hne. split; [|split]; intros ptr m1 notified Hg.
  - intros Hv Hp Hout. unfold Viewed.copyStringToWasm.
    rewrite not_a_string_JString, bool_decide_eq_false_2 by done.
    rewrite Hex. cbn [JsString completion_bind]. rewrite Hg.
    destruct (Z.eqb_spec ptr 0); [lia|]. unfold Viewed.u8_set.
    destruct (Z.ltb_spec ptr 0); [lia|].
    rewrite (view_usable vw m m1 notified Hv). unfold u8_set.
    destruct (Z.ltb_spec ptr 0); [lia|].
    destruct (Z.ltb_spec (Z.of_nat (length (contents m1)))
                (Z.of_nat (length (TextEncoder_encode (s ++ [0]))) + ptr)); [|lia].
    reflexivity.
  - intros Hp Hodd. unfold Viewed.copyStringToWasmUtf16.
    rewrite not_a_string_JString, bool_decide_eq_false_2 by done.
    rewrite Hex. cbn [JsString completion_bind]. rewrite Hg.
    destruct (Z.eqb_spec ptr 0); [lia|].
    destruct (Z.eqb_spec (Z.rem ptr 2) 0); [lia|]. reflexivity.
  - intros Hp Hev Hout. unfold Viewed.copyStringToWasmUtf16.
    rewrite not_a_string_JString, bool_decide_eq_false_2 by done.
    rewrite Hex. cbn [JsString completion_bind]. rewrite Hg.
    destruct (Z.eqb_spec ptr 0); [lia|]. rewrite Hev.
    change (negb (0 =? 0)) with false. cbv iota.
    destruct (view _ m1) as [b|] eqn:Hb; [|reflexivity].
    assert (b = contents m1) as ->.
    { unfold view in Hb. destruct (bool_decide _); [|discriminate]. congruence. }
    rewrite Z.mod_small by lia. rewrite Z.shiftr_div_pow2 by lia. change (2 ^ 1) with 2.
    assert (Z.of_nat (length (contents m1)) / 2 <= ptr / 2) as Hidx
      by (apply Z.div_le_mono; lia).
    rewrite u16_copy_outside by done. rewrite u16_store_outside by lia.
    by destruct m1.
Qed.

Lemma block_outside_memory_witness :
  lit "hi" <> [] /\
  Viewed.copyStringToWasm no_prims ∅ (Some (Viewed.mkExports (Some (fixed_malloc 63))))
    example_views example_guest_memory (JString (lit "hi")) = Throw ExcRangeError /\
  Viewed.copyStringToWasmUtf16 no_prims ∅ (Some (Viewed.mkExports (Some (fixed_malloc 63))))
    example_views example_guest_memory (JString (lit "hi"))
    = Throw (ExcError (lit "UTF-16 string not properly aligned")) /\
  Viewed.copyStringToWasmUtf16 no_prims ∅ (Some (Viewed.mkExports (Some (fixed_malloc 64))))
    example_views example_guest_memory (JString (lit "hi"))
    = Normal (64, example_guest_memory, _ensureViewsFresh example_views example_guest_memory).
Proof.
  assert (lit "hi" <> []) as Hne by discriminate.
  assert (Z.of_nat (length (contents example_guest_memory))
          < 63 + Z.of_nat (length (TextEncoder_encode (lit "hi" ++ [0])))) as Hout
    by (vm_compute; reflexivity).
  assert (Z.of_nat (length (contents example_guest_memory)) <= 64) as Hend
    by (vm_compute; discriminate).
  assert (Z.rem 63 2 <> 0) as Hodd by (vm_compute; discriminate).
  split; [exact Hne|]. split; [|split].
  - exact (proj1 (block_outside_memory no_prims ∅ (Viewed.mkExports (Some (fixed_malloc 63)))
                    (fixed_malloc 63) example_views example_guest_memory (lit "hi")
                    eq_refl Hne)
             63 example_guest_memory false eq_refl (or_introl eq_refl) eq_refl Hout).
  - exact (proj1 (proj2 (block_outside_memory no_prims ∅
                           (Viewed.mkExports (Some (fixed_malloc 63)))
                           (fixed_malloc 63) example_views example_guest_memory (lit "hi")
                           eq_refl Hne))
             63 example_guest_memory false eq_refl eq_refl Hodd).
  - exact (proj2 (proj2 (block_outside_memory no_prims ∅
                           (Viewed.mkExports (Some (fixed_malloc 64)))
                           (fixed_malloc 64) example_views example_guest_memory (lit "hi")
                           eq_refl Hne))
             64 example_guest_memory false eq_refl (conj eq_refl eq_refl) eq_refl Hend).
Defined.

(** ** The name of a type *)

Lemma typeof_names hp v :
  typeof hp v ∈ [lit "undefined"; lit "object"; lit "boolean"; lit "number";
                 lit "bigint"; lit "string"; lit "symbol"; lit "function"].
Proof.
  rewrite !elem_of_cons.
  destruct v; simpl; try tauto. destruct (instanceof hp (JObject l) ClsFunction); tauto.
Qed.

Lemma typeof_ascii hp v : is_ascii (typeof hp v) = true /\ typeof hp v <> [].
Proof.
  pose proof (typeof_names hp v) as H. rewrite !elem_of_cons, elem_of_nil in H.
  destruct H as [->|[->|[->|[->|[->|[->|[->|[->|[]]]]]]]]]; (split; [reflexivity|discriminate]).
Qed.

(** X30 — The name [emlite_val_typeof] writes: for every handle, live or
    not, when the exported allocator leaves the buffer of the memory in
    place or reports its growth, and answers inside the memory with a
    non-null pointer, [emlite_val_typeof] returns that pointer and [cStr]
    reads there, over as many bytes as the name has characters, the
    [typeof] name of the value behind the handle; the name is one of the
    eight ASCII names of the language, "undefined" for a handle without
    an entry and "object" for [null]. *)
Theorem typeof_reads_back P hp ex g vw m t h ptr m1 (notified : bool) :
  Viewed.emlite_malloc ex = Some g ->
  g m (Z.of_nat (length (typeof hp (get t h))) + 1) = (ptr, m1, notified) ->
  buffer m1 = buffer m \/ notified = true ->
  0 < ptr ->
  ptr + Z.of_nat (length (typeof hp (get t h))) + 1 <= Z.of_nat (length (contents m1)) ->
  exists m2 vw2,
    Viewed.emlite_val_typeof P hp (Some ex) vw m t h = Normal (ptr, m2, vw2) /\
    snd (Viewed.cStr vw2 m2 ptr (Z.of_nat (length (typeof hp (get t h)))))
      = typeof hp (get t h) /\
    typeof hp (get t h) ∈ [lit "undefined"; lit "object"; lit "boolean"; lit "number";
                           lit "bigint"; lit "string"; lit "symbol"; lit "function"] /\
    (_h2e t !! h = None -> typeof hp (get t h) = lit "undefined") /\
    (get t h = JNull -> typeof hp (get t h) = lit "object").
Proof.
  intros Hex Hg Hv Hp Hfit. set (name := typeof hp (get t h)) in *.
  destruct (typeof_ascii hp (get t h)) as [Ha Hne]. fold name in Ha, Hne.
  pose proof (ascii_encode name Ha) as Henc. pose proof (ascii_decode name Ha) as Hdec.
  assert (length (TextEncoder_encode (name ++ [0])) = (length name + 1)%nat) as Hlen.
  { rewrite encode_nul, Henc, length_app. reflexivity. }
  unfold Viewed.emlite_val_typeof. fold name.
  rewrite (viewed_copy8 P hp ex g vw m name ptr m1 notified); [|done|done| |done|done|].
  2:{ rewrite Hlen, Nat2Z.inj_add. exact Hg. }
  2:{ rewrite Hlen. lia. }
  eexists _, _. split; [reflexivity|]. rewrite Henc. split.
  - rewrite viewed_read8.
    + by rewrite take_app_length.
    + lia.
    + rewrite length_app. simpl. lia.
    + rewrite length_app. lia.
  - split; [apply typeof_names|]. split.
    + intros Hs. unfold name. by rewrite (get_absent _ _ Hs).
    + intros Hn. unfold name. by rewrite Hn.
Qed.

Lemma typeof_reads_back_witness :
  exists m2 vw2,
    Viewed.emlite_val_typeof no_prims ∅ (Some (Viewed.mkExports (Some (fixed_malloc 8))))
      example_views example_guest_memory EMLITE_VALMAP0 99 = Normal (8, m2, vw2) /\
    snd (Viewed.cStr vw2 m2 8 (Z.of_nat (length (typeof ∅ (get EMLITE_VALMAP0 99)))))
      = typeof ∅ (get EMLITE_VALMAP0 99).
Proof.
  assert (8 + Z.of_nat (length (typeof ∅ (get EMLITE_VALMAP0 99))) + 1
          <= Z.of_nat (length (contents example_guest_memory))) as Hfit
    by (vm_compute; discriminate).
  destruct (typeof_reads_back no_prims ∅ (Viewed.mkExports (Some (fixed_malloc 8)))
              (fixed_malloc 8) example_views example_guest_memory EMLITE_VALMAP0 99 8
              example_guest_memory false eq_refl eq_refl (or_introl eq_refl) eq_refl Hfit)
    as (m2 & vw2 & H1 & H2 & _).
  exists m2, vw2. split; [exact H1|exact H2].
Defined.

(** * Further properties of the invocation bridge *)

(** X21 — What [normalizeThrown] returns is always an [Error] instance
    of the heap it leaves; the objects of the heap it was given are
    untouched; an [Error] instance is returned as it is, anything else
    gives a new object; and normalising the result again changes
    nothing. *)
Theorem normalizeThrown_gives_error P hp e :
  instanceof (snd (normalizeThrown P hp e)) (fst (normalizeThrown P hp e)) ClsError = true /\
  (forall l o, hp !! l = Some o -> snd (normalizeThrown P hp e) !! l = Some o) /\
  (instanceof hp e ClsError = true -> normalizeThrown P hp e = (e, hp)) /\
  (instanceof hp e ClsError = false ->
     exists l, fst (normalizeThrown P hp e) = JObject l /\ hp !! l = None) /\
  normalizeThrown P (snd (normalizeThrown P hp e)) (fst (normalizeThrown P hp e))
    = normalizeThrown P hp e.
Proof.
  pose proof (normalizeThrown_spec P hp e) as HN.
  destruct (normalizeThrown P hp e) as [v hp'] eqn:E. simpl in *.
  assert (forall l (o : JsObject), hp !! l = None -> obj_class o = ClsError ->
            instanceof (<[l := o]> hp) (JObject l) ClsError = true) as Hnew.
  { intros l o _ Hc. unfold instanceof, class_of. rewrite lookup_insert_eq. simpl.
    rewrite Hc. by apply bool_decide_eq_true_2. }
  assert (instanceof hp' v ClsError = true) as Hi.
  { destruct HN as [Hi|msg l o Hi _ _ _ Hl Hc|l o Hi _ Hl Hc]; [done|by apply Hnew..]. }
  split; [exact Hi|]. split.
  { intros l0 o0 H0.
    destruct HN as [_|msg l o _ _ _ _ Hl _|l o _ _ Hl _]; [done| |];
      (rewrite lookup_insert_ne; [done|congruence]). }
  split.
  { intros He. destruct HN as [_|msg l o Hi' |l o Hi']; [done|congruence..]. }
  split.
  { intros He. destruct HN as [Hi'|msg l o _ _ _ _ Hl _|l o _ _ Hl _];
      [congruence|eauto..]. }
  unfold normalizeThrown at 1. by rewrite Hi.
Qed.

Lemma finish_call_returned P call t hp v t1 hp1 :
  call t hp = (Returned v, t1, hp1) -> wf t1 ->
  exists h t2,
    finish_call P call t hp = Normal (h, t2, hp1) /\
    add t1 v = Normal (h, t2) /\
    SameValueZero (get t2 h) v /\
    (is_zero_number v = false -> get t2 h = v).
Proof.
  intros Hc W. unfold finish_call. rewrite Hc.
  destruct (add_total t1 v W) as (h & t2 & Hadd). rewrite Hadd. simpl.
  exists h, t2. split; [reflexivity|]. split; [reflexivity|].
  pose proof (add_get_key _ _ _ _ W Hadd) as Hk. split; [exact Hk|].
  intros Hz. by apply key_eq_not_zero.
Qed.

(** X22 — A dispatch that returns: when the argument array resolves and
    the host dispatch of [emlite_val_obj_call], [emlite_val_construct_new]
    or [emlite_val_func_call] returns [v], the operation returns the
    handle [add] gives for [v] on the table the host left, which reads as
    [v] (up to the sign of a zero), and the heap is the one the host
    left.  On a reachable table a returned reserved singleton gives its
    reserved handle: a call that returns [undefined] answers 1. *)
Theorem dispatch_returns_handle P D mem t hp objRef mPtr mLen argvRef args v t1 hp1 :
  resolve_args t hp argvRef = Normal args -> wf t1 ->
  (host_apply_method D (get t objRef) (cStr mem mPtr mLen) args t hp
     = (Returned v, t1, hp1) ->
   exists h t2,
     emlite_val_obj_call P D mem t hp objRef mPtr mLen argvRef = Normal (h, t2, hp1) /\
     add t1 v = Normal (h, t2) /\ SameValueZero (get t2 h) v /\
     (is_zero_number v = false -> get t2 h = v)) /\
  (host_construct D (get t objRef) args t hp = (Returned v, t1, hp1) ->
   exists h t2,
     emlite_val_construct_new P D t hp objRef argvRef = Normal (h, t2, hp1) /\
     add t1 v = Normal (h, t2) /\ SameValueZero (get t2 h) v /\
     (is_zero_number v = false -> get t2 h = v)) /\
  (host_apply D (get t objRef) args t hp = (Returned v, t1, hp1) ->
   exists h t2,
     emlite_val_func_call P D t hp objRef argvRef = Normal (h, t2, hp1) /\
     add t1 v = Normal (h, t2) /\ SameValueZero (get t2 h) v /\
     (is_zero_number v = false -> get t2 h = v)) /\
  (reachable t1 -> forall (i : nat), reserved_values !! i = Some v ->
   exists t2, add t1 v = Normal (Z.of_nat i, t2)).
Proof.
  intros Hargs W. split; [|split; [|split]].
  - intros Hc. unfold emlite_val_obj_call. rewrite Hargs. simpl.
    by apply (finish_call_returned P _ t hp v t1 hp1).
  - intros Hc. unfold emlite_val_construct_new. rewrite Hargs. simpl.
    by apply (finish_call_returned P _ t hp v t1 hp1).
  - intros Hc. unfold emlite_val_func_call. rewrite Hargs. simpl.
    by apply (finish_call_returned P _ t hp v t1 hp1).
  - intros R i Hi. destruct (add_reserved t1 i v R Hi) as (t2 & H & _). eauto.
Qed.

Lemma dispatch_returns_handle_witness :
  resolve_args example_table example_heap 7 = Normal [] /\ wf example_table /\
  exists h t2,
    emlite_val_func_call no_prims (returning_dispatch JUndefined)
      example_table example_heap 4 7 = Normal (h, t2, example_heap) /\
    add example_table JUndefined = Normal (h, t2) /\
    SameValueZero (get t2 h) JUndefined /\
    (is_zero_number JUndefined = false -> get t2 h = JUndefined).
Proof.
  split; [vm_compute; reflexivity|]. split; [exact wf_example_table|].
  exact (proj1 (proj2 (proj2
    (dispatch_returns_handle no_prims (returning_dispatch JUndefined)
       example_memory example_table example_heap 4 0 0 7 [] JUndefined
       example_table example_heap eq_refl wf_example_table))) eq_refl).
Defined.

Lemma resolve_args_not_object t hp argvRef :
  (forall l, get t argvRef <> JObject l) -> resolve_args t hp argvRef = Throw ExcTypeError.
Proof.
  intros H. unfold resolve_args. destruct (get t argvRef); try reflexivity.
  by destruct (H l).
Qed.

(** X23 — An argument handle that names no object: when the value
    behind [argvRef] is not an object (a stale handle reads [undefined],
    a number, a string, ...), each of the three call operations raises a
    [TypeError] before any dispatch, in the current bridge as in the
    older copy: the unmarshalling is outside the [try].  And the
    current bridge's [emlite_val_push], which catches what the push
    raises, does nothing on such a handle and raises nothing. *)
Theorem bad_argv_is_type_error P D mem t hp objRef mPtr mLen argvRef :
  (forall l, get t argvRef <> JObject l) ->
  emlite_val_obj_call P D mem t hp objRef mPtr mLen argvRef = Throw ExcTypeError /\
  emlite_val_construct_new P D t hp objRef argvRef = Throw ExcTypeError /\
  emlite_val_func_call P D t hp objRef argvRef = Throw ExcTypeError /\
  Legacy.emlite_val_obj_call D mem t hp objRef mPtr mLen argvRef = Throw ExcTypeError /\
  Legacy.emlite_val_construct_new D t hp objRef argvRef = Throw ExcTypeError /\
  Legacy.emlite_val_func_call D t hp objRef argvRef = Throw ExcTypeError /\
  (forall valRef, emlite_val_push D t hp argvRef valRef = (t, hp)).
Proof.
  intros H. pose proof (resolve_args_not_object t hp argvRef H) as Hr.
  unfold emlite_val_obj_call, emlite_val_construct_new, emlite_val_func_call,
    Legacy.emlite_val_obj_call, Legacy.emlite_val_construct_new,
    Legacy.emlite_val_func_call. rewrite Hr.
  repeat (split; [reflexivity|]).
  intros valRef. unfold emlite_val_push. destruct (get t argvRef); try reflexivity.
  by destruct (H l).
Qed.

Lemma bad_argv_is_type_error_witness :
  (forall l, get example_table 99 <> JObject l) /\
  emlite_val_func_call no_prims (returning_dispatch JNull) example_table example_heap 4 99
    = Throw ExcTypeError /\
  (forall valRef,
     emlite_val_push (returning_dispatch JNull) example_table example_heap 99 valRef
       = (example_table, example_heap)).
Proof.
  assert (forall l, get example_table 99 <> JObject l) as H
    by (intros l; vm_compute; discriminate).
  split; [exact H|].
  destruct (bad_argv_is_type_error no_prims (returning_dispatch JNull) example_memory
              example_table example_heap 4 0 0 99 H) as (_ & _ & H3 & _ & _ & _ & H7).
  split; [exact H3|exact H7].
Defined.

(** ** Building an argument array *)

Lemma Z_of_double_of_Z z : Z_of_double (double_of_Z z) = Some z.
Proof.
  assert (Z_of_double (double_of_Z z) = Some (truncate (double_of_Z z))) as ->;
    [|by rewrite truncate_double_of_Z].
  assert (forall s p k, 0 <= k ->
            Z_of_double (S754_finite s (Z.to_pos (Z.pos p * 2 ^ k)) (- k))
            = Some (truncate (S754_finite s (Z.to_pos (Z.pos p * 2 ^ k)) (- k)))) as H.
  { intros s p k Hk. unfold Z_of_double.
    destruct (Z.leb_spec 0 (- k)); [reflexivity|].
    assert (0 < 2 ^ k) by (apply Z.pow_pos_nonneg; lia).
    rewrite Z2Pos.id by lia. rewrite Z.opp_involutive, Z.mod_mul by lia.
    reflexivity. }
  destruct z as [|p|p]; [reflexivity| |]; apply H; lia.
Qed.

Lemma get_by_value_handle t h : get_by_value t (JNumber (double_of_Z h)) = get t h.
Proof. unfold get_by_value. by rewrite Z_of_double_of_Z. Qed.

Lemma push_on_array D t hp a l o h :
  get t a = JObject l -> hp !! l = Some o -> obj_class o = ClsArray ->
  emlite_val_push D t hp a h = (t, <[l := push_elem o (JNumber (double_of_Z h))]> hp).
Proof.
  intros Hg Hl Hc. unfold emlite_val_push. rewrite Hg, Hl.
  by rewrite bool_decide_eq_true_2.
Qed.

Lemma push_all_on_array D t a l hs : forall hp o,
  get t a = JObject l -> hp !! l = Some o -> obj_class o = ClsArray ->
  exists o',
    push_all D t hp a hs = (t, <[l := o']> hp) /\
    obj_class o' = ClsArray /\
    obj_elems o' = obj_elems o ++ map (fun h => JNumber (double_of_Z h)) hs.
Proof.
  unfold push_all. induction hs as [|h hs IH]; intros hp o Hg Hl Hc.
  - exists o. simpl. rewrite insert_id by done. by rewrite app_nil_r.
  - simpl. rewrite (push_on_array D t hp a l o h) by done.
    destruct (IH (<[l := push_elem o (JNumber (double_of_Z h))]> hp)
                 (push_elem o (JNumber (double_of_Z h))) Hg)
      as (o' & Hp & Hc' & He'); [apply lookup_insert_eq|done|].
    exists o'. rewrite Hp, insert_insert_eq. split; [reflexivity|].
    split; [done|]. rewrite He'. simpl. by rewrite <- app_assoc.
Qed.

(** X24 — Marshalling the arguments of a call: after
    [emlite_val_new_array] and one [emlite_val_push] per handle of [hs],
    the table is as [emlite_val_new_array] left it, and with any table
    [t'] under which the array handle still names the array the argument
    list of a call is the values that [hs] name in [t'], in the order
    pushed: the array holds handle numbers, which are resolved when the
    call is made, so a handle released in between arrives as
    [undefined].  The three call operations dispatch with exactly that
    list. *)
Theorem arguments_are_marshalled P D mem t hp a t1 hp1 hs :
  wf t -> emlite_val_new_array t hp = Normal (a, t1, hp1) ->
  fst (push_all D t1 hp1 a hs) = t1 /\
  forall t', get t' a = get t1 a ->
    resolve_args t' (snd (push_all D t1 hp1 a hs)) a = Normal (map (get t') hs) /\
    (forall f,
       emlite_val_func_call P D t' (snd (push_all D t1 hp1 a hs)) f a
       = finish_call P (host_apply D (get t' f) (map (get t') hs)) t'
           (snd (push_all D t1 hp1 a hs))) /\
    (forall f,
       emlite_val_construct_new P D t' (snd (push_all D t1 hp1 a hs)) f a
       = finish_call P (host_construct D (get t' f) (map (get t') hs)) t'
           (snd (push_all D t1 hp1 a hs))) /\
    (forall f mPtr mLen,
       emlite_val_obj_call P D mem t' (snd (push_all D t1 hp1 a hs)) f mPtr mLen a
       = finish_call P
           (host_apply_method D (get t' f) (cStr mem mPtr mLen) (map (get t') hs)) t'
           (snd (push_all D t1 hp1 a hs))).
Proof.
  intros W Hnew. unfold emlite_val_new_array, alloc in Hnew.
  set (l := fresh (dom hp)) in *.
  destruct (add t (JObject l)) as [[h0 t0]|] eqn:Hadd; [|discriminate].
  simpl in Hnew. injection Hnew as <- <- <-.
  assert (get t0 h0 = JObject l) as Hg.
  { apply key_JObject. eapply add_get_key; eauto. }
  destruct (push_all_on_array D t0 h0 l hs (<[l := mkObject ClsArray ∅ []]> hp)
              (mkObject ClsArray ∅ []) Hg) as (o' & Hp & Hc & He);
    [apply lookup_insert_eq|done|].
  rewrite Hp. simpl. split; [reflexivity|]. intros t' Ht'.
  assert (resolve_args t' (<[l := o']> (<[l := mkObject ClsArray ∅ []]> hp)) h0
          = Normal (map (get t') hs)) as Hr.
  { unfold resolve_args. rewrite Ht', Hg, lookup_insert_eq.
    rewrite bool_decide_eq_true_2 by done. rewrite He. simpl.
    rewrite map_map. f_equal. apply map_ext. intros h. apply get_by_value_handle. }
  split; [exact Hr|].
  unfold emlite_val_func_call, emlite_val_construct_new, emlite_val_obj_call.
  rewrite Hr. repeat split.
Qed.

Lemma new_array_total t hp :
  wf t -> exists a t1 hp1, emlite_val_new_array t hp = Normal (a, t1, hp1).
Proof.
  intros W. unfold emlite_val_new_array, alloc.
  destruct (add_total t (JObject (fresh (dom hp))) W) as (h & t' & ->).
  simpl. eauto.
Qed.

Lemma arguments_are_marshalled_witness :
  wf EMLITE_VALMAP0 /\
  exists a t1 hp1,
    emlite_val_new_array EMLITE_VALMAP0 ∅ = Normal (a, t1, hp1) /\
    resolve_args t1 (snd (push_all (returning_dispatch JNull) t1 hp1 a [3; 0; 99])) a
      = Normal (map (get t1) [3; 0; 99]).
Proof.
  split; [exact wf_init|].
  destruct (new_array_total EMLITE_VALMAP0 ∅ wf_init) as (a & t1 & hp1 & E).
  exists a, t1, hp1. split; [exact E|].
  exact (proj1 (proj2 (arguments_are_marshalled no_prims (returning_dispatch JNull)
                         example_memory EMLITE_VALMAP0 ∅ a t1 hp1 [3; 0; 99]
                         wf_init E) t1 eq_refl)).
Defined.

(** ** Reading a pushed element *)




(** * The component adapter's strings *)

Lemma stringToU16Array_id s : stringToU16Array s = s.
Proof.
  unfold stringToU16Array. induction s as [|c s IH]; [done|].
  cbn [length seq map]. unfold charCodeAt at 1. cbn [nth]. f_equal.
  rewrite <- seq_shift, map_map. exact IH.
Qed.

Lemma u16ArrayToString_spec arr :
  u16ArrayToString arr = map (fun x => Z.land x 0xFFFF) arr.
Proof.
  unfold u16ArrayToString.
  assert (forall acc, foldl (fun s x => s ++ fromCharCode (Z.land x 0xFFFF)) acc arr
                      = acc ++ map (fun x => Z.land x 0xFFFF) arr) as H; [|apply H].
  induction arr as [|x arr IH]; intros acc; simpl.
  - by rewrite app_nil_r.
  - rewrite IH, <- app_assoc. f_equal. unfold fromCharCode. simpl. f_equal.
    change 0xFFFF with (Z.ones 16). rewrite Z.land_ones by lia.
    change (2 ^ 16) with 65536. apply Z.mod_mod. lia.
Qed.

Lemma land_FFFF_units u :
  code_units u = true -> map (fun x => Z.land x 0xFFFF) u = u.
Proof.
  unfold code_units. induction u as [|c u IH]; [done|]. simpl.
  rewrite andb_true_iff, andb_true_iff. intros [[H1 H2] H3].
  rewrite IH by done. f_equal. change 0xFFFF with (Z.ones 16).
  rewrite Z.land_ones by lia. apply Z.mod_small. lia.
Qed.

(** X25 — The adapter's 16-bit strings are exact: on a well-formed table,
    [emliteValGetValueStringUtf16] of the handle of
    [emliteValMakeStrUtf16 u] is [u] with every element reduced to 16
    bits, hence [u] itself for every list of code units, with no
    condition on surrogates or on a leading U+FEFF, and for the empty
    list; [emliteValGetValueString] gives the same string.  A handle
    without an entry reads as the text "undefined". *)
Theorem adapter_utf16_exact P hp t u :
  wf t ->
  (exists h t',
     emliteValMakeStrUtf16 t u = Normal (h, t') /\
     emliteValGetValueStringUtf16 P hp t' h = Normal (map (fun x => Z.land x 0xFFFF) u) /\
     emliteValGetValueString P hp t' h = Normal (map (fun x => Z.land x 0xFFFF) u) /\
     (code_units u = true -> emliteValGetValueStringUtf16 P hp t' h = Normal u) /\
     emliteValTypeof hp t' h = lit "string") /\
  (forall h0, _h2e t !! h0 = None ->
     emliteValGetValueString P hp t h0 = Normal (lit "undefined") /\
     emliteValGetValueStringUtf16 P hp t h0 = Normal (lit "undefined")).
Proof.
  intros W. split.
  - unfold emliteValMakeStrUtf16. rewrite u16ArrayToString_spec.
    set (s := map (fun x => Z.land x 0xFFFF) u).
    destruct (add_total t (JString s) W) as (h & t' & Hadd).
    assert (get t' h = JString s) as Hg.
    { apply key_eq_not_zero; [|reflexivity]. eapply add_get_key; eauto. }
    exists h, t'. split; [exact Hadd|].
    unfold emliteValGetValueStringUtf16, emliteValGetValueString, emliteValTypeof.
    rewrite Hg. simpl. rewrite stringToU16Array_id.
    split; [reflexivity|]. split; [reflexivity|]. split; [|reflexivity].
    intros Hu. unfold s. by rewrite land_FFFF_units.
  - intros h0 H0. unfold emliteValGetValueStringUtf16, emliteValGetValueString.
    rewrite (get_absent _ _ H0). simpl. by rewrite stringToU16Array_id.
Qed.

Lemma adapter_utf16_exact_witness :
  wf EMLITE_VALMAP0 /\
  exists h t',
    emliteValMakeStrUtf16 EMLITE_VALMAP0 [0xFEFF; 0xD800; 0x61] = Normal (h, t') /\
    emliteValGetValueStringUtf16 no_prims ∅ t' h = Normal [0xFEFF; 0xD800; 0x61].
Proof.
  split; [exact wf_init|].
  destruct (proj1 (adapter_utf16_exact no_prims ∅ EMLITE_VALMAP0 [0xFEFF; 0xD800; 0x61]
                     wf_init)) as (h & t' & H1 & _ & _ & H4 & _).
  exists h, t'. split; [exact H1|]. apply H4. reflexivity.
Defined.

(** * The views over the guest memory *)

(** X26 — The views are sound where the bridge refreshes them: whatever
    buffer the views were made over, [cStr] and [cStrUtf16] read the
    current bytes of the memory, as the model on bytes says, and leave
    views over the current buffer.  And when the allocator keeps the
    buffer in place or its growth is reported, [copyStringToWasm] and
    [copyStringToWasmUtf16] do on the memory what the model on bytes
    does: same pointer and same bytes, or the same error. *)
Theorem views_refine_bytes P hp g vw m str :
  (forall ptr len,
     snd (Viewed.cStr vw m ptr len) = cStr (contents m) ptr len /\
     snd (Viewed.cStrUtf16 vw m ptr len) = cStrUtf16 (contents m) ptr len /\
     _u8 (fst (Viewed.cStr vw m ptr len)) = buffer m /\
     _u8 (fst (Viewed.cStrUtf16 vw m ptr len)) = buffer m) /\
  (keeps_views g m ->
   match Viewed.copyStringToWasm P hp (Some (Viewed.mkExports (Some g)))
           vw m str with
   | Normal (ptr, m2, _) =>
       copyStringToWasm P hp (mkExports (Some (flat_malloc g (buffer m)))) (contents m) str
         = Normal (ptr, contents m2)
   | Throw e =>
       copyStringToWasm P hp (mkExports (Some (flat_malloc g (buffer m)))) (contents m) str
         = Throw e
   end /\
   match Viewed.copyStringToWasmUtf16 P hp (Some (Viewed.mkExports (Some g)))
           vw m str with
   | Normal (ptr, m2, _) =>
       copyStringToWasmUtf16 P hp (mkExports (Some (flat_malloc g (buffer m))))
         (contents m) str = Normal (ptr, contents m2)
   | Throw e =>
       copyStringToWasmUtf16 P hp (mkExports (Some (flat_malloc g (buffer m))))
         (contents m) str = Throw e
   end).
Proof.
  split.
  - intros ptr len. unfold Viewed.cStr, Viewed.cStrUtf16, cStr, cStrUtf16. simpl.
    rewrite ensure_fresh, ensure_fresh_buffer. simpl. done.
  - intros Hk.
    assert (forall n, let '(ptr, m1, notified) := g m n in
              view (if notified then _updateViews m1 else _ensureViewsFresh vw m) m1
              = Some (contents m1)) as Hview.
    { intros n. specialize (Hk n). destruct (g m n) as [[ptr m1] notified]. simpl in Hk.
      destruct notified; [apply update_fresh|].
      destruct Hk as [Hb|Hb]; [|discriminate].
      eapply view_same_buffer; [apply ensure_fresh|done]. }
    assert (forall n, flat_malloc g (buffer m) (contents m) n
                      = (fst (fst (g m n)), contents (snd (fst (g m n))))) as Hflat.
    { intros n. unfold flat_malloc. destruct m as [b c]. simpl.
      by destruct (g (mkMemory b c) n) as [[ptr m1] notified]. }
    unfold Viewed.copyStringToWasm, Viewed.copyStringToWasmUtf16,
      copyStringToWasm, copyStringToWasmUtf16.
    destruct (not_a_string hp str); [split; reflexivity|].
    cbn [emlite_malloc Viewed.emlite_malloc].
    destruct (JsString P hp str) as [s|e]; [|split; reflexivity].
    cbn [completion_bind]. split.
    + rewrite Hflat. specialize (Hview (Z.of_nat (length (TextEncoder_encode (s ++ [0]))))).
      destruct (g m _) as [[ptr m1] notified]. cbn [fst snd].
      destruct (ptr =? 0); [reflexivity|].
      unfold Viewed.u8_set. rewrite Hview. unfold u8_set.
      destruct (Z.ltb_spec ptr 0); [reflexivity|]. cbn [orb].
      destruct (_ <? _); reflexivity.
    + rewrite Hflat. specialize (Hview ((Z.of_nat (length s) + 1) * 2)).
      destruct (g m _) as [[ptr m1] notified]. cbn [fst snd].
      destruct (ptr =? 0); [reflexivity|].
      destruct (negb (Z.rem ptr 2 =? 0)); [reflexivity|].
      rewrite Hview. reflexivity.
Qed.

Lemma views_refine_bytes_witness :
  keeps_views (growing_malloc true) (mkMemory 1 example_memory) /\
  match Viewed.copyStringToWasm no_prims ∅
          (Some (Viewed.mkExports (Some (growing_malloc true)))) (mkViews 1)
          (mkMemory 1 example_memory) (JString (lit "hi")) with
  | Normal (ptr, m2, _) =>
      copyStringToWasm no_prims ∅
        (mkExports (Some (flat_malloc (growing_malloc true) 1))) example_memory
        (JString (lit "hi")) = Normal (ptr, contents m2)
  | Throw e =>
      copyStringToWasm no_prims ∅
        (mkExports (Some (flat_malloc (growing_malloc true) 1))) example_memory
        (JString (lit "hi")) = Throw e
  end.
Proof.
  assert (keeps_views (growing_malloc true) (mkMemory 1 example_memory)) as Hk
    by (intros n; right; reflexivity).
  split; [exact Hk|].
  exact (proj1 (proj2 (views_refine_bytes no_prims ∅ (growing_malloc true) (mkViews 1)
                         (mkMemory 1 example_memory) (JString (lit "hi"))) Hk)).
Defined.

(** X27 — Growth that is not reported: the copy routines refresh the
    views before calling the allocator and not after.  When the allocator
    replaces the buffer of the memory and the growth is not reported, the
    views are over the detached buffer when the string is written: for a
    non-empty string and a positive pointer [copyStringToWasm] raises a
    [TypeError], and [copyStringToWasmUtf16], given an even pointer,
    writes nothing and returns the pointer, so that what the guest then
    reads at the pointer is whatever the allocator left there. *)
Theorem unreported_growth P hp (g : GuestMalloc) vw m s :
  s <> [] ->
  (forall ptr m1,
     g m (Z.of_nat (length (TextEncoder_encode (s ++ [0])))) = (ptr, m1, false) ->
     buffer m1 <> buffer m -> 0 < ptr ->
     Viewed.copyStringToWasm P hp (Some (Viewed.mkExports (Some g))) vw m (JString s)
       = Throw ExcTypeError) /\
  (forall ptr m1,
     g m ((Z.of_nat (length s) + 1) * 2) = (ptr, m1, false) ->
     buffer m1 <> buffer m -> 0 < ptr -> Z.rem ptr 2 = 0 ->
     Viewed.copyStringToWasmUtf16 P hp (Some (Viewed.mkExports (Some g))) vw m
       (JString s) = Normal (ptr, m1, _ensureViewsFresh vw m) /\
     view (_ensureViewsFresh vw m) m1 = None).
Proof.
  intros Hne.
  assert (forall m1, buffer m1 <> buffer m -> view (_ensureViewsFresh vw m) m1 = None)
    as Hstale.
  { intros m1 Hb. unfold view. rewrite bool_decide_eq_false_2; [done|].
    rewrite ensure_fresh_buffer. congruence. }
  split; intros ptr m1 Hg Hb Hp.
  - unfold Viewed.copyStringToWasm.
    rewrite not_a_string_JString, bool_decide_eq_false_2 by done.
    cbn [Viewed.emlite_malloc JsString completion_bind]. rewrite Hg.
    destruct (Z.eqb_spec ptr 0); [lia|]. unfold Viewed.u8_set.
    destruct (Z.ltb_spec ptr 0); [lia|]. by rewrite Hstale.
  - intros Hev. split; [|by apply Hstale]. unfold Viewed.copyStringToWasmUtf16.
    rewrite not_a_string_JString, bool_decide_eq_false_2 by done.
    cbn [Viewed.emlite_malloc JsString completion_bind]. rewrite Hg.
    destruct (Z.eqb_spec ptr 0); [lia|]. rewrite Hev.
    change (negb (0 =? 0)) with false. cbv iota. by rewrite Hstale.
Qed.

Lemma unreported_growth_witness :
  lit "hi" <> [] /\
  Viewed.copyStringToWasm no_prims ∅
    (Some (Viewed.mkExports (Some (growing_malloc false)))) (mkViews 1)
    (mkMemory 1 example_memory) (JString (lit "hi")) = Throw ExcTypeError.
Proof.
  assert (lit "hi" <> []) as Hne by discriminate.
  split; [exact Hne|].
  apply (proj1 (unreported_growth no_prims ∅ (growing_malloc false) (mkViews 1)
                  (mkMemory 1 example_memory) (lit "hi") Hne) 8
               (mkMemory 2 (example_memory ++ replicate 16 0)));
    [reflexivity|discriminate|lia].
Defined.
